(** * Export-strategy engine of the Figma-to-PDF plugin (code.js)

    A shallow embedding of the controller code of the plugin: the scene
    inspector, the rasterization classifier, the segment planner, the scene
    mutator, the per-frame export ladder, the greedy packers and the PDF
    validator, followed by the properties proved about them.

    Conventions of the embedding.
    - A JavaScript number is a value of an abstract type [num] (class
      [JSNumber]); the code only adds numbers, compares them with [>] and
      tests their truthiness, so nothing else is assumed about them.
    - A node object is identified by its [id].  The fields the plugin never
      writes (type, name, effects, blend mode, geometry, children, parent)
      live in the [node] tree; the fields it writes ([visible], [fills],
      [strokes]) live in a store, the [scene], indexed by node id, so that
      two references to one node see the same writes.
    - A missing property is [None]; [figma.mixed] is the constructor [Mixed].
    - The host primitives ([exportAsync], [getRangeBounds]) are parameters. *)

From Stdlib Require Import ZArith List String Ascii Bool Lia DecimalString.
From Stdlib.Strings Require Import Byte.
From stdpp Require Import base strings gmap list.

Import ListNotations.
Local Open Scope string_scope.
Local Open Scope list_scope.

(** ** JavaScript numbers *)

Class JSNumber := {
  num : Type;
  (** a numeric literal *)
  num_lit : Z -> num;
  (** [a + b] *)
  num_add : num -> num -> num;
  (** [a > b] *)
  num_gt : num -> num -> bool;
  (** ToBoolean: false for [0] and [NaN] *)
  num_truthy : num -> bool;
  (** [0 + a] is [a] *)
  num_add_zero_l : forall a, num_add (num_lit 0) a = a
}.

(** Integers are one model of the interface. *)
#[export] Instance ZNumber : JSNumber := {|
  num := Z;
  num_lit := fun z => z;
  num_add := Z.add;
  num_gt := fun a b => Z.ltb b a;
  num_truthy := fun a => negb (Z.eqb a 0);
  num_add_zero_l := Z.add_0_l
|}.

(** [a || 0] on a possibly missing number. *)
Definition or_zero `{JSNumber} (a : option num) : num :=
  match a with
  | Some v => if num_truthy v then v else num_lit 0
  | None => num_lit 0
  end.

(** ** Strings and arrays of strings *)

(** [arr.includes(s)] on an array of strings. *)
Definition includes (arr : list string) (s : string) : bool :=
  existsb (String.eqb s) arr.

(** [haystack.includes(needle)] on strings. *)
Fixpoint str_includes (needle haystack : string) : bool :=
  if String.prefix needle haystack then true
  else match haystack with
       | EmptyString => false
       | String _ rest => str_includes needle rest
       end.

(** Decimal rendering of a non-negative integer inside a template string. *)
Definition show_nat (n : nat) : string :=
  NilEmpty.string_of_uint (Nat.to_uint n).

(** ** Data model *)

Record effect := {
  effect_type : string;
  effect_visible : option bool
}.

Record paint := {
  paint_visible : option bool;
  paint_color : nat
}.

(** The value of [node.fills] or [node.strokes]: an array of paints, whose
    entries may be null, or the sentinel [figma.mixed]. *)
Inductive paints :=
| Mixed
| PaintArray (entries : list (option paint)).

Section Model.
Context `{JSNumber}.

Record rect := {
  rect_x : num;
  rect_y : num;
  rect_width : num;
  rect_height : num
}.

(** What [node.getRangeBounds(start, end)] may do. *)
Inductive range_outcome :=
| RangeArray (rects : list (option rect))
| RangeValue (r : option rect)
| RangeThrows (message : string).

#[local] Unset Elimination Schemes.

(** The part of [node.parent] the code reads: its id, its offset and its own
    parent. *)
Inductive parent_ref := ParentRef {
  parent_id : string;
  parent_x : option num;
  parent_y : option num;
  parent_parent : option parent_ref
}.

Inductive node := Node {
  node_id : string;
  node_type : string;
  node_name : string;
  node_x : option num;
  node_y : option num;
  node_width : option num;
  node_height : option num;
  node_parent : option parent_ref;
  node_effects : option (list effect);
  node_blendMode : option string;
  node_isMask : bool;
  node_getRangeBounds : option (nat -> nat -> range_outcome);
  node_children : list node
}.

#[local] Set Elimination Schemes.

(** The writable fields of a node. [None] for [fills] or [strokes] means the
    node has no such property (['fills' in node] is false). *)
Record props := {
  visible : bool;
  fills : option paints;
  strokes : option paints
}.

(** The store of writable fields, by node id. *)
Definition scene := string -> props.

Definition set_props (sc : scene) (i : string) (p : props) : scene :=
  fun j => if String.eqb j i then p else sc j.

(** ** Rasterization classifier *)

Definition MUST_RASTERIZE_EFFECTS : list string :=
  ["LAYER_BLUR"; "BACKGROUND_BLUR"].

Definition SHOULD_RASTERIZE_EFFECTS : list string :=
  ["DROP_SHADOW"; "INNER_SHADOW"].

Definition PROBLEMATIC_BLEND_MODES : list string :=
  ["MULTIPLY"; "SCREEN"; "OVERLAY"; "DARKEN"; "LIGHTEN"; "COLOR_DODGE";
   "COLOR_BURN"; "HARD_LIGHT"; "SOFT_LIGHT"; "DIFFERENCE"; "EXCLUSION";
   "HUE"; "SATURATION"; "COLOR"; "LUMINOSITY"; "PLUS_DARKER"; "PLUS_LIGHTER"].

Definition RASTERIZE_EFFECTS : list string :=
  MUST_RASTERIZE_EFFECTS ++ SHOULD_RASTERIZE_EFFECTS.

(** [x.visible !== false] *)
Definition not_false (v : option bool) : bool :=
  match v with
  | Some false => false
  | _ => true
  end.

(** [node.effects && node.effects.length > 0] *)
Definition has_effects (n : node) : bool :=
  match node_effects n with
  | Some (_ :: _) => true
  | _ => false
  end.

Definition effects_of (n : node) : list effect :=
  match node_effects n with
  | Some l => l
  | None => []
  end.

(** [node.blendMode && PROBLEMATIC_BLEND_MODES.includes(node.blendMode)] *)
Definition has_problematic_blend (n : node) : bool :=
  match node_blendMode n with
  | Some m => negb (String.eqb m "") && includes PROBLEMATIC_BLEND_MODES m
  | None => false
  end.

Definition hasVisiblePaints (p : option paints) : bool :=
  match p with
  | Some (PaintArray l) =>
      existsb (fun e => match e with
                        | Some q => not_false (paint_visible q)
                        | None => false
                        end) l
  | _ => false
  end.

Definition nodeHasRenderableSelf (sc : scene) (n : node) : bool :=
  if String.eqb (node_type n) "TEXT" then true
  else if hasVisiblePaints (fills (sc (node_id n))) then true
  else if hasVisiblePaints (strokes (sc (node_id n))) then true
  else false.

Definition nodeNeedsRaster (n : node) : bool :=
  if has_effects n &&
     existsb (fun e => not_false (effect_visible e) &&
                       includes RASTERIZE_EFFECTS (effect_type e))
             (effects_of n)
  then true
  else if has_problematic_blend n then true
  else if node_isMask n && has_effects n then true
  else false.

(** ** Scene inspector: subtree collection and ancestor chains *)

(** Pushing the children from the last to the first leaves the first child
    on top of the stack.  The head of the list is the top of the stack. *)
Definition push_children (current : node) (stack : list node) : list node :=
  fold_left (fun st c => c :: st) (rev (node_children current)) stack.

(** The [while (stack.length > 0)] loop shared by [collectAllNodes] and
    [collectSubtreeNodes]; [fuel] bounds the number of iterations. *)
Fixpoint collect_loop (fuel : nat) (stack nodes : list node) : list node :=
  match fuel with
  | O => nodes
  | S fuel' =>
      match stack with
      | [] => nodes
      | current :: rest =>
          collect_loop fuel' (push_children current rest) (nodes ++ [current])
      end
  end.

(** Number of nodes of a subtree: one loop iteration pops one node. *)
Fixpoint tree_size (n : node) : nat :=
  match n with
  | Node _ _ _ _ _ _ _ _ _ _ _ _ cs => S (list_sum (List.map tree_size cs))
  end.

Definition collectSubtreeNodes (n : node) : list node :=
  collect_loop (tree_size n) [n] [].

Definition collectAllNodes (root : option node) : list node :=
  match root with
  | None => []
  | Some r => collect_loop (tree_size r) [r] []
  end.

(** A node seen as the target of a parent pointer. *)
Definition ref_of (n : node) : parent_ref :=
  {| parent_id := node_id n; parent_x := node_x n; parent_y := node_y n;
     parent_parent := node_parent n |}.

(** [while (current && current !== stopNode)]: object identity is identity
    of ids. *)
Fixpoint ancestors_until (stop : option string) (current : parent_ref)
  : list parent_ref :=
  let is_stop := match stop with
                 | Some s => String.eqb (parent_id current) s
                 | None => false
                 end in
  if is_stop then []
  else current :: match parent_parent current with
                  | Some p => ancestors_until stop p
                  | None => []
                  end.

Definition getAncestorChain (n : node) (stopNode : option node)
  : list parent_ref :=
  let ancestors :=
    match node_parent n with
    | Some p => ancestors_until (option_map node_id stopNode) p
    | None => []
    end in
  match stopNode with
  | Some s => ancestors ++ [ref_of s]
  | None => ancestors
  end.

(** ** Segment planner *)

Inductive segment_type := vector | raster.

Record segment := {
  seg_type : segment_type;
  seg_nodes : list node
}.

(** [Array.from(new Set(nodes))]: first occurrences, in insertion order. *)
Fixpoint unique_nodes_from (seen : list string) (l : list node) : list node :=
  match l with
  | [] => []
  | n :: rest =>
      if includes seen (node_id n) then unique_nodes_from seen rest
      else n :: unique_nodes_from (node_id n :: seen) rest
  end.

Definition unique_nodes (l : list node) : list node := unique_nodes_from [] l.

(** The two variables [buildFrameSegments] closes over. *)
Record planner := {
  segments : list segment;
  currentVectorNodes : list node
}.

Definition flushVector (st : planner) : planner :=
  match currentVectorNodes st with
  | [] => st
  | _ :: _ =>
      {| segments := segments st ++
                     [{| seg_type := vector;
                         seg_nodes := unique_nodes (currentVectorNodes st) |}];
         currentVectorNodes := [] |}
  end.

Fixpoint visit (sc : scene) (n : node) (st : planner) : planner :=
  if negb (visible (sc (node_id n))) then st
  else if nodeNeedsRaster n then
    let st1 := flushVector st in
    {| segments := segments st1 ++
                   [{| seg_type := raster; seg_nodes := collectSubtreeNodes n |}];
       currentVectorNodes := currentVectorNodes st1 |}
  else
    let st1 :=
      if nodeHasRenderableSelf sc n
      then {| segments := segments st;
              currentVectorNodes := currentVectorNodes st ++ [n] |}
      else st in
    match n with
    | Node _ _ _ _ _ _ _ _ _ _ _ _ cs => fold_left (fun s c => visit sc c s) cs st1
    end.

Definition buildFrameSegments (sc : scene) (frame : node) : list segment :=
  let st0 := {| segments := []; currentVectorNodes := [] |} in
  let st1 := fold_left (fun s c => visit sc c s) (node_children frame) st0 in
  segments (flushVector st1).

(** ** Scene mutator *)

Record node_state := {
  st_visibility : gmap string bool;
  st_fills : gmap string paints;
  st_strokes : gmap string paints
}.

(** [paints !== figma.mixed] for a property that exists. *)
Definition writable (p : option paints) : option paints :=
  match p with
  | Some Mixed => None
  | other => other
  end.

Definition capture_node (sc : scene) (st : node_state) (n : node) : node_state :=
  let i := node_id n in
  let st1 := {| st_visibility := <[i := visible (sc i)]> (st_visibility st);
                st_fills := st_fills st; st_strokes := st_strokes st |} in
  let st2 := match writable (fills (sc i)) with
             | Some f => {| st_visibility := st_visibility st1;
                            st_fills := <[i := f]> (st_fills st1);
                            st_strokes := st_strokes st1 |}
             | None => st1
             end in
  match writable (strokes (sc i)) with
  | Some s => {| st_visibility := st_visibility st2;
                 st_fills := st_fills st2;
                 st_strokes := <[i := s]> (st_strokes st2) |}
  | None => st2
  end.

Definition captureNodeState (sc : scene) (nodes : list node) : node_state :=
  fold_left (capture_node sc) nodes
    {| st_visibility := ∅; st_fills := ∅; st_strokes := ∅ |}.

Definition set_visible (sc : scene) (i : string) (v : bool) : scene :=
  set_props sc i {| visible := v; fills := fills (sc i); strokes := strokes (sc i) |}.

Definition set_fills (sc : scene) (i : string) (f : paints) : scene :=
  set_props sc i {| visible := visible (sc i); fills := Some f; strokes := strokes (sc i) |}.

Definition set_strokes (sc : scene) (i : string) (s : paints) : scene :=
  set_props sc i {| visible := visible (sc i); fills := fills (sc i); strokes := Some s |}.

Definition restore_node (state : node_state) (sc : scene) (n : node) : scene :=
  let i := node_id n in
  let sc1 := match st_visibility state !! i with
             | Some v => set_visible sc i v
             | None => sc
             end in
  let sc2 := match st_fills state !! i with
             | Some f => set_fills sc1 i f
             | None => sc1
             end in
  match st_strokes state !! i with
  | Some s => set_strokes sc2 i s
  | None => sc2
  end.

Definition restoreNodeState (nodes : list node) (state : node_state) (sc : scene)
  : scene :=
  fold_left (restore_node state) nodes sc.

Definition renderSet_of (segmentNodes : list node) : gset string :=
  fold_left (fun s n => {[ node_id n ]} ∪ s) segmentNodes ∅.

Definition showSet_of (frame : node) (segmentNodes : list node) : gset string :=
  fold_left
    (fun s n =>
       fold_left (fun s' a => {[ parent_id a ]} ∪ s')
                 (getAncestorChain n (Some frame))
                 ({[ node_id n ]} ∪ s))
    segmentNodes ∅.

Definition isolate_node (renderSet showSet : gset string) (state : node_state)
    (sc : scene) (n : node) : scene :=
  let i := node_id n in
  let originalVisible := match st_visibility state !! i with
                         | Some false => false
                         | _ => true
                         end in
  let sc1 := set_visible sc i (originalVisible && bool_decide (i ∈ showSet)) in
  let sc2 :=
    match writable (fills (sc1 i)) with
    | Some _ =>
        if bool_decide (i ∈ renderSet) then
          match st_fills state !! i with
          | Some f => set_fills sc1 i f
          | None => sc1
          end
        else set_fills sc1 i (PaintArray [])
    | None => sc1
    end in
  match writable (strokes (sc2 i)) with
  | Some _ =>
      if bool_decide (i ∈ renderSet) then
        match st_strokes state !! i with
        | Some s => set_strokes sc2 i s
        | None => sc2
        end
      else set_strokes sc2 i (PaintArray [])
  | None => sc2
  end.

Definition applySegmentState (frame : node) (nodes segmentNodes : list node)
    (state : node_state) (sc : scene) : scene :=
  let renderSet := renderSet_of segmentNodes in
  let showSet := showSet_of frame segmentNodes in
  fold_left (isolate_node renderSet showSet state) nodes sc.

(** ** Layer analysis and export strategy *)

Record issue := {
  issue_type : string;
  issue_effect : option string;
  issue_mode : option string;
  issue_reason : string
}.

(** An entry of [results.details]: the issue list is stored under the key
    [issues] when the layer needs rasterization and under [warnings]
    otherwise. *)
Record layer_detail := {
  detail_name : string;
  detail_type : string;
  detail_needsRaster : bool;
  detail_issues : option (list issue);
  detail_warnings : option (list issue);
  detail_depth : nat
}.

Record layer_analysis := {
  totalLayers : nat;
  vectorLayers : nat;
  rasterLayers : nat;
  details : list layer_detail;
  hasCriticalEffects : bool;
  frameStrategy : string
}.

Definition fresh_results : layer_analysis :=
  {| totalLayers := 0; vectorLayers := 0; rasterLayers := 0; details := [];
     hasCriticalEffects := false; frameStrategy := "vector" |}.

(** The locals [layerNeedsRaster] and [layerIssues] of one call, together
    with [results.hasCriticalEffects]. *)
Record layer_scan := {
  layerNeedsRaster : bool;
  scan_critical : bool;
  layerIssues : list issue
}.

(** One iteration of [for (const effect of node.effects)]. *)
Definition scan_effect (acc : layer_scan) (e : effect) : layer_scan :=
  if not_false (effect_visible e) then
    if includes MUST_RASTERIZE_EFFECTS (effect_type e) then
      {| layerNeedsRaster := true;
         scan_critical := true;
         layerIssues := layerIssues acc ++
           [{| issue_type := "CRITICAL_EFFECT";
               issue_effect := Some (effect_type e);
               issue_mode := None;
               issue_reason := "Cannot be represented as vector" |}] |}
    else if includes SHOULD_RASTERIZE_EFFECTS (effect_type e) then
      {| layerNeedsRaster := layerNeedsRaster acc;
         scan_critical := scan_critical acc;
         layerIssues := layerIssues acc ++
           [{| issue_type := "SHADOW_EFFECT";
               issue_effect := Some (effect_type e);
               issue_mode := None;
               issue_reason := "Better quality when rasterized" |}] |}
    else acc
  else acc.

(** The checks of one layer, up to "Record this layer's status". *)
Definition scan_layer (n : node) (critical : bool) : layer_scan :=
  let s0 := {| layerNeedsRaster := false; scan_critical := critical;
               layerIssues := [] |} in
  let s1 := if has_effects n then fold_left scan_effect (effects_of n) s0
            else s0 in
  let s2 :=
    if has_problematic_blend n then
      {| layerNeedsRaster := true;
         scan_critical := scan_critical s1;
         layerIssues := layerIssues s1 ++
           [{| issue_type := "BLEND_MODE";
               issue_effect := None;
               issue_mode := node_blendMode n;
               issue_reason := "Not fully supported in PDF" |}] |}
    else s1 in
  if node_isMask n && has_effects n then
    {| layerNeedsRaster := true;
       scan_critical := scan_critical s2;
       layerIssues := layerIssues s2 ++
         [{| issue_type := "MASKED_EFFECTS";
             issue_effect := None;
             issue_mode := None;
             issue_reason := "Mask + effects combination" |}] |}
  else s2.

(** The body of [if (node.type !== 'DOCUMENT' && node.type !== 'PAGE')]. *)
Definition analyze_layer (n : node) (depth : nat) (r : layer_analysis)
  : layer_analysis :=
  let s := scan_layer n (hasCriticalEffects r) in
  if layerNeedsRaster s then
    {| totalLayers := S (totalLayers r);
       vectorLayers := vectorLayers r;
       rasterLayers := S (rasterLayers r);
       details := details r ++
         [{| detail_name := node_name n; detail_type := node_type n;
             detail_needsRaster := true;
             detail_issues := Some (layerIssues s);
             detail_warnings := None;
             detail_depth := depth |}];
       hasCriticalEffects := scan_critical s;
       frameStrategy := frameStrategy r |}
  else
    match layerIssues s with
    | _ :: _ =>
        {| totalLayers := S (totalLayers r);
           vectorLayers := S (vectorLayers r);
           rasterLayers := rasterLayers r;
           details := details r ++
             [{| detail_name := node_name n; detail_type := node_type n;
                 detail_needsRaster := false;
                 detail_issues := None;
                 detail_warnings := Some (layerIssues s);
                 detail_depth := depth |}];
           hasCriticalEffects := scan_critical s;
           frameStrategy := frameStrategy r |}
    | [] =>
        {| totalLayers := S (totalLayers r);
           vectorLayers := S (vectorLayers r);
           rasterLayers := rasterLayers r;
           details := details r;
           hasCriticalEffects := scan_critical s;
           frameStrategy := frameStrategy r |}
    end.

(** "Determine overall strategy (only at root level)". *)
Definition set_strategy (r : layer_analysis) : layer_analysis :=
  let strat := if Nat.eqb (rasterLayers r) 0 then "vector"
               else if Nat.eqb (vectorLayers r) 0 then "raster"
               else "hybrid" in
  {| totalLayers := totalLayers r; vectorLayers := vectorLayers r;
     rasterLayers := rasterLayers r; details := details r;
     hasCriticalEffects := hasCriticalEffects r; frameStrategy := strat |}.

Definition is_layer (n : node) : bool :=
  negb (String.eqb (node_type n) "DOCUMENT") &&
  negb (String.eqb (node_type n) "PAGE").

Fixpoint analyzeFrameLayers (n : node) (depth : nat)
    (results : option layer_analysis) : layer_analysis :=
  let r0 := match results with
            | Some r => r
            | None => fresh_results
            end in
  let r1 := if is_layer n then analyze_layer n depth r0 else r0 in
  let r2 :=
    match n with
    | Node _ _ _ _ _ _ _ _ _ _ _ _ cs =>
        fold_left (fun r c => analyzeFrameLayers c (S depth) (Some r)) cs r1
    end in
  if Nat.eqb depth 0 then set_strategy r2 else r2.

Record layer_stats := {
  stats_vectorLayers : nat;
  stats_rasterLayers : nat;
  stats_total : nat
}.

(** An entry of the old-format issue list of [scanForProblematicEffects]. *)
Record flat_issue := {
  flat_nodeName : string;
  flat_nodeType : string;
  flat_issue_name : string;
  flat_severity : string;
  flat_reason : string
}.

Record decision := {
  strategy : string;
  reason : string;
  stats : option layer_stats;
  decision_issues : option (list flat_issue)
}.

Definition flatten_issue (d : layer_detail) (i : issue) : flat_issue :=
  {| flat_nodeName := detail_name d;
     flat_nodeType := detail_type d;
     flat_issue_name :=
       match issue_effect i with
       | Some e => if String.eqb e "" then
                     match issue_mode i with
                     | Some m => if String.eqb m "" then issue_type i else m
                     | None => issue_type i
                     end
                   else e
       | None => match issue_mode i with
                 | Some m => if String.eqb m "" then issue_type i else m
                 | None => issue_type i
                 end
       end;
     flat_severity :=
       if String.eqb (issue_type i) "CRITICAL_EFFECT" ||
          String.eqb (issue_type i) "BLEND_MODE" then "high"
       else if String.eqb (issue_type i) "SHADOW_EFFECT" then "medium"
       else "low";
     flat_reason := issue_reason i |}.

Definition scanForProblematicEffects (n : node) : list flat_issue :=
  let analysis := analyzeFrameLayers n 0 None in
  flat_map
    (fun d =>
       if detail_needsRaster d then
         List.map (flatten_issue d)
                  (match detail_issues d with Some l => l | None => [] end)
       else
         match detail_warnings d with
         | Some l => List.map (flatten_issue d) l
         | None => []
         end)
    (details analysis).

Definition count_severity (sev : string) (issues : list flat_issue) : nat :=
  length (List.filter (fun i => String.eqb (flat_severity i) sev) issues).

Definition determineExportStrategy (issues : list flat_issue)
    (layerAnalysis : option layer_analysis) : decision :=
  match layerAnalysis with
  | Some la =>
      let v := vectorLayers la in
      let r := rasterLayers la in
      let st := Some {| stats_vectorLayers := v; stats_rasterLayers := r;
                        stats_total := v + r |} in
      if String.eqb (frameStrategy la) "vector" then
        {| strategy := "vector";
           reason := "100% vector safe (" +:+ show_nat v +:+ " layers)";
           stats := st; decision_issues := None |}
      else if String.eqb (frameStrategy la) "raster" then
        {| strategy := "png";
           reason := "All layers need rasterization (" +:+ show_nat r +:+ " layers)";
           stats := st; decision_issues := None |}
      else if hasCriticalEffects la then
        {| strategy := "png";
           reason := "Hybrid frame with critical effects (" +:+ show_nat v +:+
                     " vector, " +:+ show_nat r +:+
                     " raster) - using high-quality PNG";
           stats := st; decision_issues := None |}
      else
        {| strategy := "vector-with-fallback";
           reason := "Hybrid frame (" +:+ show_nat v +:+ " vector, " +:+
                     show_nat r +:+
                     " raster) - attempting vector with PNG fallback";
           stats := st; decision_issues := None |}
  | None =>
      match issues with
      | [] => {| strategy := "vector";
                 reason := "No problematic effects detected";
                 stats := None; decision_issues := None |}
      | _ :: _ =>
          let high := count_severity "high" issues in
          let medium := count_severity "medium" issues in
          if Nat.ltb 0 high then
            {| strategy := "png";
               reason := show_nat high +:+
                         " critical issue(s) requiring rasterization";
               stats := None; decision_issues := Some issues |}
          else if Nat.leb 3 medium then
            {| strategy := "png";
               reason := show_nat medium +:+
                         " issues - better quality with PNG";
               stats := None; decision_issues := Some issues |}
          else
            {| strategy := "vector-with-fallback";
               reason := show_nat (length issues) +:+
                         " minor issue(s) - attempting vector with PNG fallback";
               stats := None; decision_issues := Some issues |}
      end
  end.

(** ** Scene inspector: bounds relative to the frame *)

(** [while (current && current.id !== frameId)], with the running sums. *)
Fixpoint offset_loop (frameId : string) (x y : num) (current : parent_ref)
  : num * num :=
  if String.eqb (parent_id current) frameId then (x, y)
  else
    let x' := num_add x (or_zero (parent_x current)) in
    let y' := num_add y (or_zero (parent_y current)) in
    match parent_parent current with
    | Some p => offset_loop frameId x' y' p
    | None => (x', y')
    end.

Definition getNodeOffsetToFrame (n : node) (frameId : string) : num * num :=
  offset_loop frameId (num_lit 0) (num_lit 0) (ref_of n).

Definition getAbsoluteBounds (n : node) (frameId : string) : rect :=
  let xy := offset_loop frameId (num_lit 0) (num_lit 0) (ref_of n) in
  {| rect_x := fst xy; rect_y := snd xy;
     rect_width := or_zero (node_width n);
     rect_height := or_zero (node_height n) |}.

(** [rect.width > 0 && rect.height > 0] *)
Definition positive_size (r : rect) : bool :=
  num_gt (rect_width r) (num_lit 0) && num_gt (rect_height r) (num_lit 0).

(** [.filter(rect => rect && rect.width > 0 && rect.height > 0)] *)
Fixpoint usable_rects (l : list (option rect)) : list rect :=
  match l with
  | [] => []
  | Some r :: rest =>
      if positive_size r then r :: usable_rects rest else usable_rects rest
  | None :: rest => usable_rects rest
  end.

Definition shift_rect (offset : num * num) (r : rect) : rect :=
  {| rect_x := num_add (fst offset) (rect_x r);
     rect_y := num_add (snd offset) (rect_y r);
     rect_width := rect_width r;
     rect_height := rect_height r |}.

Definition getTextRangeBounds (n : node) (frameId : string) (start stop : nat)
  : list rect :=
  let fallback := [getAbsoluteBounds n frameId] in
  let offset := getNodeOffsetToFrame n frameId in
  match node_getRangeBounds n with
  | Some query =>
      match query start stop with
      | RangeArray rangeBounds =>
          match List.map (shift_rect offset) (usable_rects rangeBounds) with
          | [] => fallback
          | rects => rects
          end
      | RangeValue (Some r) =>
          if positive_size r then [shift_rect offset r] else fallback
      | RangeValue None => fallback
      | RangeThrows _ => fallback
      end
  | None => fallback
  end.

(** ** PDF validation *)

Definition bytes := list Byte.byte.

Record validation := {
  isValid : bool;
  errors : list string;
  warnings : list string
}.

(** [String.fromCharCode] over a run of bytes. *)
Definition fromCharCodes (b : bytes) : string := string_of_list_byte b.

(** [data.slice(from, to)] for in-range indices. *)
Definition slice (data : bytes) (from to : nat) : bytes :=
  firstn (to - from) (skipn from data).

Definition double_quote : string := String (ascii_of_nat 34) EmptyString.
Definition newline : string := String (ascii_of_nat 10) EmptyString.

(** The loop counting equal neighbours in the middle sample. *)
Fixpoint count_repetitions (sample : bytes) : nat :=
  match sample with
  | a :: ((b :: _) as rest) =>
      (if Byte.eqb b a then 1 else 0) + count_repetitions rest
  | _ => 0
  end.

Definition push_if (cond : bool) (msg : string) (l : list string) : list string :=
  if cond then l ++ [msg] else l.

(** [pdfData] is [None] for a null or undefined buffer.  The comparison
    [repetitionCount > sampleSize * 0.8] is taken on integers, as
    [5 * repetitionCount > 4 * sampleSize]. *)
Definition validatePDFData (pdfData : option bytes) (frameName : string)
  : validation :=
  match pdfData with
  | None =>
      {| isValid := false;
         errors := ["PDF too small (" +:+ show_nat 0 +:+ " bytes)"];
         warnings := [] |}
  | Some data =>
      let len := length data in
      if Nat.ltb len 100 then
        {| isValid := false;
           errors := ["PDF too small (" +:+ show_nat len +:+ " bytes)"];
           warnings := [] |}
      else
        let header := fromCharCodes (firstn 5 data) in
        if negb (String.prefix "%PDF" header) then
          {| isValid := false;
             errors := ["Invalid PDF header: " +:+ double_quote +:+ header
                        +:+ double_quote];
             warnings := [] |}
        else
          let tailLength := Nat.min 100 len in
          let tailStr := fromCharCodes (skipn (len - tailLength) data) in
          let w1 := push_if (negb (str_includes "%%EOF" tailStr))
                      "Missing %%EOF marker - PDF may be truncated" [] in
          let headerLength := Nat.min 2000 len in
          let headerStr := fromCharCodes (slice data 0 headerLength) in
          let hasObj := str_includes " obj" headerStr ||
                        str_includes (newline +:+ "obj") headerStr in
          let w2 := push_if (negb hasObj)
                      "No PDF objects found in header - structure may be malformed"
                      w1 in
          let corrupted := str_includes "undefined" headerStr ||
                           str_includes "NaN" headerStr in
          let middleStart := Nat.div len 2 in
          let sampleSize := Nat.min 100 (len - middleStart) in
          let middleSample := slice data middleStart (middleStart + sampleSize) in
          let repetitionCount := count_repetitions middleSample in
          let w3 := push_if (Nat.ltb (4 * sampleSize) (5 * repetitionCount))
                      "PDF contains highly repetitive data - may be corrupted"
                      w2 in
          {| isValid := negb corrupted;
             errors := push_if corrupted
                         "PDF contains JavaScript error artifacts (undefined/NaN)"
                         [];
             warnings := w3 |}
  end.

(** ** Greedy packing: raster batches and output chunks *)

Record frame_info := {
  frame_id : string;
  frame_name : string;
  frame_width : num;
  frame_height : num;
  frame_parent : string
}.

(** An entry of [frameMemoryEstimates]. *)
Record frame_estimate := {
  est_frame : frame_info;
  estimatedBytes : num
}.

Definition SAFE_MEMORY_LIMIT : num := num_lit (400 * 1024 * 1024).
Definition MAX_CHUNK_BYTES : num := num_lit (20 * 1024 * 1024).

Definition is_empty {A} (l : list A) : bool :=
  match l with
  | [] => true
  | _ :: _ => false
  end.

(** The variables [batches], [currentBatch], [currentBatchMemory] of
    [exportToPDF]; the same record serves [exportChunks], [currentChunk],
    [currentBytes] of [performVectorExport]. *)
Record packing (A : Type) := {
  packed : list (list A);
  current : list A;
  currentSize : num
}.
Arguments packed {A} _.
Arguments current {A} _.
Arguments currentSize {A} _.

Definition batch_step (st : packing frame_info) (frameEst : frame_estimate)
  : packing frame_info :=
  if num_gt (num_add (currentSize st) (estimatedBytes frameEst)) SAFE_MEMORY_LIMIT
     && negb (is_empty (current st))
  then {| packed := packed st ++ [current st];
          current := [est_frame frameEst];
          currentSize := estimatedBytes frameEst |}
  else {| packed := packed st;
          current := current st ++ [est_frame frameEst];
          currentSize := num_add (currentSize st) (estimatedBytes frameEst) |}.

(** The batches built when [totalEstimatedMemory > SAFE_MEMORY_LIMIT]. *)
Definition planBatches (frameMemoryEstimates : list frame_estimate)
  : list (list frame_info) :=
  let st := fold_left batch_step frameMemoryEstimates
              {| packed := []; current := []; currentSize := num_lit 0 |} in
  if negb (is_empty (current st)) then packed st ++ [current st] else packed st.

Definition totalEstimatedMemory (frameMemoryEstimates : list frame_estimate) : num :=
  fold_left (fun total e => num_add total (estimatedBytes e))
            frameMemoryEstimates (num_lit 0).

(** The raster branch of [exportToPDF] after the estimates are computed:
    [Some batches] when a batch plan is sent instead of exporting. *)
Definition batchPlan (frameMemoryEstimates : list frame_estimate)
  : option (list (list frame_info)) :=
  if num_gt (totalEstimatedMemory frameMemoryEstimates) SAFE_MEMORY_LIMIT
  then Some (planBatches frameMemoryEstimates)
  else None.

(** ** The export ladder of [performVectorExport]

    Progress messages, console output, the layer totals of the summary and
    the connection filter are left out: they never feed back into the
    export decisions. *)

Inductive export_format :=
| PDF
| PNG (scale : num).

Inductive export_outcome :=
| Exported (data : bytes)
| ExportThrows (message : string).

(** One call of [frame.exportAsync], as observed by the host. *)
Record export_call := {
  call_frame : string;
  call_format : export_format;
  call_outcome : export_outcome
}.

Record segment_export := {
  sx_type : string;
  sx_pdfData : option bytes;
  sx_pngData : option bytes;
  sx_reason : option string
}.

(** An entry of [exportResults]; an absent key is [None], and [skipped] is
    [false] when the key is absent. *)
Record export_result := {
  res_id : string;
  res_name : string;
  res_width : num;
  res_height : num;
  res_pdfData : option bytes;
  res_pngData : option bytes;
  res_isPng : option bool;
  res_reason : option string;
  res_segments : option (list segment_export);
  res_layerStats : option layer_stats;
  res_error : option string;
  res_skipped : bool
}.

(** The state the export loop runs in: the scene, the calls made to the
    host so far, and the [exportResults] array. *)
Record world := {
  w_scene : scene;
  w_trace : list export_call;
  exportResults : list export_result
}.

(** A computation either completes or throws an error with a message. *)
Inductive completion (A : Type) :=
| Normal (a : A)
| Thrown (message : string).
Arguments Normal {A} _.
Arguments Thrown {A} _.

Definition M (A : Type) : Type := world -> completion A * world.

Definition ret {A} (a : A) : M A := fun w => (Normal a, w).

Definition bind {A B} (c : M A) (k : A -> M B) : M B :=
  fun w => match c w with
           | (Normal a, w') => k a w'
           | (Thrown m, w') => (Thrown m, w')
           end.

(** [try { body } catch (error) { handler(error.message) }] *)
Definition try_catch {A} (body : M A) (handler : string -> M A) : M A :=
  fun w => match body w with
           | (Normal a, w') => (Normal a, w')
           | (Thrown m, w') => handler m w'
           end.

(** [try { body } finally { cleanup }] *)
Definition finally {A} (body : M A) (cleanup : M unit) : M A :=
  fun w => match body w with
           | (c, w') =>
               match cleanup w' with
               | (Normal _, w'') => (c, w'')
               | (Thrown m, w'') => (Thrown m, w'')
               end
           end.

Definition get_scene : M scene := fun w => (Normal (w_scene w), w).

Definition modify_scene (f : scene -> scene) : M unit :=
  fun w => (Normal tt, {| w_scene := f (w_scene w); w_trace := w_trace w;
                          exportResults := exportResults w |}).

Definition push_result (r : export_result) : M unit :=
  fun w => (Normal tt, {| w_scene := w_scene w; w_trace := w_trace w;
                          exportResults := exportResults w ++ [r] |}).

Declare Scope export_scope.
Delimit Scope export_scope with export.
Notation "x <- c ;; k" := (bind c (fun x => k))
  (at level 100, c at next level, right associativity) : export_scope.
Notation "c ;;; k" := (bind c (fun _ => k))
  (at level 100, right associativity) : export_scope.
Local Open Scope export_scope.

Section HostPrimitives.

(** The host's export primitive: its answer may depend on how many calls
    came before, on the scene at the time of the call, on the frame and on
    the format. *)
Variable host : nat -> scene -> node -> export_format -> export_outcome.

(** The host's [getNodeByIdAsync]. *)
Variable getNodeById : string -> option node.

Definition exportAsync (frame : node) (fmt : export_format) : M bytes :=
  fun w =>
    let out := host (length (w_trace w)) (w_scene w) frame fmt in
    let w' := {| w_scene := w_scene w;
                 w_trace := w_trace w ++
                   [{| call_frame := node_id frame; call_format := fmt;
                       call_outcome := out |}];
                 exportResults := exportResults w |} in
    match out with
    | Exported data => (Normal data, w')
    | ExportThrows m => (Thrown m, w')
    end.

(** [{ id, name, width, height, error, skipped: true }] *)
Definition failed_result (info : frame_info) (error : string) : export_result :=
  {| res_id := frame_id info; res_name := frame_name info;
     res_width := frame_width info; res_height := frame_height info;
     res_pdfData := None; res_pngData := None; res_isPng := None;
     res_reason := None; res_segments := None; res_layerStats := None;
     res_error := Some error; res_skipped := true |}.

Definition pdf_result (info : frame_info) (pdfData : bytes)
    (st : option layer_stats) : export_result :=
  {| res_id := frame_id info; res_name := frame_name info;
     res_width := frame_width info; res_height := frame_height info;
     res_pdfData := Some pdfData; res_pngData := None; res_isPng := Some false;
     res_reason := None; res_segments := None; res_layerStats := st;
     res_error := None; res_skipped := false |}.

Definition png_result (info : frame_info) (pngData : bytes) (why : string)
    (st : option layer_stats) : export_result :=
  {| res_id := frame_id info; res_name := frame_name info;
     res_width := frame_width info; res_height := frame_height info;
     res_pdfData := None; res_pngData := Some pngData; res_isPng := Some true;
     res_reason := Some why; res_segments := None; res_layerStats := st;
     res_error := None; res_skipped := false |}.

Definition segments_result (info : frame_info) (segs : list segment_export)
    (st : option layer_stats) : export_result :=
  {| res_id := frame_id info; res_name := frame_name info;
     res_width := frame_width info; res_height := frame_height info;
     res_pdfData := None; res_pngData := None; res_isPng := None;
     res_reason := None; res_segments := Some segs; res_layerStats := st;
     res_error := None; res_skipped := false |}.

(** Whole-frame vector export with the PNG fallback (both copies of it). *)
Definition exportVector (pngFallbackScale : num) (info : frame_info)
    (frame : node) (st : option layer_stats) : M unit :=
  try_catch
    (pdfData <- exportAsync frame PDF ;;
     push_result (pdf_result info pdfData st))
    (fun error =>
       try_catch
         (pngData <- exportAsync frame (PNG pngFallbackScale) ;;
          push_result (png_result info pngData
                         ("PDF export failed: " +:+ error) st))
         (fun pngError =>
            push_result (failed_result info
                           ("Both PDF and PNG failed: " +:+ error)))).

(** Whole-frame PNG export of a frame whose layers are all raster. *)
Definition exportRaster (pngFallbackScale : num) (info : frame_info)
    (frame : node) (st : option layer_stats) : M unit :=
  try_catch
    (pngData <- exportAsync frame (PNG pngFallbackScale) ;;
     push_result (png_result info pngData "All layers rasterized" st))
    (fun error => push_result (failed_result info error)).

(** One iteration of [for (let s = 0; s < segments.length; s++)]. *)
Definition export_segment (pngFallbackScale : num) (frame : node)
    (nodes : list node) (state : node_state) (seg : segment)
  : M segment_export :=
  modify_scene (applySegmentState frame nodes (seg_nodes seg) state) ;;;
  match seg_type seg with
  | raster =>
      pngData <- exportAsync frame (PNG pngFallbackScale) ;;
      ret {| sx_type := "png"; sx_pdfData := None; sx_pngData := Some pngData;
             sx_reason := None |}
  | vector =>
      pdfData <- exportAsync frame PDF ;;
      ret {| sx_type := "vector"; sx_pdfData := Some pdfData;
             sx_pngData := None; sx_reason := None |}
  end.

Fixpoint export_segments (pngFallbackScale : num) (frame : node)
    (nodes : list node) (state : node_state) (segs : list segment)
    (segmentExports : list segment_export) : M (list segment_export) :=
  match segs with
  | [] => ret segmentExports
  | seg :: rest =>
      e <- export_segment pngFallbackScale frame nodes state seg ;;
      export_segments pngFallbackScale frame nodes state rest
                      (segmentExports ++ [e])
  end.

(** The optional background pass. *)
Definition export_background (frame : node) (nodes : list node)
    (state : node_state) (hasFrameBackground : bool)
  : M (list segment_export) :=
  if hasFrameBackground then
    modify_scene (applySegmentState frame nodes [frame] state) ;;;
    bgPdf <- exportAsync frame PDF ;;
    ret [{| sx_type := "vector"; sx_pdfData := Some bgPdf; sx_pngData := None;
            sx_reason := Some "frame background" |}]
  else ret [].

(** The segmented export of a hybrid frame: snapshot, [try], [catch],
    [finally]. *)
Definition exportLayered (pngFallbackScale : num) (info : frame_info)
    (frame : node) (st : option layer_stats) (segs : list segment) : M unit :=
  let nodes := collectAllNodes (Some frame) in
  sc <- get_scene ;;
  let state := captureNodeState sc nodes in
  let hasFrameBackground :=
    hasVisiblePaints (fills (sc (node_id frame))) ||
    hasVisiblePaints (strokes (sc (node_id frame))) in
  finally
    (try_catch
       (background <- export_background frame nodes state hasFrameBackground ;;
        segmentExports <- export_segments pngFallbackScale frame nodes state
                            segs background ;;
        push_result (segments_result info segmentExports st))
       (fun error =>
          push_result (failed_result info
                         ("Layered export failed: " +:+ error))))
    (modify_scene (restoreNodeState nodes state)).

(** An entry of [frameAnalysis]: either the skip record of a frame that
    could not be resolved, or the record of an analysed frame. *)
Inductive frame_analysis :=
| SkipFrame (frameInfo : frame_info) (why : string)
| AnalyzedFrame (frameInfo : frame_info) (frame : node)
                (layerAnalysis : layer_analysis) (dec : decision).

Definition is_raster_segment (seg : segment) : bool :=
  match seg_type seg with
  | raster => true
  | vector => false
  end.

(** Phase 1, one frame. *)
Definition analyzeFrame (frameInfo : frame_info) : frame_analysis :=
  match getNodeById (frame_id frameInfo) with
  | Some frame =>
      if String.eqb (node_type frame) "FRAME" then
        let layerAnalysis := analyzeFrameLayers frame 0 None in
        AnalyzedFrame frameInfo frame layerAnalysis
                      (determineExportStrategy [] (Some layerAnalysis))
      else SkipFrame frameInfo "Frame not found or invalid type"
  | None => SkipFrame frameInfo "Frame not found or invalid type"
  end.

(** Phase 2, one frame. *)
Definition exportFrame (pngFallbackScale : num) (analysis : frame_analysis)
  : M unit :=
  match analysis with
  | SkipFrame info why => push_result (failed_result info why)
  | AnalyzedFrame info frame layerAnalysis dec =>
      if Nat.ltb 0 (rasterLayers layerAnalysis) then
        if Nat.eqb (vectorLayers layerAnalysis) 0 then
          exportRaster pngFallbackScale info frame (stats dec)
        else
          sc <- get_scene ;;
          let segs := buildFrameSegments sc frame in
          if negb (existsb is_raster_segment segs) then
            exportVector pngFallbackScale info frame (stats dec)
          else
            exportLayered pngFallbackScale info frame (stats dec) segs
      else exportVector pngFallbackScale info frame (stats dec)
  end.

Fixpoint exportFrames (pngFallbackScale : num) (analyses : list frame_analysis)
  : M unit :=
  match analyses with
  | [] => ret tt
  | a :: rest =>
      exportFrame pngFallbackScale a ;;;
      exportFrames pngFallbackScale rest
  end.

(** [getByteLength] of an optional buffer. *)
Definition getByteLength (value : option bytes) : num :=
  match value with
  | Some data => num_lit (Z.of_nat (length data))
  | None => num_lit 0
  end.

Definition estimateExportBytes (r : export_result) : num :=
  let total := num_add (num_lit 0) (getByteLength (res_pdfData r)) in
  let total := num_add total (getByteLength (res_pngData r)) in
  match res_segments r with
  | Some segs =>
      fold_left (fun t seg =>
                   num_add (num_add t (getByteLength (sx_pdfData seg)))
                           (getByteLength (sx_pngData seg)))
                segs total
  | None => total
  end.

Definition chunk_step (st : packing export_result) (r : export_result)
  : packing export_result :=
  let size := estimateExportBytes r in
  if negb (is_empty (current st)) &&
     num_gt (num_add (currentSize st) size) MAX_CHUNK_BYTES
  then {| packed := packed st ++ [current st];
          current := [r];
          currentSize := size |}
  else {| packed := packed st;
          current := current st ++ [r];
          currentSize := num_add (currentSize st) size |}.

Definition planChunks (successfulExports : list export_result)
  : list (list export_result) :=
  let st := fold_left chunk_step successfulExports
              {| packed := []; current := []; currentSize := num_lit 0 |} in
  if negb (is_empty (current st)) then packed st ++ [current st] else packed st.

(** What is handed to the presentation side at the end. *)
Inductive handoff :=
| ErrorMessage (message : string)
| MergeVectorPdfs (pdfBuffers failedFrames : list export_result)
| MergeVectorPdfsChunked (chunks : list (list export_result))
                         (failedFrames : list export_result).

Definition performVectorExport (orderedFrames : list frame_info)
    (pngFallbackScale : num) (sc : scene) : handoff * world :=
  let frameAnalysis := List.map analyzeFrame orderedFrames in
  let w0 := {| w_scene := sc; w_trace := []; exportResults := [] |} in
  let w1 := snd (exportFrames pngFallbackScale frameAnalysis w0) in
  let successfulExports :=
    List.filter (fun r => negb (res_skipped r)) (exportResults w1) in
  let failedExports := List.filter res_skipped (exportResults w1) in
  match successfulExports with
  | [] => (ErrorMessage "No frames could be exported. Try using Rasterized mode.",
           w1)
  | _ :: _ =>
      let exportChunks := planChunks successfulExports in
      if Nat.leb (length exportChunks) 1
      then (MergeVectorPdfs successfulExports failedExports, w1)
      else (MergeVectorPdfsChunked exportChunks failedExports, w1)
  end.

End HostPrimitives.

(** ** Reference descriptions used in the statements *)

(** The subtree of a node in pre-order. *)
Fixpoint preorder (n : node) : list node :=
  match n with
  | Node _ _ _ _ _ _ _ _ _ _ _ _ cs => n :: flat_map preorder cs
  end.

(** The nodes on which [visit] gets past its visibility check. *)
Fixpoint visited (sc : scene) (n : node) : list node :=
  if negb (visible (sc (node_id n))) then []
  else if nodeNeedsRaster n then [n]
  else match n with
       | Node _ _ _ _ _ _ _ _ _ _ _ _ cs => n :: flat_map (visited sc) cs
       end.

(** The nodes a call of [visit] hands to the segments, in order. *)
Fixpoint planned (sc : scene) (n : node) : list node :=
  if negb (visible (sc (node_id n))) then []
  else if nodeNeedsRaster n then preorder n
  else (if nodeHasRenderableSelf sc n then [n] else []) ++
       match n with
       | Node _ _ _ _ _ _ _ _ _ _ _ _ cs => flat_map (planned sc) cs
       end.

(** All nodes of a list of segments, concatenated in order. *)
Definition segment_nodes (segs : list segment) : list node :=
  flat_map seg_nodes segs.

(** How many entries of a list of nodes are the node with a given id. *)
Definition occurrences (i : string) (l : list node) : nat :=
  length (List.filter (fun n => String.eqb (node_id n) i) l).




(** The summed estimate of a batch or chunk, accumulated the way the
    loops accumulate [currentBatchMemory] and [currentBytes]. *)
Definition summed (sizes : list num) : num :=
  fold_left num_add sizes (num_lit 0).

(** A batch or chunk within the budget, or a single item that alone
    exceeds it. *)
Definition within_budget {A} (size : A -> num) (limit : num) (group : list A)
  : Prop :=
  group <> [] /\
  (num_gt (summed (List.map size group)) limit = false \/
   exists item, group = [item] /\ num_gt (size item) limit = true).


(** An export call the host answered with a buffer. *)
Definition call_succeeded (c : export_call) : Prop :=
  exists data, call_outcome c = Exported data.

(** The calls a computation made, given the worlds before and after. *)
Definition calls_between (w w' : world) : list export_call :=
  skipn (length (w_trace w)) (w_trace w').

(** ** Auxiliary notions of the proofs *)

(** The ids of a list of nodes. *)
Abbreviation ids l := (node_id <$> l).

(** The nodes held by the planner: those of the finished segments, then
    the open vector run. *)
Definition raw (st : planner) : list node :=
  segment_nodes (segments st) ++ currentVectorNodes st.

(** What an isolation may have changed with respect to the scene [sc0] the
    snapshot was taken from: only nodes of the list, and never paints that
    were mixed or missing. *)
Definition isolated_from (sc0 : scene) (nodes : list node) (sc : scene) : Prop :=
  forall i,
    (i ∉ ids nodes -> sc i = sc0 i) /\
    (writable (fills (sc0 i)) = None -> fills (sc i) = fills (sc0 i)) /\
    (writable (strokes (sc0 i)) = None -> strokes (sc i) = strokes (sc0 i)).

(** The writable fields after [restore_node] has run on a node. *)
Definition restored_props (state : node_state) (i : string) (p : props) : props :=
  {| visible := match st_visibility state !! i with
                | Some v => v
                | None => visible p
                end;
     fills := match st_fills state !! i with
              | Some f => Some f
              | None => fills p
              end;
     strokes := match st_strokes state !! i with
                | Some k => Some k
                | None => strokes p
                end |}.

(** The counters only grow, and a layer is counted in exactly one of
    [vectorLayers] and [rasterLayers]. *)
Definition counts_extend (r r' : layer_analysis) : Prop :=
  totalLayers r <= totalLayers r' /\
  vectorLayers r <= vectorLayers r' /\
  rasterLayers r <= rasterLayers r' /\
  totalLayers r' - totalLayers r =
    (vectorLayers r' - vectorLayers r) + (rasterLayers r' - rasterLayers r).

Section Packing.
Variable A : Type.
Variable size : A -> num.
Variable limit : num.

(** The packing rule both loops follow. *)
Definition pack_step (st : packing A) (item : A) : packing A :=
  if negb (is_empty (current st)) &&
     num_gt (num_add (currentSize st) (size item)) limit
  then {| packed := packed st ++ [current st];
          current := [item];
          currentSize := size item |}
  else {| packed := packed st;
          current := current st ++ [item];
          currentSize := num_add (currentSize st) (size item) |}.

Definition pack_finish (st : packing A) : list (list A) :=
  if negb (is_empty (current st)) then packed st ++ [current st] else packed st.

Definition pack_start : packing A :=
  {| packed := []; current := []; currentSize := num_lit 0 |}.

(** What holds of the loop variables after any number of iterations. *)
Definition pack_invariant (done : list A) (st : packing A) : Prop :=
  concat (packed st) ++ current st = done /\
  Forall (within_budget size limit) (packed st) /\
  currentSize st = summed (List.map size (current st)) /\
  (current st = [] \/ within_budget size limit (current st)).

End Packing.

(** The frames of packed estimates. *)
Definition frames_of (st : packing frame_estimate) : packing frame_info :=
  {| packed := List.map (List.map est_frame) (packed st);
     current := List.map est_frame (current st);
     currentSize := currentSize st |}.

(** How a block of export calls ends: either every call succeeded, or the
    calls stop at the first one that threw. *)
Definition calls_shape {X} (c : completion X) (calls : list export_call) : Prop :=
  match c with
  | Normal _ => Forall call_succeeded calls
  | Thrown m => exists pre last, calls = pre ++ [last] /\
                  call_outcome last = ExportThrows m /\
                  Forall call_succeeded pre
  end.

End Model.

Arguments packed {_ A} _.
Arguments current {_ A} _.
Arguments currentSize {_ A} _.
Arguments Normal {A} _.
Arguments Thrown {A} _.

(** * Further reference notions *)

Section Coverage.
Context `{JSNumber}.

(** A visible effect of a must-rasterize kind. *)
Definition has_critical_effect (n : node) : bool :=
  has_effects n &&
  existsb (fun e => not_false (effect_visible e) &&
                    includes MUST_RASTERIZE_EFFECTS (effect_type e))
          (effects_of n).

(** A visible effect of a should-rasterize kind. *)
Definition has_shadow_effect (n : node) : bool :=
  has_effects n &&
  existsb (fun e => not_false (effect_visible e) &&
                    includes SHOULD_RASTERIZE_EFFECTS (effect_type e))
          (effects_of n).

(** What makes [analyzeFrameLayers] count a layer as raster. *)
Definition analysis_raster (n : node) : bool :=
  has_critical_effect n || has_problematic_blend n ||
  (node_isMask n && has_effects n).

(** The nodes of a subtree that are counted as layers, in pre-order. *)
Definition layers_of (root : node) : list node :=
  List.filter is_layer (preorder root).

(** The writable fields [applySegmentState] leaves on a node of its list
    whose fields were [p]. *)
Definition isolation_of (renderSet showSet : gset string) (state : node_state)
    (i : string) (p : props) : props :=
  {| visible := match st_visibility state !! i with
                | Some false => false
                | _ => true
                end && bool_decide (i ∈ showSet);
     fills := match writable (fills p) with
              | Some _ =>
                  if bool_decide (i ∈ renderSet) then
                    match st_fills state !! i with
                    | Some f => Some f
                    | None => fills p
                    end
                  else Some (PaintArray [])
              | None => fills p
              end;
     strokes := match writable (strokes p) with
                | Some _ =>
                    if bool_decide (i ∈ renderSet) then
                      match st_strokes state !! i with
                      | Some f => Some f
                      | None => strokes p
                      end
                    else Some (PaintArray [])
                | None => strokes p
                end |}.

(** A node id is shown by a segment: it is the id of a segment node or
    of one of its ancestors up to the frame. *)
Definition shown_by (frame : node) (segmentNodes : list node) (i : string)
  : Prop :=
  exists n, n ∈ segmentNodes /\
    (i = node_id n \/ i ∈ parent_id <$> getAncestorChain n (Some frame)).

(** An entry of [exportResults] carries the identity of its frame. *)
Definition entry_of (info : frame_info) (entry : export_result) : Prop :=
  res_id entry = frame_id info /\ res_name entry = frame_name info /\
  res_width entry = frame_width info /\ res_height entry = frame_height info.

(** A failure marker: skipped, with an error and no buffer at all. *)
Definition is_failure_marker (entry : export_result) : Prop :=
  res_skipped entry = true /\ res_error entry <> None /\
  res_pdfData entry = None /\ res_pngData entry = None /\
  res_segments entry = None.

(** A successful entry: not skipped, without error, with one buffer or a
    list of segment buffers. *)
Definition is_success_entry (entry : export_result) : Prop :=
  res_skipped entry = false /\ res_error entry = None /\
  (res_pdfData entry <> None \/ res_pngData entry <> None \/
   res_segments entry <> None).

(** The frame information an entry of [frameAnalysis] was made for. *)
Definition analysis_info (a : frame_analysis) : frame_info :=
  match a with
  | SkipFrame info _ => info
  | AnalyzedFrame info _ _ _ => info
  end.

(** The export format a planned segment is exported in. *)
Definition segment_format (pngFallbackScale : num) (seg : segment)
  : export_format :=
  match seg_type seg with
  | raster => PNG pngFallbackScale
  | vector => PDF
  end.

(** The value of the [type] key of the buffer of a planned segment. *)
Definition segment_buffer_type (seg : segment) : string :=
  match seg_type seg with
  | raster => "png"
  | vector => "vector"
  end.

(** * The tracked lists, the scan for connections and the raster export *)

(** ** Frame selection and ordering *)

(** [arr.filter(Boolean)] after a [map] whose results may be undefined. *)
Fixpoint compact {A} (l : list (option A)) : list A :=
  match l with
  | [] => []
  | Some a :: rest => a :: compact rest
  | None :: rest => compact rest
  end.

(** [frames.find(f => f.id === id)] *)
Definition find_frame (frames : list frame_info) (i : string)
  : option frame_info :=
  List.find (fun f => String.eqb (frame_id f) i) frames.

(** The first two statements of [exportToPDF]:
    [frameData.filter(frame => selectedFrameIds.includes(frame.id))], then
    [frameOrder.map(id => selectedFrames.find(...)).filter(Boolean)].  The
    'export-batch' handler does the same with [batch.frameIds] in both
    places. *)
Definition orderedFramesOf (frameData : list frame_info)
    (frameOrder selectedFrameIds : list string) : list frame_info :=
  let selectedFrames :=
    List.filter (fun f => includes selectedFrameIds (frame_id f)) frameData in
  compact (List.map (find_frame selectedFrames) frameOrder).

(** ** Connections *)

Record connection := {
  fromFrameId : string;
  toFrameId : option string;
  toUrl : option string;
  elementBounds : rect;
  elementName : string;
  conn_type : string
}.

(** The filter of [performExport] and [performVectorExport]: the origin
    is among the given frame ids, and the connection is external or its
    destination is among them too. *)
Definition relevantConnections (frameIds : list string)
    (connections : list connection) : list connection :=
  List.filter
    (fun conn =>
       includes frameIds (fromFrameId conn) &&
       (String.eqb (conn_type conn) "external" ||
        match toFrameId conn with
        | Some t => includes frameIds t
        | None => false
        end))
    connections.

(** ** What the scan reads on a node besides the fields of [node] *)

Record action := {
  action_type : string;
  action_destinationId : option string;
  action_url : option string
}.

Record reaction := {
  reaction_action : option action
}.

Record hyperlink := {
  hyperlink_type : string;
  hyperlink_value : option string
}.

(** An entry of [node.getStyledTextSegments(['hyperlink'])]. *)
Record text_segment := {
  segment_characters : option string;
  segment_start : nat;
  segment_end : nat;
  segment_hyperlink : option hyperlink
}.

Inductive styled_outcome :=
| StyledSegments (segments : list text_segment)
| StyledThrows (message : string).

(** [reactions], [characters], [getStyledTextSegments] (missing, or what
    calling it does) and [hyperlink] of a node. *)
Record node_links := {
  link_reactions : option (list reaction);
  link_characters : option string;
  link_styled : option styled_outcome;
  link_hyperlink : option hyperlink
}.

(** Truthiness of an optional string: present and not empty. *)
Definition truthy_string (s : option string) : option string :=
  match s with
  | Some v => if String.eqb v "" then None else Some v
  | None => None
  end.

(** [s.length > 20] *)
Definition longer_than_20 (s : string) : bool := Nat.ltb 20 (String.length s).

(** The message [frames-updated] state of the plugin: the two global
    lists. *)
Record tracker := {
  frameData : list frame_info;
  connections : list connection
}.

(** The raster hand-over: the [generate-pdf] message. *)
Record frame_image := {
  img_id : string;
  img_name : string;
  img_width : num;
  img_height : num;
  imageData : bytes
}.

Record generate_pdf := {
  gp_frames : list frame_image;
  gp_connections : list connection;
  gp_frameOrder : list string;
  gp_quality : string;
  gp_batchInfo : option (nat * nat)
}.

(** The [png-fallback-result] message. *)
Record png_fallback_result := {
  fb_frameId : string;
  fb_frameIndex : nat;
  fb_success : bool;
  fb_pngData : option bytes;
  fb_width : option num;
  fb_height : option num;
  fb_name : option string;
  fb_error : option string
}.

Section Plugin.

(** The host: its export primitive, its node lookup, and what it shows of
    a node beyond the fields of [node]. *)
Variable host : nat -> scene -> node -> export_format -> export_outcome.
Variable getNodeById : string -> option node.
Variable links : node -> node_links.
Variable parent_name : parent_ref -> string.

(** What a missing width or height reads as.  The nodes of a selection
    are frames, which have both. *)
Variable missing_number : num.

(** The estimate [scaledWidth * scaledHeight * BYTES_PER_PIXEL *
    PNG_COMPRESSION_ESTIMATE] of a frame at a quality scale; the
    arithmetic is outside the interface of [num]. *)
Variable estimateBytes : frame_info -> num -> num.

(** [node.name || 'Unnamed element'] *)
Definition name_or (n : node) (fallback : string) : string :=
  if String.eqb (node_name n) "" then fallback else node_name n.

Definition internal_connection (frameId dest : string) (bounds : rect)
    (name : string) : connection :=
  {| fromFrameId := frameId; toFrameId := Some dest; toUrl := None;
     elementBounds := bounds; elementName := name; conn_type := "internal" |}.

Definition external_connection (frameId url : string) (bounds : rect)
    (name : string) : connection :=
  {| fromFrameId := frameId; toFrameId := None; toUrl := Some url;
     elementBounds := bounds; elementName := name; conn_type := "external" |}.

(** [destinationNode && destinationNode.type === 'FRAME'] *)
Definition resolves_to_frame (i : string) : bool :=
  match getNodeById i with
  | Some dest => String.eqb (node_type dest) "FRAME"
  | None => false
  end.

(** One iteration of [for (const reaction of node.reactions)]. *)
Definition scan_reaction (n : node) (frameId : string)
    (conns : list connection) (r : reaction) : list connection :=
  match reaction_action r with
  | Some a =>
      match (if String.eqb (action_type a) "NODE"
             then truthy_string (action_destinationId a) else None) with
      | Some dest =>
          if resolves_to_frame dest then
            conns ++ [internal_connection frameId dest
                        (getAbsoluteBounds n frameId)
                        (name_or n "Unnamed element")]
          else conns
      | None =>
          match (if String.eqb (action_type a) "URL"
                 then truthy_string (action_url a) else None) with
          | Some url =>
              conns ++ [external_connection frameId url
                          (getAbsoluteBounds n frameId)
                          (name_or n "Unnamed element")]
          | None => conns
          end
      end
  | None => conns
  end.

(** ['Text Link: "' + (segment.characters ? ... : 'unknown') + '"'] *)
Definition segment_link_name (seg : text_segment) : string :=
  "Text Link: " +:+ double_quote +:+
  match truthy_string (segment_characters seg) with
  | Some c => String.substring 0 20 c
  | None => "unknown"
  end +:+ double_quote.

(** ['Text: "' + ... + (characters.length > 20 ? '...' : '') + '"'] *)
Definition text_link_name (n : node) : string :=
  "Text: " +:+ double_quote +:+
  match truthy_string (link_characters (links n)) with
  | Some c => String.substring 0 20 c +:+
              (if longer_than_20 c then "..." else "")
  | None => "unknown"
  end +:+ double_quote.

(** [segment.hyperlink && segment.hyperlink.value] *)
Definition segment_link (seg : text_segment) : option (hyperlink * string) :=
  match segment_hyperlink seg with
  | Some h => match truthy_string (hyperlink_value h) with
              | Some v => Some (h, v)
              | None => None
              end
  | None => None
  end.

(** One iteration of the loop over the styled segments; the boolean is
    [hasSegmentHyperlinks]. *)
Definition scan_segment (n : node) (frameId : string)
    (acc : bool * list connection) (seg : text_segment)
  : bool * list connection :=
  match segment_link seg with
  | Some (h, v) =>
      let boundsList :=
        getTextRangeBounds n frameId (segment_start seg) (segment_end seg) in
      let name := name_or n (segment_link_name seg) in
      if String.eqb (hyperlink_type h) "URL" then
        (true, snd acc ++
               List.map (fun b => external_connection frameId v b name)
                        boundsList)
      else if String.eqb (hyperlink_type h) "NODE" then
        if resolves_to_frame v then
          (true, snd acc ++
                 List.map (fun b => internal_connection frameId v b name)
                          boundsList)
        else (true, snd acc)
      else (true, snd acc)
  | None => acc
  end.

(** The [try] block around the styled segments. *)
Definition scan_styled (n : node) (frameId : string) (conns : list connection)
  : bool * list connection :=
  match link_styled (links n) with
  | Some (StyledSegments segments) =>
      fold_left (scan_segment n frameId) segments (false, conns)
  | Some (StyledThrows _) => (false, conns)
  | None => (false, conns)
  end.

(** "Check for simple hyperlink property (only when no segment
    hyperlinks)". *)
Definition scan_simple_hyperlink (n : node) (frameId : string)
    (conns : list connection) : list connection :=
  match link_hyperlink (links n) with
  | Some h =>
      let bounds := getAbsoluteBounds n frameId in
      let name := name_or n (text_link_name n) in
      match truthy_string (hyperlink_value h) with
      | Some v =>
          if String.eqb (hyperlink_type h) "URL" then
            conns ++ [external_connection frameId v bounds name]
          else if String.eqb (hyperlink_type h) "NODE" then
            if resolves_to_frame v then
              conns ++ [internal_connection frameId v bounds name]
            else conns
          else conns
      | None => conns
      end
  | None => conns
  end.

(** What [scanNodeForConnections] does on the node itself. *)
Definition scan_self (n : node) (frameId : string) (conns : list connection)
  : list connection :=
  let conns1 :=
    match link_reactions (links n) with
    | Some reactions => fold_left (scan_reaction n frameId) reactions conns
    | None => conns
    end in
  if String.eqb (node_type n) "TEXT" then
    let styled := scan_styled n frameId conns1 in
    if fst styled then snd styled
    else scan_simple_hyperlink n frameId (snd styled)
  else conns1.

(** [scanNodeForConnections(node, frameId, depth)], on the global list
    [connections]; [depth] only indents the log. *)
Fixpoint scanNodeForConnections (n : node) (frameId : string)
    (conns : list connection) : list connection :=
  let conns1 := scan_self n frameId conns in
  match n with
  | Node _ _ _ _ _ _ _ _ _ _ _ _ cs =>
      fold_left (fun acc c => scanNodeForConnections c frameId acc) cs conns1
  end.

Definition number_of (v : option num) : num :=
  match v with
  | Some a => a
  | None => missing_number
  end.

(** One iteration of the loop of [autoAddSelectedFrames]; the list of
    strings is [newFramesAdded]. *)
Definition add_frame (acc : tracker * list string) (frame : node)
  : tracker * list string :=
  let tr := fst acc in
  match find_frame (frameData tr) (node_id frame) with
  | Some _ => acc
  | None =>
      let newFrame :=
        {| frame_id := node_id frame; frame_name := node_name frame;
           frame_width := number_of (node_width frame);
           frame_height := number_of (node_height frame);
           frame_parent := match node_parent frame with
                           | Some p => parent_name p
                           | None => "Page"
                           end |} in
      ({| frameData := frameData tr ++ [newFrame];
          connections :=
            scanNodeForConnections frame (node_id frame) (connections tr) |},
       snd acc ++ [node_id frame])
  end.

(** The new lists and the [justAdded] of the [frames-updated] message. *)
Definition autoAddSelectedFrames (selectedFrames : list node) (tr : tracker)
  : tracker * list string :=
  fold_left add_frame selectedFrames (tr, []).



(** The loop of [performExport]. *)
Fixpoint export_images (qualityScale : num) (frames : list frame_info)
    (frameImages : list frame_image) : M (list frame_image) :=
  match frames with
  | [] => ret frameImages
  | frameInfo :: rest =>
      match getNodeById (frame_id frameInfo) with
      | Some frame =>
          if String.eqb (node_type frame) "FRAME" then
            bind (exportAsync host frame (PNG qualityScale))
              (fun imageData =>
                 export_images qualityScale rest
                   (frameImages ++
                    [{| img_id := frame_id frameInfo;
                        img_name := frame_name frameInfo;
                        img_width := frame_width frameInfo;
                        img_height := frame_height frameInfo;
                        imageData := imageData |}]))
          else export_images qualityScale rest frameImages
      | None => export_images qualityScale rest frameImages
      end
  end.

(** [performExport]: the message it posts, unless an export throws. *)
Definition performExport (conns : list connection)
    (orderedFrames : list frame_info) (frameOrder selectedFrameIds : list string)
    (qualityScale : num) (qualityString : string)
    (batchInfo : option (nat * nat)) : M generate_pdf :=
  bind (export_images qualityScale orderedFrames [])
    (fun frameImages =>
       ret {| gp_frames := frameImages;
              gp_connections := relevantConnections selectedFrameIds conns;
              gp_frameOrder := frameOrder;
              gp_quality := qualityString;
              gp_batchInfo := batchInfo |}).

(** [handlePngFallbackRequest]: the message it posts. *)
Definition handlePngFallbackRequest (frameId : string) (frameIndex : nat)
    (qualityScale : num) : M png_fallback_result :=
  let failure why :=
    {| fb_frameId := frameId; fb_frameIndex := frameIndex;
       fb_success := false; fb_pngData := None; fb_width := None;
       fb_height := None; fb_name := None; fb_error := Some why |} in
  match getNodeById frameId with
  | Some frame =>
      if String.eqb (node_type frame) "FRAME" then
        try_catch
          (bind (exportAsync host frame (PNG qualityScale))
             (fun pngData =>
                ret {| fb_frameId := frameId; fb_frameIndex := frameIndex;
                       fb_success := true; fb_pngData := Some pngData;
                       fb_width := node_width frame;
                       fb_height := node_height frame;
                       fb_name := Some (node_name frame);
                       fb_error := None |}))
          (fun error => ret (failure error))
      else ret (failure "Frame not found")
  | None => ret (failure "Frame not found")
  end.

(** What [exportToPDF] ends with. *)
Inductive export_outcome_message :=
| VectorHandoff (h : handoff)
| BatchWarning (batches : list (list frame_info))
| GeneratePdf (message : generate_pdf)
| ErrorPosted (message : string).

(** [exportToPDF] on the scene [sc]; the scene it leaves and the export
    calls it made are those of the world it returns. *)
Definition exportToPDF (tr : tracker) (frameOrder selectedFrameIds : list string)
    (qualityScale : num) (qualityString exportType : string) (sc : scene)
  : export_outcome_message * world :=
  let w0 := {| w_scene := sc; w_trace := []; exportResults := [] |} in
  let orderedFrames :=
    orderedFramesOf (frameData tr) frameOrder selectedFrameIds in
  if String.eqb exportType "vector" then
    let run := performVectorExport host getNodeById orderedFrames qualityScale
                 sc in
    (VectorHandoff (fst run), snd run)
  else
    let frameMemoryEstimates :=
      List.map (fun f => {| est_frame := f;
                            estimatedBytes := estimateBytes f qualityScale |})
               orderedFrames in
    match batchPlan frameMemoryEstimates with
    | Some batches => (BatchWarning batches, w0)
    | None =>
        match performExport (connections tr) orderedFrames frameOrder
                selectedFrameIds qualityScale qualityString None w0 with
        | (Normal message, w') => (GeneratePdf message, w')
        | (Thrown m, w') =>
            (ErrorPosted ("Failed to export frames: " +:+ m), w')
        end
    end.

(** The 'export-batch' message: [batch.frameIds] selects and orders the
    frames; nothing catches what the export throws. *)
Definition exportBatch (tr : tracker) (frameIds : list string)
    (qualityScale : num) (qualityString : string)
    (batchNumber totalBatches : nat) (sc : scene)
  : completion generate_pdf * world :=
  performExport (connections tr)
    (orderedFramesOf (frameData tr) frameIds frameIds) frameIds frameIds
    qualityScale qualityString (Some (batchNumber, totalBatches))
    {| w_scene := sc; w_trace := []; exportResults := [] |}.

End Plugin.

(** ** Reference notions for the tracked lists and the raster export *)

(** A connection as the scan for [frameId] records it: an internal one
    names a destination that resolves to a frame, an external one a URL. *)
Definition well_formed_connection (getNodeById : string -> option node)
    (frameId : string) (c : connection) : Prop :=
  fromFrameId c = frameId /\
  ((conn_type c = "internal" /\ toUrl c = None /\
    exists d, toFrameId c = Some d /\ d <> "" /\
              resolves_to_frame getNodeById d = true) \/
   (conn_type c = "external" /\ toFrameId c = None /\
    exists u, toUrl c = Some u /\ u <> "")).




(** "Initialize - start with empty list". *)
Definition initial_tracker : tracker := {| frameData := []; connections := [] |}.

(** The image of a frame carries the tracked id, name and size. *)
Definition image_of (f : frame_info) (img : frame_image) : Prop :=
  img_id img = frame_id f /\ img_name img = frame_name f /\
  img_width img = frame_width f /\ img_height img = frame_height f.

(** A step of the scan that only appends well-formed connections, the
    same ones whatever the list holds. *)
Definition appends (getNodeById : string -> option node) (frameId : string)
    (F : list connection -> list connection) : Prop :=
  exists new, (forall conns, F conns = conns ++ new) /\
              Forall (well_formed_connection getNodeById frameId) new.

(** ** Reference notions for the planned segments *)

(** Two consecutive segments that are both vector. *)
Fixpoint adjacent_vectors (l : list segment) : bool :=
  match l with
  | [] => false
  | a :: rest =>
      match rest with
      | b :: _ => negb (is_raster_segment a) && negb (is_raster_segment b)
      | [] => false
      end || adjacent_vectors rest
  end.

(** The last segment is a vector one. *)
Definition ends_with_vector (l : list segment) : bool :=
  match rev l with
  | s :: _ => negb (is_raster_segment s)
  | [] => false
  end.

(** A node the planner may put into a vector segment. *)
Definition vector_node (sc : scene) (inside : list node) (n : node) : Prop :=
  n ∈ inside /\ visible (sc (node_id n)) = true /\
  nodeNeedsRaster n = false /\ nodeHasRenderableSelf sc n = true.

(** A segment as the planner makes them: a raster segment is the whole
    subtree of a visible node that needs raster, a vector segment holds
    visible nodes with content of their own that do not need raster. *)
Definition well_planned (sc : scene) (inside : list node) (s : segment) : Prop :=
  match seg_type s with
  | raster =>
      exists n, n ∈ inside /\ visible (sc (node_id n)) = true /\
                nodeNeedsRaster n = true /\
                seg_nodes s = n :: flat_map preorder (node_children n)
  | vector => Forall (vector_node sc inside) (seg_nodes s)
  end.

(** What the visits keep true of the two variables of the planner. *)
Definition planner_invariant (sc : scene) (inside : list node) (st : planner)
  : Prop :=
  Forall (fun s => seg_nodes s <> [] /\ well_planned sc inside s) (segments st) /\
  adjacent_vectors (segments st) = false /\
  ends_with_vector (segments st) = false /\
  Forall (vector_node sc inside) (currentVectorNodes st).

End Coverage.

(** * Concrete scenes

    Nodes, scenes and hosts over integer numbers, used to run the model. *)

Definition make_node (i t : string) (effs : option (list effect))
    (blend : option string) (mask : bool) (cs : list (@node ZNumber))
  : @node ZNumber :=
  {| node_id := i; node_type := t; node_name := i;
     node_x := Some 0%Z; node_y := Some 0%Z;
     node_width := Some 100%Z; node_height := Some 50%Z;
     node_parent := None;
     node_effects := effs; node_blendMode := blend; node_isMask := mask;
     node_getRangeBounds := None;
     node_children := cs |}.

Definition solid_paint : paint :=
  {| paint_visible := Some true; paint_color := 0 |}.

(** Every node visible, with one visible fill and no stroke. *)
Definition demo_scene : scene :=
  fun _ => {| visible := true;
              fills := Some (PaintArray [Some solid_paint]);
              strokes := Some (PaintArray []) |}.

(** The drop-shadow scenario: a frame with a shadowed rectangle and a
    plain one. *)
Definition demo_shadow : node :=
  make_node "1:2" "RECTANGLE"
    (Some [{| effect_type := "DROP_SHADOW"; effect_visible := Some true |}])
    (Some "NORMAL") false [].

Definition demo_plain : node :=
  make_node "1:3" "RECTANGLE" (Some []) (Some "NORMAL") false [].

Definition demo_frame : node :=
  make_node "1:1" "FRAME" (Some []) (Some "PASS_THROUGH") false
    [demo_shadow; demo_plain].




(** A hybrid frame: a blurred rectangle and a text. *)
Definition blur_child : node :=
  make_node "2:2" "RECTANGLE"
    (Some [{| effect_type := "LAYER_BLUR"; effect_visible := Some true |}])
    (Some "NORMAL") false [].

Definition text_child : node :=
  make_node "2:3" "TEXT" (Some []) (Some "NORMAL") false [].

Definition hybrid_frame : node :=
  make_node "2:1" "FRAME" (Some []) (Some "PASS_THROUGH") false
    [blur_child; text_child].

Definition demo_info (i : string) : @frame_info ZNumber :=
  {| frame_id := i; frame_name := "Cover"; frame_width := 800%Z;
     frame_height := 600%Z; frame_parent := "Page" |}.

(** The scale of the PNG fallback. *)
Definition demo_scale : @num ZNumber := 2%Z.

Definition demo_world : world :=
  {| w_scene := demo_scene; w_trace := []; exportResults := [] |}.

(** A host whose second export call runs out of memory. *)
Definition second_call_fails (k : nat) (sc : scene) (n : @node ZNumber)
    (fmt : export_format) : export_outcome :=
  if Nat.eqb k 1 then ExportThrows "out of memory"
  else Exported [x25; x50; x44; x46].

(** A host on which both formats fail, each with its own message. *)
Definition both_formats_fail (k : nat) (sc : scene) (n : @node ZNumber)
    (fmt : export_format) : export_outcome :=
  match fmt with
  | PDF => ExportThrows "vector boom"
  | PNG _ => ExportThrows "raster boom"
  end.

(** A host that exports four bytes whatever it is asked. *)
Definition always_exports (k : nat) (sc : scene) (n : @node ZNumber)
    (fmt : export_format) : export_outcome :=
  Exported [x25; x50; x44; x46].

(** The document: the two frames, by id. *)
Definition demo_lookup (i : string) : option (@node ZNumber) :=
  if String.eqb i "1:1" then Some demo_frame
  else if String.eqb i "2:1" then Some hybrid_frame
  else None.


(** A small buffer that starts with the signature and ends with the end
    marker. *)
Definition demo_pdf : bytes :=
  list_byte_of_string "%PDF-1.7" ++ [x0a] ++
  list_byte_of_string "1 0 obj << /Type /Catalog /Pages 2 0 R >> endobj" ++ [x0a] ++
  list_byte_of_string "2 0 obj << /Type /Pages /Kids [] /Count 0 >> endobj" ++ [x0a] ++
  list_byte_of_string "trailer << /Root 1 0 R >>" ++ [x0a] ++
  list_byte_of_string "%%EOF".

(** Three frames estimated at 167MB each. *)
Definition three_frames : list (@frame_estimate ZNumber) :=
  [{| est_frame := demo_info "5:1"; estimatedBytes := (167 * 1024 * 1024)%Z |};
   {| est_frame := demo_info "5:2"; estimatedBytes := (167 * 1024 * 1024)%Z |};
   {| est_frame := demo_info "5:3"; estimatedBytes := (167 * 1024 * 1024)%Z |}].

(** The tracked lists of a session: the two frames of the document, a
    frame that was deleted since, and three connections. *)
Definition demo_link_bounds : @rect ZNumber :=
  {| rect_x := 0%Z; rect_y := 0%Z; rect_width := 100%Z; rect_height := 50%Z |}.

Definition demo_tracker : @tracker ZNumber :=
  {| frameData := [demo_info "1:1"; demo_info "2:1"; demo_info "9:9"];
     connections :=
       [internal_connection "1:1" "2:1" demo_link_bounds "Next";
        internal_connection "2:1" "9:9" demo_link_bounds "Gone";
        external_connection "2:1" "https://example.org" demo_link_bounds
          "Site"] |}.

(** An estimate of four bytes per scaled pixel. *)
Definition demo_estimate (f : @frame_info ZNumber) (s : @num ZNumber)
  : @num ZNumber :=
  (frame_width f * s * (frame_height f * s) * 4)%Z.

(** The text of the hybrid frame has a prototype link to the frame 1:1
    and a styled segment that links to a site; nothing else links. *)
Definition demo_links (n : @node ZNumber) : node_links :=
  if String.eqb (node_id n) "2:3" then
    {| link_reactions :=
         Some [{| reaction_action :=
                    Some {| action_type := "NODE";
                            action_destinationId := Some "1:1";
                            action_url := None |} |};
               {| reaction_action :=
                    Some {| action_type := "NODE";
                            action_destinationId := Some "2:2";
                            action_url := None |} |}];
       link_characters := Some "Read more";
       link_styled :=
         Some (StyledSegments
                 [{| segment_characters := Some "Read ";
                     segment_start := 0; segment_end := 5;
                     segment_hyperlink := None |};
                  {| segment_characters := Some "more";
                     segment_start := 5; segment_end := 9;
                     segment_hyperlink :=
                       Some {| hyperlink_type := "URL";
                               hyperlink_value :=
                                 Some "https://example.org" |} |}]);
       link_hyperlink :=
         Some {| hyperlink_type := "URL";
                 hyperlink_value := Some "https://ignored.example" |} |}
  else
    {| link_reactions := None; link_characters := None; link_styled := None;
       link_hyperlink := None |}.

Definition demo_parent_name (p : @parent_ref ZNumber) : string := "Page 1".

(** * Properties *)

Section Properties.
Context `{JSNumber}.

Abbreviation ids l := (node_id <$> l).

(** ** Induction over node trees *)

Lemma node_children_ind (P : node -> Prop) :
  (forall n, Forall P (node_children n) -> P n) -> forall n, P n.
Proof.
  intros step.
  exact (fix go (n : node) : P n :=
           match n as m return P m with
           | Node i t nm x y w h p e b k q cs =>
               step (Node i t nm x y w h p e b k q cs)
                    ((fix all (l : list node) : Forall P l :=
                        match l with
                        | [] => @List.Forall_nil node P
                        | c :: rest =>
                            @List.Forall_cons node P c rest (go c) (all rest)
                        end) cs)
           end).
Qed.

Lemma preorder_unfold n :
  preorder n = n :: flat_map preorder (node_children n).
Proof. destruct n; reflexivity. Qed.

Lemma tree_size_unfold n :
  tree_size n = S (list_sum (List.map tree_size (node_children n))).
Proof. destruct n; reflexivity. Qed.

(** ** The collecting loop computes the pre-order *)

Lemma push_children_app current stack :
  push_children current stack = node_children current ++ stack.
Proof.
  unfold push_children.
  generalize (node_children current) as cs. intros cs.
  rewrite <- (rev_involutive cs) at 2.
  generalize (rev cs) as r. clear cs. intros r. revert stack.
  induction r as [|c r IH]; intros stack; simpl.
  - reflexivity.
  - rewrite IH. rewrite <- app_assoc. reflexivity.
Qed.

Lemma collect_loop_preorder fuel : forall stack nodes,
  list_sum (List.map tree_size stack) <= fuel ->
  collect_loop fuel stack nodes = nodes ++ flat_map preorder stack.
Proof.
  induction fuel as [|fuel IH]; intros stack nodes Hfuel.
  - destruct stack as [|c rest]; simpl in *.
    + rewrite app_nil_r. reflexivity.
    + rewrite tree_size_unfold in Hfuel. lia.
  - destruct stack as [|c rest]; simpl.
    + rewrite app_nil_r. reflexivity.
    + rewrite IH.
      * rewrite push_children_app, flat_map_app, (preorder_unfold c).
        rewrite <- !app_assoc. reflexivity.
      * rewrite push_children_app, map_app, list_sum_app.
        simpl in Hfuel. rewrite tree_size_unfold in Hfuel. lia.
Qed.

Lemma collectSubtreeNodes_preorder n : collectSubtreeNodes n = preorder n.
Proof.
  unfold collectSubtreeNodes. rewrite collect_loop_preorder.
  - simpl. rewrite app_nil_r. reflexivity.
  - simpl. lia.
Qed.

Lemma collectAllNodes_preorder n : collectAllNodes (Some n) = preorder n.
Proof. exact (collectSubtreeNodes_preorder n). Qed.

(** More fuel than the size of the subtree changes nothing: the loop has
    stopped on an empty stack. *)
Lemma collect_loop_total n extra :
  collect_loop (tree_size n + extra) [n] [] = collectSubtreeNodes n.
Proof.
  rewrite collectSubtreeNodes_preorder, collect_loop_preorder.
  - simpl. rewrite app_nil_r. reflexivity.
  - simpl. lia.
Qed.

(** ** Segment planner *)

Lemma visit_unfold sc n st :
  visit sc n st =
  if negb (visible (sc (node_id n))) then st
  else if nodeNeedsRaster n then
    {| segments := segments (flushVector st) ++
                   [{| seg_type := raster; seg_nodes := collectSubtreeNodes n |}];
       currentVectorNodes := currentVectorNodes (flushVector st) |}
  else
    fold_left (fun s c => visit sc c s) (node_children n)
      (if nodeHasRenderableSelf sc n
       then {| segments := segments st;
               currentVectorNodes := currentVectorNodes st ++ [n] |}
       else st).
Proof. destruct n; reflexivity. Qed.

Lemma visited_unfold sc n :
  visited sc n =
  if negb (visible (sc (node_id n))) then []
  else if nodeNeedsRaster n then [n]
  else n :: flat_map (visited sc) (node_children n).
Proof. destruct n; reflexivity. Qed.

Lemma planned_unfold sc n :
  planned sc n =
  if negb (visible (sc (node_id n))) then []
  else if nodeNeedsRaster n then preorder n
  else (if nodeHasRenderableSelf sc n then [n] else []) ++
       flat_map (planned sc) (node_children n).
Proof. destruct n; reflexivity. Qed.

Lemma segment_nodes_app a b :
  segment_nodes (a ++ b) = segment_nodes a ++ segment_nodes b.
Proof. apply flat_map_app. Qed.

Lemma includes_elem_of l s : includes l s = true <-> s ∈ l.
Proof.
  unfold includes. rewrite existsb_exists, list_elem_of_In. split.
  - intros (x & Hin & Heq). apply String.eqb_eq in Heq. subst. exact Hin.
  - intros Hin. exists s. split; [exact Hin | apply String.eqb_refl].
Qed.

Lemma includes_false l s : includes l s = false <-> s ∉ l.
Proof.
  rewrite <- includes_elem_of. destruct (includes l s); split; intros Hx; try done.
Qed.

(** Without repeated ids the [Set] round trip returns the array itself. *)
Lemma unique_nodes_from_NoDup l : forall seen,
  NoDup (ids l) ->
  (forall i, i ∈ ids l -> i ∉ seen) ->
  unique_nodes_from seen l = l.
Proof.
  induction l as [|n l IH]; intros seen Hnd Hfresh; simpl.
  - reflexivity.
  - rewrite fmap_cons in Hnd. apply NoDup_cons in Hnd as [Hn Hnd].
    assert (Hf : includes seen (node_id n) = false).
    { apply includes_false, Hfresh. rewrite fmap_cons. left. }
    rewrite Hf. f_equal. apply IH; [exact Hnd |].
    intros i Hi. rewrite not_elem_of_cons. split.
    + intros ->. contradiction.
    + apply Hfresh. rewrite fmap_cons. right. exact Hi.
Qed.

Lemma unique_nodes_NoDup l : NoDup (ids l) -> unique_nodes l = l.
Proof.
  intros Hnd. apply unique_nodes_from_NoDup; [exact Hnd |].
  intros i _. apply not_elem_of_nil.
Qed.

Lemma flushVector_raw st :
  NoDup (ids (currentVectorNodes st)) ->
  segment_nodes (segments (flushVector st)) = raw st /\
  currentVectorNodes (flushVector st) = [].
Proof.
  intros Hnd. unfold flushVector, raw.
  destruct (currentVectorNodes st) as [|n l] eqn:Hcur.
  - rewrite Hcur, app_nil_r. split; reflexivity.
  - rewrite (unique_nodes_NoDup _ Hnd). cbn [segments currentVectorNodes].
    rewrite segment_nodes_app. unfold segment_nodes at 2. simpl.
    rewrite !app_nil_r. split; reflexivity.
Qed.

Lemma NoDup_ids_app_l (a b : list node) : NoDup (ids (a ++ b)) -> NoDup (ids a).
Proof. rewrite fmap_app. intros Hnd. apply NoDup_app in Hnd. tauto. Qed.

Lemma NoDup_ids_app_r (a b : list node) : NoDup (ids (a ++ b)) -> NoDup (ids b).
Proof. rewrite fmap_app. intros Hnd. apply NoDup_app in Hnd. tauto. Qed.

Lemma NoDup_ids_sublist (a b : list node) :
  a `sublist_of` b -> NoDup (ids b) -> NoDup (ids a).
Proof.
  intros Hsub Hnd. eapply sublist_NoDup; [exact Hnd |].
  apply fmap_sublist. exact Hsub.
Qed.

Lemma fold_visit_raw sc cs :
  Forall (fun c => forall st, NoDup (ids (raw st ++ planned sc c)) ->
                   raw (visit sc c st) = raw st ++ planned sc c) cs ->
  forall st, NoDup (ids (raw st ++ flat_map (planned sc) cs)) ->
  raw (fold_left (fun s c => visit sc c s) cs st) =
  raw st ++ flat_map (planned sc) cs.
Proof.
  induction 1 as [|c cs Hc _ IH]; intros st Hnd; simpl.
  - rewrite app_nil_r. reflexivity.
  - simpl in Hnd. rewrite app_assoc in Hnd.
    assert (Hhead : NoDup (ids (raw st ++ planned sc c))).
    { eapply NoDup_ids_app_l. exact Hnd. }
    rewrite IH; rewrite (Hc st Hhead).
    + rewrite <- app_assoc. reflexivity.
    + exact Hnd.
Qed.

(** What one call of [visit] adds to the planner, as long as no id
    repeats. *)
Lemma visit_raw sc n : forall st,
  NoDup (ids (raw st ++ planned sc n)) ->
  raw (visit sc n st) = raw st ++ planned sc n.
Proof.
  induction n as [n IH] using node_children_ind. intros st Hnd.
  rewrite visit_unfold. rewrite planned_unfold in Hnd |- *.
  destruct (negb (visible (sc (node_id n)))).
  { rewrite app_nil_r. reflexivity. }
  destruct (nodeNeedsRaster n).
  { assert (Hcur : NoDup (ids (currentVectorNodes st))).
    { apply NoDup_ids_app_l in Hnd. apply NoDup_ids_app_r in Hnd. exact Hnd. }
    destruct (flushVector_raw st Hcur) as [Hseg Hnil].
    unfold raw at 1. simpl. rewrite segment_nodes_app, Hseg, Hnil. simpl.
    rewrite !app_nil_r, collectSubtreeNodes_preorder. reflexivity. }
  rewrite fold_visit_raw; [| exact IH |].
  - destruct (nodeHasRenderableSelf sc n); unfold raw; simpl;
      rewrite <- ?app_assoc; reflexivity.
  - destruct (nodeHasRenderableSelf sc n); unfold raw in *; simpl in *;
      rewrite <- ?app_assoc in *; exact Hnd.
Qed.

Lemma flat_map_sublist {A B} (f g : A -> list B) l :
  Forall (fun a => f a `sublist_of` g a) l ->
  flat_map f l `sublist_of` flat_map g l.
Proof.
  induction 1 as [|a l Ha _ IH]; simpl.
  - constructor.
  - apply sublist_app; assumption.
Qed.

Lemma planned_sublist sc n : planned sc n `sublist_of` preorder n.
Proof.
  induction n as [n IH] using node_children_ind.
  rewrite planned_unfold, (preorder_unfold n).
  destruct (negb (visible (sc (node_id n)))); [apply sublist_nil_l |].
  destruct (nodeNeedsRaster n); [rewrite <- preorder_unfold; reflexivity |].
  destruct (nodeHasRenderableSelf sc n); simpl.
  - apply sublist_skip, flat_map_sublist, IH.
  - apply sublist_cons, flat_map_sublist, IH.
Qed.

(** The nodes of the segments of a frame are the planned nodes of its
    children, in order. *)
Lemma buildFrameSegments_nodes sc frame :
  NoDup (ids (collectSubtreeNodes frame)) ->
  segment_nodes (buildFrameSegments sc frame) =
  flat_map (planned sc) (node_children frame).
Proof.
  intros Hnd. rewrite collectSubtreeNodes_preorder, preorder_unfold in Hnd.
  rewrite fmap_cons in Hnd. apply NoDup_cons in Hnd as [_ Hnd].
  assert (Hpl : NoDup (ids (flat_map (planned sc) (node_children frame)))).
  { eapply NoDup_ids_sublist; [| exact Hnd].
    apply flat_map_sublist, Forall_forall. intros c _. apply planned_sublist. }
  unfold buildFrameSegments.
  set (st0 := {| segments := []; currentVectorNodes := [] |}).
  assert (Hraw : raw (fold_left (fun s c => visit sc c s) (node_children frame) st0)
                 = flat_map (planned sc) (node_children frame)).
  { rewrite fold_visit_raw.
    - reflexivity.
    - apply Forall_forall. intros c _. apply visit_raw.
    - exact Hpl. }
  destruct (flushVector_raw
              (fold_left (fun s c => visit sc c s) (node_children frame) st0))
    as [Hseg _].
  - rewrite <- Hraw in Hpl. apply NoDup_ids_app_r in Hpl. exact Hpl.
  - rewrite Hseg. exact Hraw.
Qed.

Lemma visited_planned sc n m :
  m ∈ visited sc n ->
  nodeHasRenderableSelf sc m = true \/ nodeNeedsRaster m = true ->
  m ∈ planned sc n.
Proof.
  induction n as [n IH] using node_children_ind. intros Hin Hm.
  rewrite visited_unfold in Hin. rewrite planned_unfold.
  destruct (negb (visible (sc (node_id n)))); [exact Hin |].
  destruct (nodeNeedsRaster n) eqn:Hr.
  { apply list_elem_of_singleton in Hin. subst m.
    rewrite preorder_unfold. left. }
  apply elem_of_cons in Hin as [-> | Hin].
  - destruct Hm as [Hm | Hm]; [| congruence].
    rewrite Hm. apply elem_of_app. left. left.
  - apply elem_of_app. right.
    apply list_elem_of_In, in_flat_map in Hin as (c & Hc & Hin).
    apply list_elem_of_In, in_flat_map. exists c. split; [exact Hc |].
    apply list_elem_of_In. rewrite Forall_forall in IH.
    apply IH; [apply list_elem_of_In; exact Hc | apply list_elem_of_In; exact Hin | exact Hm].
Qed.

Lemma planned_in_subtree sc n m : m ∈ planned sc n -> m ∈ preorder n.
Proof. intros Hin. eapply elem_of_sublist; [exact Hin | apply planned_sublist]. Qed.

(** In a concatenation without repetition, two different pieces share no
    element. *)
Lemma NoDup_flat_map_disjoint {A B} `{EqDecision B} (f : A -> list B) (l : list A) :
  NoDup (flat_map f l) ->
  forall i j a b x, i <> j -> l !! i = Some a -> l !! j = Some b ->
  x ∈ f a -> x ∉ f b.
Proof.
  induction l as [|c l IH]; intros Hnd i j a b x Hij Hi Hj Hxa Hxb.
  - rewrite lookup_nil in Hi. discriminate.
  - simpl in Hnd. apply NoDup_app in Hnd as (_ & Hdis & Hnd).
    assert (Hrest : forall k d, l !! k = Some d -> forall y, y ∈ f d -> y ∈ flat_map f l).
    { intros k d Hk y Hy. apply list_elem_of_In, in_flat_map. exists d. split.
      - apply list_elem_of_In. eapply list_elem_of_lookup_2. exact Hk.
      - apply list_elem_of_In. exact Hy. }
    destruct i as [|i], j as [|j]; simpl in *.
    + congruence.
    + injection Hi as ->. eapply Hdis; [exact Hxa |]. eapply Hrest; eassumption.
    + injection Hj as ->. eapply Hdis; [exact Hxb |]. eapply Hrest; eassumption.
    + eapply (IH Hnd i j a b x); try eassumption. congruence.
Qed.

Lemma occurrences_app i a b :
  occurrences i (a ++ b) = occurrences i a + occurrences i b.
Proof. unfold occurrences. rewrite List.filter_app, length_app. reflexivity. Qed.

Lemma occurrences_absent i l : i ∉ ids l -> occurrences i l = 0.
Proof.
  induction l as [|n l IH]; intros Hni; [reflexivity |].
  rewrite fmap_cons, not_elem_of_cons in Hni. destruct Hni as [Hne Hni].
  unfold occurrences in *. simpl.
  destruct (String.eqb (node_id n) i) eqn:E.
  - apply String.eqb_eq in E. congruence.
  - apply IH. exact Hni.
Qed.

Lemma occurrences_NoDup i l : NoDup (ids l) -> occurrences i l <= 1.
Proof.
  induction l as [|n l IH]; intros Hnd; [unfold occurrences; simpl; lia |].
  rewrite fmap_cons in Hnd. apply NoDup_cons in Hnd as [Hn Hnd].
  change (n :: l) with ([n] ++ l). rewrite occurrences_app.
  unfold occurrences at 1. simpl.
  destruct (String.eqb (node_id n) i) eqn:E; simpl.
  - apply String.eqb_eq in E. subst i. rewrite (occurrences_absent _ _ Hn). lia.
  - apply IH. exact Hnd.
Qed.

Lemma occurrences_present m l : m ∈ l -> 1 <= occurrences (node_id m) l.
Proof.
  induction l as [|n l IH]; intros Hin.
  - apply elem_of_nil in Hin. contradiction.
  - change (n :: l) with ([n] ++ l). rewrite occurrences_app.
    apply elem_of_cons in Hin as [-> | Hin].
    + unfold occurrences at 1. simpl. rewrite String.eqb_refl. simpl. lia.
    + specialize (IH Hin). lia.
Qed.

Lemma ids_flat_map {A} (f : A -> list node) l :
  ids (flat_map f l) = flat_map (fun a => ids (f a)) l.
Proof.
  induction l as [|a l IH]; simpl; [reflexivity |].
  rewrite fmap_app, IH. reflexivity.
Qed.

(** C4. For a frame whose nodes have pairwise distinct ids, concatenating
    the segments of [buildFrameSegments] in order gives a list in which
    every node of the frame's subtree (visible and renderable or not)
    occurs at most once; every node the planning traversal reaches that
    has renderable self content occurs exactly once; and no node belongs
    to two different segments. *)
Theorem buildFrameSegments_each_node_once (sc : scene) (frame : node) :
  NoDup (ids (collectSubtreeNodes frame)) ->
  let segs := buildFrameSegments sc frame in
  (forall m, m ∈ collectSubtreeNodes frame ->
             occurrences (node_id m) (segment_nodes segs) <= 1) /\
  (forall m, m ∈ flat_map (visited sc) (node_children frame) ->
             nodeHasRenderableSelf sc m = true ->
             occurrences (node_id m) (segment_nodes segs) = 1) /\
  (forall i j s1 s2 m,
      i <> j -> segs !! i = Some s1 -> segs !! j = Some s2 ->
      m ∈ seg_nodes s1 -> node_id m ∉ ids (seg_nodes s2)).
Proof.
  intros Hnd segs.
  assert (Hall : segment_nodes segs = flat_map (planned sc) (node_children frame)).
  { apply buildFrameSegments_nodes. exact Hnd. }
  assert (Hnd' : NoDup (ids (segment_nodes segs))).
  { rewrite Hall. rewrite collectSubtreeNodes_preorder, preorder_unfold in Hnd.
    rewrite fmap_cons in Hnd. apply NoDup_cons in Hnd as [_ Hnd].
    eapply NoDup_ids_sublist; [| exact Hnd].
    apply flat_map_sublist, Forall_forall. intros c _. apply planned_sublist. }
  split; [| split].
  - intros m _. apply occurrences_NoDup. exact Hnd'.
  - intros m Hvis Hren.
    assert (Hin : m ∈ segment_nodes segs).
    { rewrite Hall.
      apply list_elem_of_In, in_flat_map in Hvis as (c & Hc & Hvis).
      apply list_elem_of_In, in_flat_map. exists c. split; [exact Hc |].
      apply list_elem_of_In, visited_planned.
      - apply list_elem_of_In. exact Hvis.
      - left. exact Hren. }
    pose proof (occurrences_NoDup (node_id m) _ Hnd').
    pose proof (occurrences_present _ _ Hin). lia.
  - intros i j s1 s2 m Hij Hi Hj Hm.
    unfold segment_nodes in Hnd'. rewrite ids_flat_map in Hnd'.
    eapply (NoDup_flat_map_disjoint _ _ Hnd' i j s1 s2); try eassumption.
    apply list_elem_of_fmap_2. exact Hm.
Qed.

(** ** Scene mutator *)

Lemma set_props_same sc i p : set_props sc i p i = p.
Proof. unfold set_props. rewrite String.eqb_refl. reflexivity. Qed.

Lemma set_props_other sc i p j : j <> i -> set_props sc i p j = sc j.
Proof.
  intros Hne. unfold set_props.
  destruct (String.eqb j i) eqn:E; [| reflexivity].
  apply String.eqb_eq in E. contradiction.
Qed.

Lemma writable_Some p f : writable p = Some f -> p = Some f.
Proof. destruct p as [[|l]|]; simpl; congruence. Qed.

(** What the snapshot holds for every id. *)
Lemma capture_fold sc nodes : forall st0 i,
  let st := fold_left (capture_node sc) nodes st0 in
  st_visibility st !! i =
    (if bool_decide (i ∈ ids nodes) then Some (visible (sc i))
     else st_visibility st0 !! i) /\
  st_fills st !! i =
    (if bool_decide (i ∈ ids nodes)
     then match writable (fills (sc i)) with
          | Some f => Some f
          | None => st_fills st0 !! i
          end
     else st_fills st0 !! i) /\
  st_strokes st !! i =
    (if bool_decide (i ∈ ids nodes)
     then match writable (strokes (sc i)) with
          | Some f => Some f
          | None => st_strokes st0 !! i
          end
     else st_strokes st0 !! i).
Proof.
  induction nodes as [|n nodes IH]; intros st0 i; cbn [fold_left].
  - rewrite fmap_nil, bool_decide_eq_false_2 by apply not_elem_of_nil. auto.
  - specialize (IH (capture_node sc st0 n) i). cbv zeta in IH.
    destruct IH as (Hv & Hf & Hs). rewrite Hv, Hf, Hs, fmap_cons.
    clear Hv Hf Hs.
    destruct (decide (i = node_id n)) as [-> | Hne].
    + rewrite (bool_decide_eq_true_2 (node_id n ∈ node_id n :: ids nodes))
        by left.
      unfold capture_node.
      destruct (writable (fills (sc (node_id n)))) as [f|],
               (writable (strokes (sc (node_id n)))) as [k|];
        cbn [st_visibility st_fills st_strokes];
        rewrite ?lookup_insert_eq;
        destruct (bool_decide (node_id n ∈ ids nodes)); auto.
    + assert (Hiff : bool_decide (i ∈ node_id n :: ids nodes)
                     = bool_decide (i ∈ ids nodes)).
      { apply bool_decide_ext. rewrite elem_of_cons. tauto. }
      rewrite Hiff. unfold capture_node.
      destruct (writable (fills (sc (node_id n)))) as [f|],
               (writable (strokes (sc (node_id n)))) as [k|];
        cbn [st_visibility st_fills st_strokes];
        rewrite ?lookup_insert_ne by congruence; auto.
Qed.

Lemma captureNodeState_lookup sc nodes i :
  let st := captureNodeState sc nodes in
  st_visibility st !! i =
    (if bool_decide (i ∈ ids nodes) then Some (visible (sc i)) else None) /\
  st_fills st !! i =
    (if bool_decide (i ∈ ids nodes) then writable (fills (sc i)) else None) /\
  st_strokes st !! i =
    (if bool_decide (i ∈ ids nodes) then writable (strokes (sc i)) else None).
Proof.
  unfold captureNodeState.
  destruct (capture_fold sc nodes
              {| st_visibility := ∅; st_fills := ∅; st_strokes := ∅ |} i)
    as (Hv & Hf & Hs).
  cbn [st_visibility st_fills st_strokes] in *.
  rewrite Hv, Hf, Hs, !lookup_empty.
  destruct (bool_decide (i ∈ ids nodes)); [| auto].
  destruct (writable (fills (sc i))), (writable (strokes (sc i))); auto.
Qed.

Lemma isolated_from_refl sc0 nodes : isolated_from sc0 nodes sc0.
Proof. intros i. auto. Qed.

Lemma isolate_node_other rs ss state sc n j :
  j <> node_id n -> isolate_node rs ss state sc n j = sc j.
Proof.
  intros Hne. unfold isolate_node, set_visible, set_fills, set_strokes.
  repeat match goal with
         | |- context [match ?x with _ => _ end] => destruct x
         end;
    rewrite ?set_props_other by exact Hne; reflexivity.
Qed.

Lemma isolate_node_same rs ss state sc n :
  let p := isolate_node rs ss state sc n (node_id n) in
  (writable (fills (sc (node_id n))) = None ->
   fills p = fills (sc (node_id n))) /\
  (writable (strokes (sc (node_id n))) = None ->
   strokes p = strokes (sc (node_id n))).
Proof.
  unfold isolate_node. cbv zeta.
  set (i := node_id n).
  set (sc1 := set_visible sc i _).
  assert (F1 : fills (sc1 i) = fills (sc i)).
  { unfold sc1, set_visible. rewrite set_props_same. reflexivity. }
  assert (S1 : strokes (sc1 i) = strokes (sc i)).
  { unfold sc1, set_visible. rewrite set_props_same. reflexivity. }
  set (sc2 := match writable (fills (sc1 i)) with
              | Some _ => _
              | None => sc1
              end).
  assert (S2 : strokes (sc2 i) = strokes (sc i)).
  { unfold sc2.
    destruct (writable (fills (sc1 i)));
      [destruct (bool_decide (i ∈ rs)); [destruct (st_fills state !! i) |] |];
      unfold set_fills; rewrite ?set_props_same; cbn [strokes]; exact S1. }
  assert (F2 : writable (fills (sc i)) = None -> fills (sc2 i) = fills (sc i)).
  { intros Hw. unfold sc2. rewrite F1, Hw. exact F1. }
  split; intros Hw.
  - destruct (writable (strokes (sc2 i)));
      [destruct (bool_decide (i ∈ rs)); [destruct (st_strokes state !! i) |] |];
      unfold set_strokes; rewrite ?set_props_same; cbn [fills]; exact (F2 Hw).
  - rewrite S2, Hw. exact S2.
Qed.

Lemma isolate_node_preserves sc0 nodes rs ss state sc n :
  n ∈ nodes ->
  isolated_from sc0 nodes sc ->
  isolated_from sc0 nodes (isolate_node rs ss state sc n).
Proof.
  intros Hin Hinv j. destruct (Hinv j) as (Hout & Hf & Hs).
  destruct (decide (j = node_id n)) as [-> | Hne].
  - destruct (isolate_node_same rs ss state sc n) as [Pf Ps].
    split; [| split].
    + intros Hni. exfalso. apply Hni. apply list_elem_of_fmap_2. exact Hin.
    + intros Hw. rewrite Pf; [exact (Hf Hw) |]. rewrite (Hf Hw). exact Hw.
    + intros Hw. rewrite Ps; [exact (Hs Hw) |]. rewrite (Hs Hw). exact Hw.
  - rewrite (isolate_node_other _ _ _ _ _ _ Hne). auto.
Qed.

Lemma applySegmentState_preserves sc0 nodes frame segmentNodes state sc :
  isolated_from sc0 nodes sc ->
  isolated_from sc0 nodes (applySegmentState frame nodes segmentNodes state sc).
Proof.
  unfold applySegmentState.
  generalize (renderSet_of segmentNodes) (showSet_of frame segmentNodes).
  intros rs ss.
  assert (Hgen : forall l, (forall n, n ∈ l -> n ∈ nodes) ->
            forall sc', isolated_from sc0 nodes sc' ->
            isolated_from sc0 nodes (fold_left (isolate_node rs ss state) l sc')).
  { induction l as [|n l IH]; intros Hsub sc' Hinv; cbn [fold_left].
    - exact Hinv.
    - apply IH.
      + intros m Hm. apply Hsub. right. exact Hm.
      + apply isolate_node_preserves; [apply Hsub; left | exact Hinv]. }
  apply Hgen. auto.
Qed.

Lemma restore_node_spec state sc n j :
  restore_node state sc n j =
  if String.eqb j (node_id n) then restored_props state j (sc j) else sc j.
Proof.
  unfold restore_node, restored_props, set_visible, set_fills, set_strokes.
  destruct (String.eqb j (node_id n)) eqn:E.
  - apply String.eqb_eq in E. subst j.
    destruct (st_visibility state !! node_id n),
             (st_fills state !! node_id n),
             (st_strokes state !! node_id n);
      rewrite ?set_props_same; cbn [visible fills strokes];
      rewrite ?set_props_same; cbn [visible fills strokes];
      rewrite ?set_props_same; cbn [visible fills strokes];
      try reflexivity; destruct (sc (node_id n)); reflexivity.
  - assert (Hne : j <> node_id n).
    { intros ->. rewrite String.eqb_refl in E. discriminate. }
    destruct (st_visibility state !! node_id n),
             (st_fills state !! node_id n),
             (st_strokes state !! node_id n);
      rewrite ?set_props_other by exact Hne; reflexivity.
Qed.

Lemma restored_props_idem state i p :
  restored_props state i (restored_props state i p) = restored_props state i p.
Proof.
  unfold restored_props. cbn [visible fills strokes].
  destruct (st_visibility state !! i), (st_fills state !! i),
           (st_strokes state !! i); reflexivity.
Qed.

Lemma restoreNodeState_spec state nodes : forall sc j,
  restoreNodeState nodes state sc j =
  if bool_decide (j ∈ ids nodes) then restored_props state j (sc j) else sc j.
Proof.
  unfold restoreNodeState.
  induction nodes as [|n nodes IH]; intros sc j; cbn [fold_left].
  - rewrite fmap_nil, bool_decide_eq_false_2 by apply not_elem_of_nil.
    reflexivity.
  - rewrite IH, restore_node_spec, fmap_cons.
    destruct (String.eqb j (node_id n)) eqn:E.
    + apply String.eqb_eq in E. subst j.
      rewrite (bool_decide_eq_true_2 (node_id n ∈ node_id n :: ids nodes))
        by left.
      destruct (bool_decide (node_id n ∈ ids nodes));
        [apply restored_props_idem | reflexivity].
    + assert (Hiff : bool_decide (j ∈ node_id n :: ids nodes)
                     = bool_decide (j ∈ ids nodes)).
      { apply bool_decide_ext. rewrite elem_of_cons. split; [| tauto].
        intros [-> | Hin]; [| exact Hin].
        rewrite String.eqb_refl in E. discriminate. }
      rewrite Hiff. reflexivity.
Qed.

(** Restoring the snapshot of [sc0] undoes whatever isolations did. *)
Lemma restore_after_isolation sc0 nodes sc :
  isolated_from sc0 nodes sc ->
  forall i, restoreNodeState nodes (captureNodeState sc0 nodes) sc i = sc0 i.
Proof.
  intros Hinv i. rewrite restoreNodeState_spec.
  destruct (Hinv i) as (Hout & Hf & Hs).
  destruct (captureNodeState_lookup sc0 nodes i) as (Cv & Cf & Cs).
  cbv zeta in Cv, Cf, Cs.
  destruct (bool_decide (i ∈ ids nodes)) eqn:Hin.
  - unfold restored_props. rewrite Cv, Cf, Cs.
    assert (Ef : match writable (fills (sc0 i)) with
                 | Some f => Some f
                 | None => fills (sc i)
                 end = fills (sc0 i)).
    { destruct (writable (fills (sc0 i))) as [f|] eqn:W.
      - symmetry. apply writable_Some. exact W.
      - apply Hf. reflexivity. }
    assert (Es : match writable (strokes (sc0 i)) with
                 | Some f => Some f
                 | None => strokes (sc i)
                 end = strokes (sc0 i)).
    { destruct (writable (strokes (sc0 i))) as [f|] eqn:W.
      - symmetry. apply writable_Some. exact W.
      - apply Hs. reflexivity. }
    rewrite Ef, Es. destruct (sc0 i); reflexivity.
  - apply Hout. apply bool_decide_eq_false in Hin. exact Hin.
Qed.

(** C6. Take the snapshot of any list of nodes, isolate any sequence of
    segment selections (each with its own frame), then restore: every
    node has the visibility, fills and strokes it had before the first
    isolation.  The snapshot holds the visibility of every node of the
    list and the fills and strokes of those whose paints were not mixed,
    and after the restore the nodes carry exactly these values. *)
Theorem isolate_then_restore (sc0 : scene) (nodes : list node)
    (isolations : list (node * list node)) :
  let state := captureNodeState sc0 nodes in
  let isolated :=
    fold_left (fun sc sel => applySegmentState (fst sel) nodes (snd sel) state sc)
              isolations sc0 in
  let restored := restoreNodeState nodes state isolated in
  (forall i, restored i = sc0 i) /\
  (forall n, n ∈ nodes ->
     st_visibility state !! node_id n = Some (visible (restored (node_id n))) /\
     (forall l, fills (sc0 (node_id n)) = Some (PaintArray l) ->
        st_fills state !! node_id n = Some (PaintArray l) /\
        fills (restored (node_id n)) = Some (PaintArray l)) /\
     (forall l, strokes (sc0 (node_id n)) = Some (PaintArray l) ->
        st_strokes state !! node_id n = Some (PaintArray l) /\
        strokes (restored (node_id n)) = Some (PaintArray l))).
Proof.
  intros state isolated restored.
  assert (Hinv : isolated_from sc0 nodes isolated).
  { unfold isolated. clear restored isolated.
    assert (Hgen : forall sc, isolated_from sc0 nodes sc ->
              isolated_from sc0 nodes
                (fold_left (fun sc sel =>
                              applySegmentState (fst sel) nodes (snd sel) state sc)
                           isolations sc)).
    { induction isolations as [|sel rest IH]; intros sc Hsc; cbn [fold_left].
      - exact Hsc.
      - apply IH, applySegmentState_preserves, Hsc. }
    apply Hgen, isolated_from_refl. }
  assert (Hall : forall i, restored i = sc0 i).
  { apply restore_after_isolation. exact Hinv. }
  split; [exact Hall |].
  intros n Hn.
  destruct (captureNodeState_lookup sc0 nodes (node_id n)) as (Cv & Cf & Cs).
  cbv zeta in Cv, Cf, Cs. fold state in Cv, Cf, Cs.
  rewrite bool_decide_eq_true_2 in Cv, Cf, Cs
    by (apply list_elem_of_fmap_2; exact Hn).
  rewrite Hall. split; [exact Cv | split].
  - intros l Hl. rewrite Cf, Hl. split; reflexivity.
  - intros l Hl. rewrite Cs, Hl. split; reflexivity.
Qed.

(** ** Rasterization classifier *)






(** ** Layer analysis *)

Lemma analyzeFrameLayers_unfold n depth results :
  analyzeFrameLayers n depth results =
  let r0 := match results with
            | Some r => r
            | None => fresh_results
            end in
  let r1 := if is_layer n then analyze_layer n depth r0 else r0 in
  let r2 := fold_left (fun r c => analyzeFrameLayers c (S depth) (Some r))
                      (node_children n) r1 in
  if Nat.eqb depth 0 then set_strategy r2 else r2.
Proof. destruct n; reflexivity. Qed.

Lemma counts_extend_refl r : counts_extend r r.
Proof. unfold counts_extend. lia. Qed.

Lemma counts_extend_trans a b c :
  counts_extend a b -> counts_extend b c -> counts_extend a c.
Proof. unfold counts_extend. lia. Qed.

Lemma analyze_layer_counts n depth r :
  counts_extend r (analyze_layer n depth r) /\
  totalLayers (analyze_layer n depth r) = S (totalLayers r).
Proof.
  unfold analyze_layer, counts_extend.
  destruct (layerNeedsRaster _); [simpl; lia |].
  destruct (layerIssues _); simpl; lia.
Qed.

Lemma set_strategy_counts r : counts_extend r (set_strategy r).
Proof. unfold counts_extend, set_strategy. simpl. lia. Qed.

Lemma analyzeFrameLayers_counts n : forall depth r,
  counts_extend r (analyzeFrameLayers n depth (Some r)) /\
  (is_layer n = true ->
   totalLayers r < totalLayers (analyzeFrameLayers n depth (Some r))).
Proof.
  induction n as [n IH] using node_children_ind. intros depth r.
  rewrite analyzeFrameLayers_unfold. cbv zeta.
  set (r1 := if is_layer n then analyze_layer n depth r else r).
  assert (H1 : counts_extend r r1 /\
               (is_layer n = true -> totalLayers r < totalLayers r1)).
  { unfold r1. destruct (is_layer n).
    - destruct (analyze_layer_counts n depth r) as [Hc Ht]. split; [exact Hc | lia].
    - split; [apply counts_extend_refl | discriminate]. }
  assert (H2 : forall cs, Forall (fun c => forall depth r,
                  counts_extend r (analyzeFrameLayers c depth (Some r)) /\
                  (is_layer c = true ->
                   totalLayers r < totalLayers (analyzeFrameLayers c depth (Some r)))) cs ->
               forall r', counts_extend r'
                 (fold_left (fun r c => analyzeFrameLayers c (S depth) (Some r)) cs r')).
  { induction 1 as [|c cs Hc _ IHcs]; intros r'; cbn [fold_left].
    - apply counts_extend_refl.
    - eapply counts_extend_trans; [apply (Hc (S depth) r') | apply IHcs]. }
  specialize (H2 _ IH r1).
  set (r2 := fold_left _ (node_children n) r1) in *.
  assert (H3 : counts_extend r r2 /\
               (is_layer n = true -> totalLayers r < totalLayers r2)).
  { destruct H1 as [H1 H1']. split.
    - eapply counts_extend_trans; eassumption.
    - intros Hl. specialize (H1' Hl). unfold counts_extend in H2. lia. }
  destruct (Nat.eqb depth 0); [| exact H3].
  destruct H3 as [H3 H3']. pose proof (set_strategy_counts r2) as Hs. split.
  - eapply counts_extend_trans; eassumption.
  - intros Hl. specialize (H3' Hl). unfold counts_extend in Hs. lia.
Qed.

Lemma analyzeFrameLayers_root n :
  analyzeFrameLayers n 0 None = analyzeFrameLayers n 0 (Some fresh_results).
Proof. rewrite !analyzeFrameLayers_unfold. reflexivity. Qed.

Lemma analyzeFrameLayers_strategy n results :
  let la := analyzeFrameLayers n 0 results in
  frameStrategy la =
    if Nat.eqb (rasterLayers la) 0 then "vector"
    else if Nat.eqb (vectorLayers la) 0 then "raster"
    else "hybrid".
Proof. rewrite analyzeFrameLayers_unfold. reflexivity. Qed.


(** ** The drop-shadow scenario *)









(** ** Greedy packing *)

Section PackingLemmas.
Variable A : Type.
Variable size : A -> num.
Variable limit : num.

Lemma summed_snoc l a : summed (l ++ [a]) = num_add (summed l) a.
Proof. unfold summed. rewrite fold_left_app. reflexivity. Qed.

Lemma summed_single a : summed [a] = a.
Proof. unfold summed. simpl. apply num_add_zero_l. Qed.

Lemma pack_invariant_start : pack_invariant A size limit [] (pack_start A).
Proof.
  unfold pack_invariant, pack_start. simpl.
  split; [reflexivity | split; [constructor | split; [reflexivity | left; reflexivity]]].
Qed.

Lemma pack_step_invariant done st item :
  pack_invariant A size limit done st -> pack_invariant A size limit (done ++ [item]) (pack_step A size limit st item).
Proof.
  intros (Hcat & Hall & Hsize & Hcur). unfold pack_step, pack_invariant.
  destruct (current st) as [|c cur] eqn:Ecur.
  - (* the first item of the first batch *)
    cbn [is_empty negb andb current packed currentSize List.map app].
    rewrite Hsize. cbn [List.map]. rewrite summed_single.
    change (summed []) with (num_lit 0). rewrite num_add_zero_l.
    split; [| split; [| split]].
    + rewrite <- Hcat, app_nil_r. reflexivity.
    + exact Hall.
    + reflexivity.
    + right. split; [discriminate |]. cbn [List.map]. rewrite summed_single.
      destruct (num_gt (size item) limit) eqn:E; [right | left; reflexivity].
      exists item. split; [reflexivity | exact E].
  - cbn [is_empty negb andb].
    destruct (num_gt (num_add (currentSize st) (size item)) limit) eqn:E;
      cbn [current packed currentSize].
    + (* the open batch is closed and the item starts the next one *)
      cbn [List.map]. rewrite summed_single.
      split; [| split; [| split]].
      * rewrite <- Hcat, concat_app. simpl. rewrite app_nil_r, <- app_assoc.
        reflexivity.
      * apply Forall_app. split; [exact Hall |]. constructor; [| constructor].
        destruct Hcur as [Hcur | Hcur]; [discriminate | exact Hcur].
      * reflexivity.
      * right. split; [discriminate |]. cbn [List.map]. rewrite summed_single.
        destruct (num_gt (size item) limit) eqn:E'; [right | left; reflexivity].
        exists item. split; [reflexivity | exact E'].
    + (* the item joins the open batch, which stays within the budget *)
      rewrite map_app. change (List.map size [item]) with [size item].
      rewrite summed_snoc, <- Hsize.
      split; [| split; [| split]].
      * rewrite <- Hcat, <- app_assoc. reflexivity.
      * exact Hall.
      * reflexivity.
      * right. split; [destruct cur; discriminate |]. left.
        rewrite map_app. change (List.map size [item]) with [size item].
        rewrite summed_snoc, <- Hsize. exact E.
Qed.

Lemma pack_fold_invariant items : forall done st,
  pack_invariant A size limit done st ->
  pack_invariant A size limit (done ++ items) (fold_left (pack_step A size limit) items st).
Proof.
  induction items as [|item items IH]; intros done st Hinv; cbn [fold_left].
  - rewrite app_nil_r. exact Hinv.
  - change (item :: items) with ([item] ++ items). rewrite app_assoc.
    apply IH, pack_step_invariant, Hinv.
Qed.

Lemma pack_partition items :
  let groups := pack_finish A (fold_left (pack_step A size limit) items (pack_start A)) in
  concat groups = items /\ Forall (within_budget size limit) groups.
Proof.
  cbv zeta.
  destruct (pack_fold_invariant items [] (pack_start A) pack_invariant_start)
    as (Hcat & Hall & _ & Hcur).
  simpl in Hcat. unfold pack_finish.
  destruct (current (fold_left (pack_step A size limit) items (pack_start A))) as [|c cur] eqn:E;
    cbn [is_empty negb].
  - rewrite app_nil_r in Hcat. split; assumption.
  - split.
    + rewrite concat_app. simpl. rewrite app_nil_r. exact Hcat.
    + apply Forall_app. split; [exact Hall |]. constructor; [| constructor].
      destruct Hcur as [Hcur | Hcur]; [discriminate | exact Hcur].
Qed.

End PackingLemmas.

(** The chunk loop is the packing rule on the export results. *)
Lemma planChunks_pack results :
  planChunks results =
  pack_finish _ (fold_left (pack_step _ estimateExportBytes MAX_CHUNK_BYTES)
                           results (pack_start _)).
Proof. reflexivity. Qed.

Lemma batch_step_pack st e :
  batch_step (frames_of st) e =
  frames_of (pack_step _ estimatedBytes SAFE_MEMORY_LIMIT st e).
Proof.
  unfold batch_step, pack_step, frames_of. cbn [packed current currentSize].
  rewrite andb_comm.
  assert (Hempty : is_empty (List.map est_frame (current st)) = is_empty (current st)).
  { destruct (current st); reflexivity. }
  rewrite Hempty.
  destruct (negb (is_empty (current st)) &&
            num_gt (num_add (currentSize st) (estimatedBytes e)) SAFE_MEMORY_LIMIT);
    cbn [packed current currentSize]; rewrite ?map_app; reflexivity.
Qed.

Lemma planBatches_pack estimates :
  planBatches estimates =
  List.map (List.map est_frame)
    (pack_finish _ (fold_left (pack_step _ estimatedBytes SAFE_MEMORY_LIMIT)
                              estimates (pack_start _))).
Proof.
  unfold planBatches.
  change {| packed := []; current := []; currentSize := num_lit 0 |}
    with (frames_of (pack_start frame_estimate)).
  generalize (pack_start frame_estimate). intros st.
  assert (Hfold : fold_left batch_step estimates (frames_of st) =
                  frames_of (fold_left (pack_step _ estimatedBytes SAFE_MEMORY_LIMIT)
                                       estimates st)).
  { revert st. induction estimates as [|e l IH]; intros st; cbn [fold_left].
    - reflexivity.
    - rewrite batch_step_pack. apply IH. }
  rewrite Hfold. unfold pack_finish, frames_of. cbn [packed current].
  destruct (current _); cbn [is_empty negb List.map];
    rewrite ?map_app; reflexivity.
Qed.

(** C5. Both greedy packers split their input into consecutive groups:
    the estimates behind the batches of [planBatches], and the chunks of
    [planChunks], concatenate to the input in order, so that no item is
    split or moved; and every group either has a summed estimate that
    does not exceed the budget (400MB for batches, 20MB for chunks) or
    is a single item whose own estimate exceeds it. *)
Theorem greedy_packing_within_budget
    (estimates : list frame_estimate) (results : list export_result) :
  (exists groups : list (list frame_estimate),
     planBatches estimates = List.map (List.map est_frame) groups /\
     concat groups = estimates /\
     Forall (within_budget estimatedBytes SAFE_MEMORY_LIMIT) groups) /\
  (concat (planChunks results) = results /\
   Forall (within_budget estimateExportBytes MAX_CHUNK_BYTES) (planChunks results)).
Proof.
  split.
  - eexists. split; [apply planBatches_pack |].
    apply (pack_partition _ estimatedBytes SAFE_MEMORY_LIMIT estimates).
  - rewrite planChunks_pack.
    apply (pack_partition _ estimateExportBytes MAX_CHUNK_BYTES results).
Qed.

(** ** PDF validation *)

Lemma firstn_min_length {X} n (l : list X) :
  firstn (Nat.min n (length l)) l = firstn n l.
Proof.
  destruct (Nat.le_gt_cases n (length l)) as [Hle | Hgt].
  - rewrite Nat.min_l by exact Hle. reflexivity.
  - rewrite Nat.min_r by lia. rewrite firstn_all, firstn_all2 by lia. reflexivity.
Qed.

Lemma slice_from_start data k : slice data 0 k = firstn k data.
Proof. unfold slice. rewrite Nat.sub_0_r. reflexivity. Qed.

Lemma validatePDFData_short data name :
  length data < 100 -> isValid (validatePDFData (Some data) name) = false.
Proof.
  intros Hlen. unfold validatePDFData.
  rewrite (proj2 (Nat.ltb_lt _ _) Hlen). reflexivity.
Qed.

(** The verdict on a buffer of at least 100 bytes with the magic
    signature depends on the corruption check alone. *)
Lemma validatePDFData_verdict data name :
  100 <= length data ->
  String.prefix "%PDF" (fromCharCodes (firstn 5 data)) = true ->
  isValid (validatePDFData (Some data) name) =
  negb (str_includes "undefined" (fromCharCodes (firstn 2000 data)) ||
        str_includes "NaN" (fromCharCodes (firstn 2000 data))).
Proof.
  intros Hlen Hmagic. unfold validatePDFData.
  rewrite (proj2 (Nat.ltb_ge _ _) Hlen), Hmagic. cbn [negb].
  cbv zeta. cbn [isValid]. rewrite slice_from_start, firstn_min_length.
  reflexivity.
Qed.

(** C9. A missing buffer and every buffer shorter than 100 bytes are
    invalid.  A buffer of at least 100 bytes whose first bytes spell the
    %PDF signature, whose last 100 bytes contain %%EOF and whose first
    2000 bytes contain neither 'undefined' nor 'NaN' is valid. *)
Theorem validatePDFData_roundtrip (name : string) :
  isValid (validatePDFData None name) = false /\
  (forall data, length data < 100 ->
     isValid (validatePDFData (Some data) name) = false) /\
  (forall data,
     100 <= length data ->
     String.prefix "%PDF" (fromCharCodes (firstn 5 data)) = true ->
     str_includes "%%EOF" (fromCharCodes (skipn (length data - 100) data)) = true ->
     str_includes "undefined" (fromCharCodes (firstn 2000 data)) = false ->
     str_includes "NaN" (fromCharCodes (firstn 2000 data)) = false ->
     isValid (validatePDFData (Some data) name) = true).
Proof.
  split; [reflexivity | split].
  - intros data. apply validatePDFData_short.
  - intros data Hlen Hmagic _ Hu Hn.
    rewrite validatePDFData_verdict by assumption. rewrite Hu, Hn. reflexivity.
Qed.

(** ** Text range bounds *)






(** ** The export ladder *)

Section Ladder.
Variable host : nat -> scene -> node -> export_format -> export_outcome.

Lemma exportAsync_run frame fmt w :
  exists call,
    call_frame call = node_id frame /\
    snd (exportAsync host frame fmt w) =
      {| w_scene := w_scene w; w_trace := w_trace w ++ [call];
         exportResults := exportResults w |} /\
    match fst (exportAsync host frame fmt w) with
    | Normal _ => call_succeeded call
    | Thrown m => call_outcome call = ExportThrows m
    end.
Proof.
  unfold exportAsync.
  exists {| call_frame := node_id frame; call_format := fmt;
            call_outcome := host (length (w_trace w)) (w_scene w) frame fmt |}.
  destruct (host (length (w_trace w)) (w_scene w) frame fmt) as [d | m] eqn:E;
    (split; [| split]); cbn [fst snd]; try reflexivity.
  exists d. reflexivity.
Qed.

Lemma export_segment_run scale frame nodes state sc0 seg w :
  isolated_from sc0 nodes (w_scene w) ->
  let run := export_segment host scale frame nodes state seg w in
  isolated_from sc0 nodes (w_scene (snd run)) /\
  exportResults (snd run) = exportResults w /\
  exists call, w_trace (snd run) = w_trace w ++ [call] /\
    match fst run with
    | Normal _ => call_succeeded call
    | Thrown m => call_outcome call = ExportThrows m
    end.
Proof.
  intros Hinv. cbv zeta. unfold export_segment, bind, modify_scene, ret.
  set (w1 := {| w_scene := applySegmentState frame nodes (seg_nodes seg) state
                             (w_scene w);
                w_trace := w_trace w; exportResults := exportResults w |}).
  assert (Hinv1 : isolated_from sc0 nodes (w_scene w1)).
  { apply applySegmentState_preserves. exact Hinv. }
  destruct (seg_type seg).
  - destruct (exportAsync_run frame PDF w1) as (call & _ & Hw & Hc).
    destruct (exportAsync host frame PDF w1) as [[d | m] w2];
      cbn [fst snd] in *; subst w2; cbn [w_scene w_trace exportResults];
      (split; [exact Hinv1 | split; [reflexivity |]]); exists call; auto.
  - destruct (exportAsync_run frame (PNG scale) w1) as (call & _ & Hw & Hc).
    destruct (exportAsync host frame (PNG scale) w1) as [[d | m] w2];
      cbn [fst snd] in *; subst w2; cbn [w_scene w_trace exportResults];
      (split; [exact Hinv1 | split; [reflexivity |]]); exists call; auto.
Qed.

Lemma export_segments_run scale frame nodes state sc0 segs : forall acc w,
  isolated_from sc0 nodes (w_scene w) ->
  let run := export_segments host scale frame nodes state segs acc w in
  isolated_from sc0 nodes (w_scene (snd run)) /\
  exportResults (snd run) = exportResults w /\
  exists calls, w_trace (snd run) = w_trace w ++ calls /\
                calls_shape (fst run) calls.
Proof.
  induction segs as [|seg segs IH]; intros acc w Hinv; cbv zeta.
  - cbn [export_segments]. unfold ret. cbn [fst snd].
    split; [exact Hinv | split; [reflexivity |]].
    exists []. rewrite app_nil_r. split; [reflexivity | constructor].
  - cbn [export_segments]. unfold bind.
    destruct (export_segment_run scale frame nodes state sc0 seg w Hinv)
      as (Hinv1 & Hres1 & call & Htr1 & Hc1).
    destruct (export_segment host scale frame nodes state seg w) as [[e | m] w1];
      cbn [fst snd] in *.
    + specialize (IH (acc ++ [e]) w1 Hinv1). cbv zeta in IH.
      destruct IH as (Hinv2 & Hres2 & calls & Htr2 & Hshape).
      split; [exact Hinv2 | split; [congruence |]].
      exists (call :: calls). split.
      * rewrite Htr2, Htr1, <- app_assoc. reflexivity.
      * destruct (fst (export_segments host scale frame nodes state segs
                         (acc ++ [e]) w1)) as [x | m]; cbn [calls_shape] in *.
        -- constructor; assumption.
        -- destruct Hshape as (pre & last & -> & Hlast & Hpre).
           exists (call :: pre), last. split; [reflexivity | split; [exact Hlast |]].
           constructor; assumption.
    + split; [exact Hinv1 | split; [exact Hres1 |]].
      exists [call]. split; [exact Htr1 |].
      exists [], call. split; [reflexivity | split; [exact Hc1 | constructor]].
Qed.

Lemma export_background_run frame nodes state sc0 bg w :
  isolated_from sc0 nodes (w_scene w) ->
  let run := export_background host frame nodes state bg w in
  isolated_from sc0 nodes (w_scene (snd run)) /\
  exportResults (snd run) = exportResults w /\
  exists calls, w_trace (snd run) = w_trace w ++ calls /\
                calls_shape (fst run) calls.
Proof.
  intros Hinv. cbv zeta. unfold export_background.
  destruct bg.
  - unfold bind, modify_scene, ret.
    set (w1 := {| w_scene := applySegmentState frame nodes [frame] state (w_scene w);
                  w_trace := w_trace w; exportResults := exportResults w |}).
    assert (Hinv1 : isolated_from sc0 nodes (w_scene w1)).
    { apply applySegmentState_preserves. exact Hinv. }
    destruct (exportAsync_run frame PDF w1) as (call & _ & Hw & Hc).
    destruct (exportAsync host frame PDF w1) as [[d | m] w2];
      cbn [fst snd] in *; subst w2; cbn [w_scene w_trace exportResults];
      (split; [exact Hinv1 | split; [reflexivity |]]); exists [call];
      (split; [reflexivity |]).
    + constructor; [exact Hc | constructor].
    + exists [], call. split; [reflexivity | split; [exact Hc | constructor]].
  - unfold ret. cbn [fst snd]. split; [exact Hinv | split; [reflexivity |]].
    exists []. rewrite app_nil_r. split; [reflexivity | constructor].
Qed.

(** The segmented export of one frame, summed up: the scene is put back,
    the computation completes normally, one entry is pushed, and either
    all calls succeeded and the entry carries the segment buffers, or the
    calls stop at the one that threw and the entry is the failure
    marker. *)
Lemma exportLayered_outcome scale info frame st segs w :
  let run := exportLayered host scale info frame st segs w in
  let w' := snd run in
  fst run = Normal tt /\
  (forall i, w_scene w' i = w_scene w i) /\
  exists calls, w_trace w' = w_trace w ++ calls /\
    ((Forall call_succeeded calls /\
      exists buffers, exportResults w' =
                      exportResults w ++ [segments_result info buffers st]) \/
     (exists pre last m,
        calls = pre ++ [last] /\ call_outcome last = ExportThrows m /\
        Forall call_succeeded pre /\
        exportResults w' =
        exportResults w ++
          [failed_result info ("Layered export failed: " +:+ m)])).
Proof.
  cbv zeta. unfold exportLayered.
  set (nodes := collectAllNodes (Some frame)).
  unfold bind, get_scene, finally, try_catch. cbv beta iota.
  set (state := captureNodeState (w_scene w) nodes).
  set (bg := hasVisiblePaints (fills (w_scene w (node_id frame))) ||
             hasVisiblePaints (strokes (w_scene w (node_id frame)))).
  destruct (export_background_run frame nodes state (w_scene w) bg w
              (isolated_from_refl _ _)) as (Hinv1 & Hres1 & calls1 & Htr1 & Hsh1).
  destruct (export_background host frame nodes state bg w) as [[b | m] w1];
    cbn [fst snd] in *.
  - destruct (export_segments_run scale frame nodes state (w_scene w) segs b w1
                Hinv1) as (Hinv2 & Hres2 & calls2 & Htr2 & Hsh2).
    destruct (export_segments host scale frame nodes state segs b w1)
      as [[e | m] w2]; cbn [fst snd] in *.
    + unfold push_result, modify_scene. cbn [fst snd w_scene w_trace exportResults].
      split; [reflexivity | split].
      * apply restore_after_isolation. exact Hinv2.
      * exists (calls1 ++ calls2). split.
        -- rewrite Htr2, Htr1, <- app_assoc. reflexivity.
        -- left. split; [apply Forall_app; split; assumption |].
           exists e. rewrite Hres2, Hres1. reflexivity.
    + unfold push_result, modify_scene. cbn [fst snd w_scene w_trace exportResults].
      split; [reflexivity | split].
      * apply restore_after_isolation. exact Hinv2.
      * exists (calls1 ++ calls2). split.
        -- rewrite Htr2, Htr1, <- app_assoc. reflexivity.
        -- right. destruct Hsh2 as (pre & last & -> & Hlast & Hpre).
           exists (calls1 ++ pre), last, m.
           split; [rewrite app_assoc; reflexivity |].
           split; [exact Hlast |].
           split; [apply Forall_app; split; assumption |].
           rewrite Hres2, Hres1. reflexivity.
  - unfold push_result, modify_scene. cbn [fst snd w_scene w_trace exportResults].
    split; [reflexivity | split].
    + apply restore_after_isolation. exact Hinv1.
    + exists calls1. split; [exact Htr1 |].
      right. destruct Hsh1 as (pre & last & -> & Hlast & Hpre).
      exists pre, last, m.
      split; [reflexivity |]. split; [exact Hlast |]. split; [exact Hpre |].
      rewrite Hres1. reflexivity.
Qed.

Lemma calls_between_app w w' calls :
  w_trace w' = w_trace w ++ calls -> calls_between w w' = calls.
Proof.
  intros Htr. unfold calls_between. rewrite Htr.
  rewrite skipn_app, Nat.sub_diag, skipn_all. reflexivity.
Qed.

Lemma succeeded_not_thrown c m :
  call_succeeded c -> call_outcome c = ExportThrows m -> False.
Proof. intros [d Hd] Hm. congruence. Qed.

(** The segmented path of [exportFrame]. *)
Lemma exportFrame_layered scale info frame la dec w :
  0 < rasterLayers la -> vectorLayers la <> 0 ->
  existsb is_raster_segment (buildFrameSegments (w_scene w) frame) = true ->
  exportFrame host scale (AnalyzedFrame info frame la dec) w =
  exportLayered host scale info frame (stats dec)
                (buildFrameSegments (w_scene w) frame) w.
Proof.
  intros Hr Hv Hseg. unfold exportFrame.
  rewrite (proj2 (Nat.ltb_lt _ _) Hr), (proj2 (Nat.eqb_neq _ _) Hv).
  unfold bind, get_scene. rewrite Hseg. reflexivity.
Qed.

(** C7. On the segmented path of a hybrid frame, if some export call made
    for the frame throws, that call is the last one made for the frame,
    every node has its visibility, fills and strokes of before the export
    again, and the one entry pushed for the frame is the failure marker
    'Layered export failed: ' with the message, which carries no segment
    list and no buffer. *)
Theorem layered_export_aborts (scale : num) (info : frame_info) (frame : node)
    (la : layer_analysis) (dec : decision) (w : world) :
  0 < rasterLayers la -> vectorLayers la <> 0 ->
  existsb is_raster_segment (buildFrameSegments (w_scene w) frame) = true ->
  let run := exportFrame host scale (AnalyzedFrame info frame la dec) w in
  let w' := snd run in
  let calls := calls_between w w' in
  forall k c message,
    calls !! k = Some c -> call_outcome c = ExportThrows message ->
    w_trace w' = w_trace w ++ calls /\
    length calls = S k /\
    (forall i, w_scene w' i = w_scene w i) /\
    exportResults w' =
      exportResults w ++
        [failed_result info ("Layered export failed: " +:+ message)] /\
    (let entry := failed_result info ("Layered export failed: " +:+ message) in
     res_skipped entry = true /\ res_segments entry = None /\
     res_pdfData entry = None /\ res_pngData entry = None).
Proof.
  intros Hr Hv Hseg. cbv zeta.
  rewrite (exportFrame_layered scale info frame la dec w Hr Hv Hseg).
  destruct (exportLayered_outcome scale info frame (stats dec)
              (buildFrameSegments (w_scene w) frame) w)
    as (_ & Hscene & calls & Htr & Hcases).
  cbv zeta in Hscene, Htr, Hcases.
  rewrite (calls_between_app _ _ _ Htr).
  intros k c message Hk Hc.
  destruct Hcases as [[Hall _] | (pre & last & m & -> & Hlast & Hpre & Hres)].
  - exfalso. rewrite Forall_forall in Hall.
    eapply succeeded_not_thrown; [| exact Hc].
    apply Hall. eapply list_elem_of_lookup_2. exact Hk.
  - destruct (Nat.lt_ge_cases k (length pre)) as [Hlt | Hge].
    + exfalso. rewrite lookup_app_l in Hk by exact Hlt.
      rewrite Forall_forall in Hpre.
      eapply succeeded_not_thrown; [| exact Hc].
      apply Hpre. eapply list_elem_of_lookup_2. exact Hk.
    + assert (Hlen : k < length (pre ++ [last])).
      { eapply lookup_lt_Some. exact Hk. }
      rewrite length_app in Hlen |- *. simpl in Hlen |- *.
      assert (k = length pre) by lia. subst k.
      rewrite lookup_app_r, Nat.sub_diag in Hk by lia. simpl in Hk.
      injection Hk as <-. rewrite Hlast in Hc. injection Hc as <-.
      split; [exact Htr |]. split; [lia |]. split; [exact Hscene |].
      split; [exact Hres |]. repeat split.
Qed.

(** The whole-frame vector path of [exportFrame], in both places where
    the code takes it. *)
Lemma exportFrame_vector scale info frame la dec w :
  rasterLayers la = 0 \/
  (vectorLayers la <> 0 /\
   existsb is_raster_segment (buildFrameSegments (w_scene w) frame) = false) ->
  exportFrame host scale (AnalyzedFrame info frame la dec) w =
  exportVector host scale info frame (stats dec) w.
Proof.
  intros [Hr | [Hv Hseg]]; unfold exportFrame.
  - rewrite Hr. reflexivity.
  - destruct (Nat.ltb 0 (rasterLayers la)); [| reflexivity].
    rewrite (proj2 (Nat.eqb_neq _ _) Hv).
    unfold bind, get_scene. rewrite Hseg. reflexivity.
Qed.

Lemma str_includes_self s : str_includes s s = true.
Proof.
  assert (Hp : String.prefix s s = true).
  { induction s as [|a s IH]; simpl; [reflexivity |].
    destruct (ascii_dec a a); [exact IH | contradiction]. }
  destruct s; simpl in *; [reflexivity | rewrite Hp; reflexivity].
Qed.

Lemma str_includes_cons needle a rest :
  str_includes needle (String a rest) =
  if String.prefix needle (String a rest) then true
  else str_includes needle rest.
Proof. reflexivity. Qed.

Lemma str_includes_append p s : str_includes s (p +:+ s) = true.
Proof.
  induction p as [|a p IH].
  - apply str_includes_self.
  - change (String a p +:+ s) with (String a (p +:+ s)).
    rewrite str_includes_cons, IH.
    destruct (String.prefix s (String a (p +:+ s))); reflexivity.
Qed.

(** C8, as the code has it. On the whole-frame vector path, when the PDF
    export throws and the PNG fallback throws as well, the frame is
    marked failed and its reason is the text 'Both PDF and PNG failed: '
    followed by the message of the PDF error; the message of the PNG
    error is not made part of the reason. *)
Theorem vector_and_fallback_failure (scale : num) (info : frame_info)
    (frame : node) (la : layer_analysis) (dec : decision) (w : world)
    (pdfError pngError : string) :
  rasterLayers la = 0 \/
  (vectorLayers la <> 0 /\
   existsb is_raster_segment (buildFrameSegments (w_scene w) frame) = false) ->
  host (length (w_trace w)) (w_scene w) frame PDF = ExportThrows pdfError ->
  host (S (length (w_trace w))) (w_scene w) frame (PNG scale)
    = ExportThrows pngError ->
  let run := exportFrame host scale (AnalyzedFrame info frame la dec) w in
  let why := "Both PDF and PNG failed: " +:+ pdfError in
  fst run = Normal tt /\
  w_scene (snd run) = w_scene w /\
  w_trace (snd run) =
    w_trace w ++
      [{| call_frame := node_id frame; call_format := PDF;
          call_outcome := ExportThrows pdfError |};
       {| call_frame := node_id frame; call_format := PNG scale;
          call_outcome := ExportThrows pngError |}] /\
  exportResults (snd run) = exportResults w ++ [failed_result info why] /\
  res_skipped (failed_result info why) = true /\
  res_error (failed_result info why) = Some why /\
  str_includes pdfError why = true.
Proof.
  intros Hpath Hpdf Hpng. cbv zeta.
  rewrite (exportFrame_vector scale info frame la dec w Hpath).
  unfold exportVector, try_catch, bind, exportAsync.
  rewrite Hpdf. cbn [w_trace w_scene exportResults].
  rewrite length_app. cbn [length]. rewrite Nat.add_1_r, Hpng.
  unfold push_result. cbn [fst snd w_scene w_trace exportResults].
  rewrite <- app_assoc.
  repeat split; try reflexivity. apply str_includes_append.
Qed.

End Ladder.

End Properties.

(** * The model at work on the concrete scenes *)






(** Witness of C4: the segments of the hybrid frame. *)
Lemma buildFrameSegments_each_node_once_witness :
  NoDup (node_id <$> collectSubtreeNodes hybrid_frame) /\
  let segs := buildFrameSegments demo_scene hybrid_frame in
  (forall m, m ∈ collectSubtreeNodes hybrid_frame ->
             occurrences (node_id m) (segment_nodes segs) <= 1) /\
  (forall m, m ∈ flat_map (visited demo_scene) (node_children hybrid_frame) ->
             nodeHasRenderableSelf demo_scene m = true ->
             occurrences (node_id m) (segment_nodes segs) = 1) /\
  (forall i j s1 s2 m,
      i <> j -> segs !! i = Some s1 -> segs !! j = Some s2 ->
      m ∈ seg_nodes s1 -> node_id m ∉ node_id <$> seg_nodes s2).
Proof.
  assert (Hnd : NoDup (node_id <$> collectSubtreeNodes hybrid_frame)).
  { apply (bool_decide_unpack _). vm_compute. exact I. }
  split; [exact Hnd |].
  exact (buildFrameSegments_each_node_once demo_scene hybrid_frame Hnd).
Defined.

(** The segments of the hybrid frame, computed. *)
Example hybrid_frame_segments :
  buildFrameSegments demo_scene hybrid_frame =
  [{| seg_type := raster; seg_nodes := [blur_child] |};
   {| seg_type := vector; seg_nodes := [text_child] |}].
Proof. reflexivity. Qed.

(** Witness of C6: a snapshot of the hybrid frame, two isolations, and
    the restore. *)
Lemma isolate_then_restore_witness :
  let nodes := collectAllNodes (Some hybrid_frame) in
  let state := captureNodeState demo_scene nodes in
  let isolated :=
    applySegmentState hybrid_frame nodes [text_child] state
      (applySegmentState hybrid_frame nodes [blur_child] state demo_scene) in
  visible (isolated "2:2") = false /\
  forall i, restoreNodeState nodes state isolated i = demo_scene i.
Proof.
  cbv zeta. split; [vm_compute; reflexivity |].
  exact (proj1 (isolate_then_restore demo_scene
                  (collectAllNodes (Some hybrid_frame))
                  [(hybrid_frame, [blur_child]); (hybrid_frame, [text_child])])).
Defined.

(** Witness of C7: on the hybrid frame the background pass succeeds and
    the raster segment, the second call, runs out of memory. *)
Lemma layered_export_aborts_witness :
  let la := analyzeFrameLayers hybrid_frame 0 None in
  let dec := determineExportStrategy [] (Some la) in
  let run := exportFrame second_call_fails demo_scale
               (AnalyzedFrame (demo_info "2:1") hybrid_frame la dec)
               demo_world in
  length (calls_between demo_world (snd run)) = 2 /\
  (forall i, w_scene (snd run) i = demo_scene i) /\
  exportResults (snd run) =
    [failed_result (demo_info "2:1") "Layered export failed: out of memory"].
Proof.
  cbv zeta.
  assert (Hr : 0 < rasterLayers (analyzeFrameLayers hybrid_frame 0 None)).
  { vm_compute. lia. }
  assert (Hv : vectorLayers (analyzeFrameLayers hybrid_frame 0 None) <> 0).
  { vm_compute. discriminate. }
  assert (Hseg : existsb is_raster_segment
                   (buildFrameSegments (w_scene demo_world) hybrid_frame) = true).
  { reflexivity. }
  destruct (@layered_export_aborts ZNumber second_call_fails demo_scale (demo_info "2:1")
              hybrid_frame (analyzeFrameLayers hybrid_frame 0 None)
              (determineExportStrategy []
                 (Some (analyzeFrameLayers hybrid_frame 0 None)))
              demo_world Hr Hv Hseg 1
              {| call_frame := "2:1"; call_format := PNG demo_scale;
                 call_outcome := ExportThrows "out of memory" |}
              "out of memory")
    as (_ & Hlen & Hscene & Hres & _).
  - vm_compute. reflexivity.
  - reflexivity.
  - split; [exact Hlen | split; [exact Hscene | exact Hres]].
Defined.

(** Witness of C8: both formats fail on the drop-shadow frame, which is
    on the whole-frame vector path. *)
Lemma vector_and_fallback_failure_witness :
  let la := analyzeFrameLayers demo_frame 0 None in
  let dec := determineExportStrategy [] (Some la) in
  let run := exportFrame both_formats_fail demo_scale
               (AnalyzedFrame (demo_info "1:1") demo_frame la dec)
               demo_world in
  rasterLayers la = 0 /\
  exportResults (snd run) =
    [failed_result (demo_info "1:1") "Both PDF and PNG failed: vector boom"].
Proof.
  cbv zeta. split; [reflexivity |].
  exact (proj1 (proj2 (proj2 (proj2
           (@vector_and_fallback_failure ZNumber both_formats_fail demo_scale
              (demo_info "1:1") demo_frame
              (analyzeFrameLayers demo_frame 0 None)
              (determineExportStrategy []
                 (Some (analyzeFrameLayers demo_frame 0 None)))
              demo_world "vector boom" "raster boom"
              (or_introl eq_refl) eq_refl eq_refl))))).
Defined.

(** Counterexample to C8 as stated: the PDF export fails with 'vector
    boom', the PNG fallback with 'raster boom', and the reason of the
    failed frame contains the first message but not the second. *)
Lemma failure_reason_lacks_png_message :
  let la := analyzeFrameLayers demo_frame 0 None in
  let dec := determineExportStrategy [] (Some la) in
  let run := exportFrame both_formats_fail demo_scale
               (AnalyzedFrame (demo_info "1:1") demo_frame la dec)
               demo_world in
  List.map call_outcome (w_trace (snd run)) =
    [ExportThrows "vector boom"; ExportThrows "raster boom"] /\
  exists entry why,
    exportResults (snd run) = [entry] /\
    res_skipped entry = true /\
    res_error entry = Some why /\
    str_includes "vector boom" why = true /\
    str_includes "raster boom" why = false.
Proof.
  cbv zeta. split; [reflexivity |].
  exists (failed_result (demo_info "1:1") "Both PDF and PNG failed: vector boom"),
         "Both PDF and PNG failed: vector boom".
  repeat split; reflexivity.
Qed.

(** Witness of C9: the buffer [demo_pdf], and its first 99 bytes. *)
Lemma validatePDFData_roundtrip_witness :
  100 <= length demo_pdf /\
  isValid (validatePDFData (Some demo_pdf) "Cover") = true /\
  isValid (validatePDFData (Some (firstn 99 demo_pdf)) "Cover") = false.
Proof.
  destruct (validatePDFData_roundtrip "Cover") as (_ & Hshort & Hvalid).
  assert (Hlen : 100 <= length demo_pdf) by (vm_compute; lia).
  split; [exact Hlen | split].
  - apply (Hvalid demo_pdf Hlen); vm_compute; reflexivity.
  - apply (Hshort (firstn 99 demo_pdf)). vm_compute. lia.
Defined.

(** The validation of [demo_pdf] raises no error and no warning. *)
Example demo_pdf_validation :
  validatePDFData (Some demo_pdf) "Cover" =
  {| isValid := true; errors := []; warnings := [] |}.
Proof. vm_compute. reflexivity. Qed.


(** Without a range query the result is the bounds of the node. *)
Example text_bounds_fallback :
  getTextRangeBounds (make_node "1:4" "TEXT" None None false []) "1:1" 0 4 =
  [{| rect_x := 0%Z; rect_y := 0%Z; rect_width := 100%Z;
      rect_height := 50%Z |}].
Proof. reflexivity. Qed.

(** Witness of C5 over the integers: the three frames. *)
Lemma greedy_packing_within_budget_witness :
  exists groups : list (list frame_estimate),
    planBatches three_frames = List.map (List.map est_frame) groups /\
    concat groups = three_frames /\
    Forall (within_budget estimatedBytes SAFE_MEMORY_LIMIT) groups.
Proof.
  exact (proj1 (@greedy_packing_within_budget ZNumber three_frames [])).
Defined.

(** The batching scenario of the specification: three frames of 167MB
    against the 400MB budget give two batches, the first two frames and
    the third alone. *)
Example three_frames_two_batches :
  batchPlan three_frames =
  Some [[demo_info "5:1"; demo_info "5:2"]; [demo_info "5:3"]].
Proof. vm_compute. reflexivity. Qed.

(** A whole export: the drop-shadow frame goes out as one PDF, the hybrid
    frame as a background and two segments, and the frame that cannot be
    resolved is reported as failed. *)
Example export_of_three_frames :
  fst (performVectorExport always_exports demo_lookup
         [demo_info "1:1"; demo_info "2:1"; demo_info "9:9"]
         demo_scale demo_scene) =
  MergeVectorPdfs
    [pdf_result (demo_info "1:1") [x25; x50; x44; x46]
       (Some {| stats_vectorLayers := 3; stats_rasterLayers := 0;
                stats_total := 3 |});
     segments_result (demo_info "2:1")
       [{| sx_type := "vector"; sx_pdfData := Some [x25; x50; x44; x46];
           sx_pngData := None; sx_reason := Some "frame background" |};
        {| sx_type := "png"; sx_pdfData := None;
           sx_pngData := Some [x25; x50; x44; x46]; sx_reason := None |};
        {| sx_type := "vector"; sx_pdfData := Some [x25; x50; x44; x46];
           sx_pngData := None; sx_reason := None |}]
       (Some {| stats_vectorLayers := 2; stats_rasterLayers := 1;
                stats_total := 3 |})]
    [failed_result (demo_info "9:9") "Frame not found or invalid type"].
Proof. vm_compute. reflexivity. Qed.

(** When the only frame fails, the export ends with the error message. *)
Example export_without_success :
  fst (performVectorExport second_call_fails demo_lookup [demo_info "2:1"]
         demo_scale demo_scene) =
  ErrorMessage "No frames could be exported. Try using Rasterized mode.".
Proof. vm_compute. reflexivity. Qed.

(** * Further properties of the code *)

Section MoreProperties.
Context `{JSNumber}.

Abbreviation ids l := (node_id <$> l).

(** ** Subtree collection *)

(** X1. [collectAllNodes] of a missing root is empty; [collectAllNodes]
    and [collectSubtreeNodes] list a subtree in pre-order: the node
    itself first, then the subtrees of its children from the first to the
    last, so that the list has as many entries as the subtree has nodes
    and contains every child's whole list. *)
Theorem collect_nodes_in_preorder (n : node) :
  collectAllNodes None = [] /\
  collectAllNodes (Some n) = collectSubtreeNodes n /\
  collectSubtreeNodes n =
    n :: flat_map collectSubtreeNodes (node_children n) /\
  length (collectSubtreeNodes n) = tree_size n.
Proof.
  split; [reflexivity | split; [reflexivity | split]].
  - rewrite collectSubtreeNodes_preorder, preorder_unfold. f_equal.
    apply flat_map_ext. intros c. symmetry. apply collectSubtreeNodes_preorder.
  - rewrite collectSubtreeNodes_preorder.
    induction n as [n IH] using node_children_ind.
    rewrite preorder_unfold, tree_size_unfold. cbn [length]. f_equal.
    induction IH as [|c cs Hc _ IHcs]; simpl; [reflexivity |].
    rewrite length_app, Hc, IHcs. reflexivity.
Qed.

(** ** Layer analysis *)

Lemma scan_effects_fold effs : forall s,
  let s' := fold_left scan_effect effs s in
  layerNeedsRaster s' =
    (layerNeedsRaster s ||
     existsb (fun e => not_false (effect_visible e) &&
                       includes MUST_RASTERIZE_EFFECTS (effect_type e)) effs) /\
  scan_critical s' =
    (scan_critical s ||
     existsb (fun e => not_false (effect_visible e) &&
                       includes MUST_RASTERIZE_EFFECTS (effect_type e)) effs).
Proof.
  induction effs as [|e effs IH]; intros s; cbn [fold_left existsb].
  - rewrite !orb_false_r. split; reflexivity.
  - specialize (IH (scan_effect s e)). cbv zeta in IH.
    destruct IH as (Hn & Hc). rewrite Hn, Hc. clear Hn Hc.
    unfold scan_effect.
    destruct (not_false (effect_visible e)); cbn [andb orb]; [| split; reflexivity].
    destruct (includes MUST_RASTERIZE_EFFECTS (effect_type e));
      cbn [layerNeedsRaster scan_critical orb].
    + rewrite !orb_true_r. split; reflexivity.
    + destruct (includes SHOULD_RASTERIZE_EFFECTS (effect_type e));
        cbn [layerNeedsRaster scan_critical orb]; split; reflexivity.
Qed.

Lemma scan_layer_verdict n critical :
  layerNeedsRaster (scan_layer n critical) = analysis_raster n /\
  scan_critical (scan_layer n critical) = (critical || has_critical_effect n).
Proof.
  unfold scan_layer, analysis_raster, has_critical_effect.
  destruct (has_effects n) eqn:He.
  - destruct (scan_effects_fold (effects_of n)
                {| layerNeedsRaster := false; scan_critical := critical;
                   layerIssues := [] |}) as (Hn & Hc).
    cbv zeta in Hn, Hc. cbn [layerNeedsRaster scan_critical orb] in Hn, Hc.
    destruct (has_problematic_blend n), (node_isMask n);
      cbn [andb orb layerNeedsRaster scan_critical];
      rewrite ?Hn, ?Hc, ?orb_true_r, ?orb_false_r; split; reflexivity.
  - destruct (has_problematic_blend n), (node_isMask n);
      cbn [andb orb layerNeedsRaster scan_critical];
      rewrite ?orb_false_r; split; reflexivity.
Qed.

Lemma analyze_layer_tally n depth r :
  let r' := analyze_layer n depth r in
  totalLayers r' = totalLayers r + 1 /\
  rasterLayers r' = rasterLayers r + (if analysis_raster n then 1 else 0) /\
  vectorLayers r' = vectorLayers r + (if analysis_raster n then 0 else 1) /\
  hasCriticalEffects r' = (hasCriticalEffects r || has_critical_effect n).
Proof.
  cbv zeta. unfold analyze_layer.
  destruct (scan_layer_verdict n (hasCriticalEffects r)) as [Hv Hc].
  rewrite Hv. destruct (analysis_raster n).
  - cbn [totalLayers rasterLayers vectorLayers hasCriticalEffects].
    rewrite Hc. repeat split; lia.
  - destruct (layerIssues (scan_layer n (hasCriticalEffects r)));
      cbn [totalLayers rasterLayers vectorLayers hasCriticalEffects];
      rewrite Hc; repeat split; lia.
Qed.

(** The tallies of an analysis that started from [r] and went through the
    layers [l]. *)
Lemma tally_app (r r1 r2 : layer_analysis) (l1 l2 : list node) :
  (totalLayers r1 = totalLayers r + length l1 /\
   rasterLayers r1 = rasterLayers r + length (List.filter analysis_raster l1) /\
   vectorLayers r1 = vectorLayers r +
     length (List.filter (fun n => negb (analysis_raster n)) l1) /\
   hasCriticalEffects r1 = (hasCriticalEffects r || existsb has_critical_effect l1)) ->
  (totalLayers r2 = totalLayers r1 + length l2 /\
   rasterLayers r2 = rasterLayers r1 + length (List.filter analysis_raster l2) /\
   vectorLayers r2 = vectorLayers r1 +
     length (List.filter (fun n => negb (analysis_raster n)) l2) /\
   hasCriticalEffects r2 = (hasCriticalEffects r1 || existsb has_critical_effect l2)) ->
  totalLayers r2 = totalLayers r + length (l1 ++ l2) /\
  rasterLayers r2 = rasterLayers r + length (List.filter analysis_raster (l1 ++ l2)) /\
  vectorLayers r2 = vectorLayers r +
    length (List.filter (fun n => negb (analysis_raster n)) (l1 ++ l2)) /\
  hasCriticalEffects r2 = (hasCriticalEffects r || existsb has_critical_effect (l1 ++ l2)).
Proof.
  intros (A1 & A2 & A3 & A4) (B1 & B2 & B3 & B4).
  rewrite !List.filter_app, !length_app, existsb_app, B1, B2, B3, B4, A1, A2, A3, A4.
  rewrite orb_assoc. repeat split; lia.
Qed.

Lemma analyzeFrameLayers_tally n : forall depth r,
  let r' := analyzeFrameLayers n depth (Some r) in
  let l := List.filter is_layer (preorder n) in
  totalLayers r' = totalLayers r + length l /\
  rasterLayers r' = rasterLayers r + length (List.filter analysis_raster l) /\
  vectorLayers r' = vectorLayers r +
    length (List.filter (fun n => negb (analysis_raster n)) l) /\
  hasCriticalEffects r' = (hasCriticalEffects r || existsb has_critical_effect l).
Proof.
  induction n as [n IH] using node_children_ind. intros depth r. cbv zeta.
  rewrite analyzeFrameLayers_unfold. cbv zeta.
  set (r1 := if is_layer n then analyze_layer n depth r else r).
  set (r2 := fold_left _ (node_children n) r1).
  assert (Hfinal : forall x : layer_analysis,
            totalLayers (if Nat.eqb depth 0 then set_strategy x else x) = totalLayers x /\
            rasterLayers (if Nat.eqb depth 0 then set_strategy x else x) = rasterLayers x /\
            vectorLayers (if Nat.eqb depth 0 then set_strategy x else x) = vectorLayers x /\
            hasCriticalEffects (if Nat.eqb depth 0 then set_strategy x else x)
              = hasCriticalEffects x).
  { intros x. destruct (Nat.eqb depth 0); repeat split. }
  destruct (Hfinal r2) as (F1 & F2 & F3 & F4). rewrite F1, F2, F3, F4.
  clear Hfinal F1 F2 F3 F4.
  rewrite preorder_unfold.
  change (List.filter is_layer (n :: flat_map preorder (node_children n)))
    with (List.filter is_layer ([n] ++ flat_map preorder (node_children n))).
  rewrite List.filter_app.
  apply (tally_app r r1 r2).
  - unfold r1. cbn [List.filter]. destruct (is_layer n).
    + destruct (analyze_layer_tally n depth r) as (T1 & T2 & T3 & T4).
      cbn [List.filter existsb length]. rewrite T1, T2, T3, T4.
      destruct (analysis_raster n); cbn [negb length]; rewrite orb_false_r;
        repeat split; lia.
    + cbn [List.filter existsb length]. rewrite orb_false_r. repeat split; lia.
  - unfold r2. clearbody r1. clear r2. revert r1.
    induction IH as [|c cs Hc _ IHcs]; intros r1; cbn [fold_left flat_map].
    + cbn [List.filter existsb length]. rewrite orb_false_r. repeat split; lia.
    + rewrite List.filter_app.
      apply (tally_app r1 (analyzeFrameLayers c (S depth) (Some r1))).
      * apply Hc.
      * apply IHcs.
Qed.

(** X2. The analysis visits every node of the subtree, whatever the
    verdict on its ancestors: [totalLayers] is the number of nodes whose
    type is neither DOCUMENT nor PAGE; [rasterLayers] counts those with a
    visible LAYER_BLUR or BACKGROUND_BLUR, a listed blend mode, or a mask
    with effects, [vectorLayers] all the others; and
    [hasCriticalEffects] says whether some layer has a visible LAYER_BLUR
    or BACKGROUND_BLUR. *)
Theorem analyzeFrameLayers_counts_layers (root : node) :
  let la := analyzeFrameLayers root 0 None in
  totalLayers la = length (layers_of root) /\
  rasterLayers la = length (List.filter analysis_raster (layers_of root)) /\
  vectorLayers la =
    length (List.filter (fun n => negb (analysis_raster n)) (layers_of root)) /\
  hasCriticalEffects la = existsb has_critical_effect (layers_of root).
Proof.
  cbv zeta. rewrite analyzeFrameLayers_root.
  exact (analyzeFrameLayers_tally root 0 fresh_results).
Qed.

(** X3. The planner is at least as strict as the analysis: a layer the
    analysis counts as raster is always rasterized by [nodeNeedsRaster],
    and the only nodes [nodeNeedsRaster] rasterizes besides are those
    with a visible DROP_SHADOW or INNER_SHADOW. *)
Theorem planner_covers_analysis (n : node) (critical : bool) :
  nodeNeedsRaster n =
    (layerNeedsRaster (scan_layer n critical) || has_shadow_effect n) /\
  (layerNeedsRaster (scan_layer n critical) = true -> nodeNeedsRaster n = true).
Proof.
  assert (Heq : nodeNeedsRaster n =
                (layerNeedsRaster (scan_layer n critical) || has_shadow_effect n)).
  { destruct (scan_layer_verdict n critical) as [Hv _]. rewrite Hv.
    unfold nodeNeedsRaster, analysis_raster, has_critical_effect,
      has_shadow_effect.
    assert (Hsplit : existsb (fun e => not_false (effect_visible e) &&
                                includes RASTERIZE_EFFECTS (effect_type e))
                             (effects_of n) =
                     (existsb (fun e => not_false (effect_visible e) &&
                                includes MUST_RASTERIZE_EFFECTS (effect_type e))
                              (effects_of n) ||
                      existsb (fun e => not_false (effect_visible e) &&
                                includes SHOULD_RASTERIZE_EFFECTS (effect_type e))
                              (effects_of n))).
    { induction (effects_of n) as [|e l IH]; cbn [existsb]; [reflexivity |].
      rewrite IH. unfold RASTERIZE_EFFECTS, includes. rewrite existsb_app.
      destruct (not_false (effect_visible e)),
               (existsb (String.eqb (effect_type e)) MUST_RASTERIZE_EFFECTS),
               (existsb (String.eqb (effect_type e)) SHOULD_RASTERIZE_EFFECTS),
               (existsb _ l), (existsb _ l); reflexivity. }
    rewrite Hsplit. clear Hsplit.
    set (must := existsb (fun e => not_false (effect_visible e) &&
                            includes MUST_RASTERIZE_EFFECTS (effect_type e))
                         (effects_of n)).
    set (should := existsb (fun e => not_false (effect_visible e) &&
                              includes SHOULD_RASTERIZE_EFFECTS (effect_type e))
                           (effects_of n)).
    destruct (has_effects n), must, should, (has_problematic_blend n),
             (node_isMask n); reflexivity. }
  split; [exact Heq |].
  intros Hr. rewrite Heq, Hr. reflexivity.
Qed.

(** X4. The decision taken from the analysis of a subtree, whatever the
    old-format issue list: 'vector' exactly when no layer is raster,
    'png' exactly when some layer is raster and either none is vector or
    a critical effect was seen, 'vector-with-fallback' in the remaining
    case; the stats repeat the two counts, and their total is
    [totalLayers]. *)
Theorem decision_from_analysis (root : node) (issues : list flat_issue) :
  let la := analyzeFrameLayers root 0 None in
  let d := determineExportStrategy issues (Some la) in
  (strategy d = "vector" <-> rasterLayers la = 0) /\
  (strategy d = "png" <->
     rasterLayers la <> 0 /\
     (vectorLayers la = 0 \/ hasCriticalEffects la = true)) /\
  (strategy d = "vector-with-fallback" <->
     rasterLayers la <> 0 /\ vectorLayers la <> 0 /\
     hasCriticalEffects la = false) /\
  stats d = Some {| stats_vectorLayers := vectorLayers la;
                    stats_rasterLayers := rasterLayers la;
                    stats_total := totalLayers la |}.
Proof.
  intros la d.
  pose proof (analyzeFrameLayers_strategy root None) as Hs. cbv zeta in Hs.
  fold la in Hs.
  pose proof (analyzeFrameLayers_counts root 0 fresh_results) as [Hc _].
  rewrite <- analyzeFrameLayers_root in Hc. fold la in Hc.
  unfold counts_extend in Hc. simpl in Hc.
  assert (Htot : totalLayers la = vectorLayers la + rasterLayers la) by lia.
  unfold d, determineExportStrategy. rewrite Hs, Htot.
  destruct (Nat.eqb (rasterLayers la) 0) eqn:Er;
    [apply Nat.eqb_eq in Er | apply Nat.eqb_neq in Er].
  - cbn [String.eqb Ascii.eqb Bool.eqb andb strategy stats].
    repeat split; intros; try discriminate; try lia; try reflexivity;
      try (exfalso; tauto).
  - destruct (Nat.eqb (vectorLayers la) 0) eqn:Ev;
      [apply Nat.eqb_eq in Ev | apply Nat.eqb_neq in Ev].
    + cbn [String.eqb Ascii.eqb Bool.eqb andb strategy stats].
      repeat split; intros; try discriminate; try lia; try reflexivity;
        try tauto.
    + cbn [String.eqb Ascii.eqb Bool.eqb andb].
      destruct (hasCriticalEffects la); cbn [strategy stats];
        repeat split; intros; try discriminate; try lia; try reflexivity;
        try tauto; try (exfalso; intuition congruence).
Qed.

(** ** Isolation of a segment *)

Lemma isolate_node_spec rs ss state sc n j :
  isolate_node rs ss state sc n j =
  if String.eqb j (node_id n) then isolation_of rs ss state j (sc j) else sc j.
Proof.
  destruct (String.eqb j (node_id n)) eqn:E.
  - apply String.eqb_eq in E. subst j.
    unfold isolate_node, isolation_of, set_visible, set_fills, set_strokes.
    cbv zeta.
    destruct (sc (node_id n)) as [v f k] eqn:Esc.
    destruct f as [[|lf]|], k as [[|lk]|];
      destruct (bool_decide (node_id n ∈ rs));
      destruct (st_fills state !! node_id n), (st_strokes state !! node_id n);
      repeat (rewrite ?set_props_same; cbn [visible fills strokes writable]);
      try reflexivity.
  - apply isolate_node_other. intros ->. rewrite String.eqb_refl in E. discriminate.
Qed.

Lemma isolation_of_idem rs ss state i p :
  isolation_of rs ss state i (isolation_of rs ss state i p) =
  isolation_of rs ss state i p.
Proof.
  unfold isolation_of. cbn [visible fills strokes].
  destruct p as [v [[|lf]|] [[|lk]|]]; cbn [visible fills strokes writable];
    destruct (bool_decide (i ∈ rs));
    destruct (st_fills state !! i) as [[|f]|],
             (st_strokes state !! i) as [[|k]|];
    cbn [writable]; reflexivity.
Qed.

Lemma isolate_fold_spec rs ss state nodes : forall sc j,
  fold_left (isolate_node rs ss state) nodes sc j =
  if bool_decide (j ∈ ids nodes) then isolation_of rs ss state j (sc j) else sc j.
Proof.
  induction nodes as [|n nodes IH]; intros sc j; cbn [fold_left].
  - rewrite fmap_nil, bool_decide_eq_false_2 by apply not_elem_of_nil.
    reflexivity.
  - rewrite IH, isolate_node_spec, fmap_cons.
    destruct (String.eqb j (node_id n)) eqn:E.
    + apply String.eqb_eq in E. subst j.
      rewrite (bool_decide_eq_true_2 (node_id n ∈ node_id n :: ids nodes))
        by left.
      destruct (bool_decide (node_id n ∈ ids nodes));
        [apply isolation_of_idem | reflexivity].
    + assert (Hiff : bool_decide (j ∈ node_id n :: ids nodes)
                     = bool_decide (j ∈ ids nodes)).
      { apply bool_decide_ext. rewrite elem_of_cons. split; [| tauto].
        intros [-> | Hin]; [| exact Hin].
        rewrite String.eqb_refl in E. discriminate. }
      rewrite Hiff. reflexivity.
Qed.

Lemma renderSet_of_elem segmentNodes i :
  i ∈ renderSet_of segmentNodes <-> i ∈ ids segmentNodes.
Proof.
  unfold renderSet_of.
  assert (Hgen : forall (acc : gset string),
            i ∈ fold_left (fun s n => {[ node_id n ]} ∪ s) segmentNodes acc <->
            i ∈ acc \/ i ∈ ids segmentNodes).
  { induction segmentNodes as [|n l IH]; intros acc; cbn [fold_left].
    - rewrite fmap_nil, elem_of_nil. tauto.
    - rewrite IH, fmap_cons, elem_of_cons, elem_of_union, elem_of_singleton.
      tauto. }
  rewrite Hgen. rewrite elem_of_empty. tauto.
Qed.

Lemma chain_fold_elem (chain : list parent_ref) : forall (acc : gset string) i,
  i ∈ fold_left (fun s a => {[ parent_id a ]} ∪ s) chain acc <->
  i ∈ acc \/ i ∈ parent_id <$> chain.
Proof.
  induction chain as [|a l IH]; intros acc i; cbn [fold_left].
  - rewrite fmap_nil, elem_of_nil. tauto.
  - rewrite IH, fmap_cons, elem_of_cons, elem_of_union, elem_of_singleton.
    tauto.
Qed.

Lemma showSet_of_elem frame segmentNodes i :
  i ∈ showSet_of frame segmentNodes <-> shown_by frame segmentNodes i.
Proof.
  unfold showSet_of, shown_by.
  assert (Hgen : forall (acc : gset string),
            i ∈ fold_left
                  (fun s n =>
                     fold_left (fun s' a => {[ parent_id a ]} ∪ s')
                               (getAncestorChain n (Some frame))
                               ({[ node_id n ]} ∪ s))
                  segmentNodes acc <->
            i ∈ acc \/
            exists n, n ∈ segmentNodes /\
              (i = node_id n \/ i ∈ parent_id <$> getAncestorChain n (Some frame))).
  { induction segmentNodes as [|n l IH]; intros acc; cbn [fold_left].
    - split; [intros Hi; left; exact Hi |].
      intros [Hi | (n & Hn & _)]; [exact Hi |].
      apply elem_of_nil in Hn. contradiction.
    - rewrite IH, chain_fold_elem, elem_of_union, elem_of_singleton. split.
      + intros [[[-> | Hacc] | Hch] | (m & Hm & Hi)].
        * right. exists n. split; [left | left; reflexivity].
        * left. exact Hacc.
        * right. exists n. split; [left | right; exact Hch].
        * right. exists m. split; [right; exact Hm | exact Hi].
      + intros [Hacc | (m & Hm & Hi)]; [left; left; right; exact Hacc |].
        apply elem_of_cons in Hm as [-> | Hm].
        * destruct Hi as [-> | Hch]; [left; left; left; reflexivity |].
          left. right. exact Hch.
        * right. exists m. split; assumption. }
  rewrite Hgen, elem_of_empty. tauto.
Qed.

Lemma getAncestorChain_frame_last n frame :
  node_id frame ∈ parent_id <$> getAncestorChain n (Some frame).
Proof.
  unfold getAncestorChain. rewrite fmap_app, elem_of_app. right.
  cbn. left.
Qed.

(** X5. What [applySegmentState] does to the scene.  Nodes outside the
    node list are untouched.  A node of the list ends up visible exactly
    when the snapshot does not record it as hidden and it is a segment
    node or one of the ancestors of a segment node up to the frame, the
    frame included.  Its fills, when they are an array, become the empty
    array if it is not a segment node and the snapshot value if it is
    one (left alone when the snapshot has none); mixed or missing fills
    are left alone; and the same for strokes. *)
Theorem applySegmentState_isolates (frame : node)
    (nodes segmentNodes : list node) (state : node_state) (sc : scene)
    (i : string) :
  let sc' := applySegmentState frame nodes segmentNodes state sc in
  (i ∉ ids nodes -> sc' i = sc i) /\
  (i ∈ ids nodes ->
     (visible (sc' i) = true <->
        st_visibility state !! i <> Some false /\
        shown_by frame segmentNodes i) /\
     (forall l, fills (sc i) = Some (PaintArray l) ->
        fills (sc' i) =
          if bool_decide (i ∈ ids segmentNodes)
          then match st_fills state !! i with
               | Some f => Some f
               | None => Some (PaintArray l)
               end
          else Some (PaintArray [])) /\
     (forall l, strokes (sc i) = Some (PaintArray l) ->
        strokes (sc' i) =
          if bool_decide (i ∈ ids segmentNodes)
          then match st_strokes state !! i with
               | Some f => Some f
               | None => Some (PaintArray l)
               end
          else Some (PaintArray [])) /\
     (writable (fills (sc i)) = None -> fills (sc' i) = fills (sc i)) /\
     (writable (strokes (sc i)) = None -> strokes (sc' i) = strokes (sc i))) /\
  (forall n, n ∈ segmentNodes ->
     shown_by frame segmentNodes (node_id n) /\
     shown_by frame segmentNodes (node_id frame)).
Proof.
  cbv zeta. unfold applySegmentState. rewrite isolate_fold_spec.
  split; [| split].
  - intros Hni. rewrite bool_decide_eq_false_2 by exact Hni. reflexivity.
  - intros Hin. rewrite bool_decide_eq_true_2 by exact Hin.
    assert (Hrs : bool_decide (i ∈ renderSet_of segmentNodes)
                  = bool_decide (i ∈ ids segmentNodes)).
    { apply bool_decide_ext, renderSet_of_elem. }
    unfold isolation_of. cbn [visible fills strokes]. rewrite Hrs.
    split; [| split; [| split; [| split]]].
    + rewrite andb_true_iff, bool_decide_eq_true, showSet_of_elem.
      destruct (st_visibility state !! i) as [[|]|]; split;
        intros [Ha Hb]; split; try congruence; try reflexivity; try assumption.
    + intros l Hl. rewrite Hl. cbn [writable]. reflexivity.
    + intros l Hl. rewrite Hl. cbn [writable]. reflexivity.
    + intros Hw. rewrite Hw. reflexivity.
    + intros Hw. rewrite Hw. reflexivity.
  - intros n Hn. split; exists n; (split; [exact Hn |]).
    + left. reflexivity.
    + right. apply getAncestorChain_frame_last.
Qed.

(** ** PDF validation *)

Lemma push_if_length cond msg l :
  length (push_if cond msg l) <= S (length l).
Proof. destruct cond; simpl; [rewrite length_app; simpl |]; lia. Qed.

(** X6. The verdict of [validatePDFData] in full.  The result is valid
    exactly when it carries no error, and exactly when the buffer is
    present, has at least 100 bytes, starts with %PDF and shows neither
    'undefined' nor 'NaN' in its first 2000 bytes.  An invalid result
    carries exactly one error; a result carries at most three warnings,
    and none at all when the buffer is missing, too short or has the
    wrong header. *)
Theorem validatePDFData_verdict_iff (pdfData : option bytes) (name : string) :
  let v := validatePDFData pdfData name in
  (isValid v = true <-> errors v = []) /\
  (isValid v = true <->
     exists data, pdfData = Some data /\ 100 <= length data /\
       String.prefix "%PDF" (fromCharCodes (firstn 5 data)) = true /\
       str_includes "undefined" (fromCharCodes (firstn 2000 data)) = false /\
       str_includes "NaN" (fromCharCodes (firstn 2000 data)) = false) /\
  (isValid v = false -> length (errors v) = 1) /\
  length (warnings v) <= 3 /\
  ((forall data, pdfData = Some data ->
      length data < 100 \/
      String.prefix "%PDF" (fromCharCodes (firstn 5 data)) = false) ->
   warnings v = []).
Proof.
  cbv zeta. destruct pdfData as [data|].
  - unfold validatePDFData.
    destruct (Nat.ltb (length data) 100) eqn:Elen;
      [apply Nat.ltb_lt in Elen | apply Nat.ltb_ge in Elen].
    { cbn [isValid errors warnings length].
      split; [split; discriminate |]. split; [| split; [| split]].
      - split; [discriminate |]. intros (d & [= <-] & Hd & _). lia.
      - reflexivity.
      - lia.
      - reflexivity. }
    destruct (String.prefix "%PDF" (fromCharCodes (firstn 5 data))) eqn:Emagic;
      cbn [negb].
    2:{ cbn [isValid errors warnings length].
        split; [split; discriminate |]. split; [| split; [| split]].
        - split; [discriminate |]. intros (d & [= <-] & _ & Hd & _). congruence.
        - reflexivity.
        - lia.
        - reflexivity. }
    cbv zeta. cbn [isValid errors warnings].
    rewrite slice_from_start, firstn_min_length.
    destruct (str_includes "undefined" (fromCharCodes (firstn 2000 data))) eqn:Eu,
             (str_includes "NaN" (fromCharCodes (firstn 2000 data))) eqn:En;
      cbn [orb negb push_if app length];
      (split; [split; congruence |]);
      (split; [split; [try discriminate; intros _; exists data; auto
                      | try reflexivity;
                        intros (d & [= <-] & _ & _ & Hu & Hn); congruence] |]);
      (split; [try reflexivity; discriminate |]);
      split.
    1,3,5,7:
      match goal with
      | |- length (push_if ?c3 ?m3 (push_if ?c2 ?m2 (push_if ?c1 ?m1 []))) <= 3 =>
          pose proof (push_if_length c3 m3 (push_if c2 m2 (push_if c1 m1 [])));
          pose proof (push_if_length c2 m2 (push_if c1 m1 []));
          pose proof (push_if_length c1 m1 [])
      end; simpl in *; lia.
    all: intros Hbad; destruct (Hbad data eq_refl); [lia | congruence].
  - cbn [validatePDFData isValid errors warnings length].
    split; [split; discriminate |]. split; [| split; [| split]].
    + split; [discriminate |]. intros (d & Hd & _). discriminate.
    + reflexivity.
    + lia.
    + reflexivity.
Qed.

(** ** Greedy packing, continued *)

Section PackingCounts.
Variable A : Type.
Variable size : A -> num.
Variable limit : num.

Lemma pack_step_current_nonempty st item :
  current (pack_step A size limit st item) <> [].
Proof.
  unfold pack_step.
  destruct (negb (is_empty (current st)) &&
            num_gt (num_add (currentSize st) (size item)) limit);
    cbn [current]; [discriminate | destruct (current st); discriminate].
Qed.

Lemma pack_step_packed_grows st item :
  packed st <> [] -> packed (pack_step A size limit st item) <> [].
Proof.
  intros Hne. unfold pack_step.
  destruct (negb (is_empty (current st)) &&
            num_gt (num_add (currentSize st) (size item)) limit);
    cbn [packed]; [destruct (packed st); [contradiction | discriminate] | exact Hne].
Qed.

(** Two or more items whose summed size exceeds the limit are never left
    in one group. *)
Lemma pack_splits items :
  2 <= length items ->
  num_gt (summed (List.map size items)) limit = true ->
  2 <= length (pack_finish A (fold_left (pack_step A size limit) items
                                        (pack_start A))).
Proof.
  intros Hlen Hgt.
  destruct (exists_last (l := items)) as (pre & e & ->).
  { intros ->. simpl in Hlen. lia. }
  rewrite length_app in Hlen. simpl in Hlen.
  rewrite fold_left_app. cbn [fold_left].
  destruct (pack_fold_invariant A size limit pre [] (pack_start A)
              (pack_invariant_start A size limit)) as (Hcat & _ & Hsize & _).
  simpl in Hcat.
  set (st := fold_left (pack_step A size limit) pre (pack_start A)) in *.
  assert (Hpacked : packed (pack_step A size limit st e) <> []).
  { destruct (packed st) as [|g gs] eqn:Ep.
    - simpl in Hcat. unfold pack_step.
      assert (Hcur : current st <> []).
      { rewrite Hcat. destruct pre; [simpl in Hlen; lia | discriminate]. }
      rewrite map_app in Hgt. change (List.map size [e]) with [size e] in Hgt.
      rewrite summed_snoc in Hgt.
      rewrite Hsize, Hcat, Hgt. rewrite Hcat in Hcur.
      destruct pre; [contradiction |].
      cbn [is_empty negb andb packed]. rewrite Ep. discriminate.
    - apply pack_step_packed_grows. rewrite Ep. discriminate. }
  pose proof (pack_step_current_nonempty st e) as Hcur.
  unfold pack_finish.
  destruct (current (pack_step A size limit st e)); [contradiction |].
  cbn [is_empty negb]. rewrite length_app. simpl.
  destruct (packed (pack_step A size limit st e)); [contradiction |].
  simpl. lia.
Qed.

End PackingCounts.

Lemma totalEstimatedMemory_summed estimates :
  totalEstimatedMemory estimates = summed (List.map estimatedBytes estimates).
Proof.
  unfold totalEstimatedMemory, summed.
  generalize (num_lit 0). induction estimates as [|e l IH]; intros a; simpl.
  - reflexivity.
  - apply IH.
Qed.

(** X7. The packers do split when they must.  A batch plan is made only
    when the total estimate exceeds the 400MB limit, and for two or more
    frames it then has at least two batches; likewise two or more export
    results whose summed size exceeds the 20MB ceiling go out in at
    least two chunks. *)
Theorem packers_split_when_over_budget
    (estimates : list frame_estimate) (results : list export_result) :
  (forall batches,
     batchPlan estimates = Some batches ->
     num_gt (totalEstimatedMemory estimates) SAFE_MEMORY_LIMIT = true /\
     batches = planBatches estimates /\
     (2 <= length estimates -> 2 <= length batches)) /\
  (batchPlan estimates = None <->
   num_gt (totalEstimatedMemory estimates) SAFE_MEMORY_LIMIT = false) /\
  (2 <= length results ->
   num_gt (summed (List.map estimateExportBytes results)) MAX_CHUNK_BYTES = true ->
   2 <= length (planChunks results)).
Proof.
  split; [| split].
  - intros batches Hplan. unfold batchPlan in Hplan.
    destruct (num_gt (totalEstimatedMemory estimates) SAFE_MEMORY_LIMIT) eqn:E;
      [| discriminate].
    injection Hplan as <-. split; [reflexivity | split; [reflexivity |]].
    intros Hlen. rewrite planBatches_pack, length_map.
    apply pack_splits; [exact Hlen |].
    rewrite <- totalEstimatedMemory_summed. exact E.
  - unfold batchPlan.
    destruct (num_gt (totalEstimatedMemory estimates) SAFE_MEMORY_LIMIT);
      split; congruence.
  - intros Hlen Hgt. rewrite planChunks_pack. apply pack_splits; assumption.
Qed.

(** ** The export ladder, continued *)

Section LadderCoverage.
Variable host : nat -> scene -> node -> export_format -> export_outcome.
Variable getNodeById : string -> option node.

(** What the two whole-frame ladders do, call by call. *)
Lemma whole_frame_ladder_runs (scale : num) (info : frame_info) (frame : node)
    (st : option layer_stats) (w : world) :
  let pdf := host (length (w_trace w)) (w_scene w) frame PDF in
  let png_first := host (length (w_trace w)) (w_scene w) frame (PNG scale) in
  let png_second := host (S (length (w_trace w))) (w_scene w) frame (PNG scale) in
  let call fmt out := {| call_frame := node_id frame; call_format := fmt;
                         call_outcome := out |} in
  exportVector host scale info frame st w =
    (Normal tt,
     match pdf with
     | Exported data =>
         {| w_scene := w_scene w;
            w_trace := w_trace w ++ [call PDF pdf];
            exportResults := exportResults w ++ [pdf_result info data st] |}
     | ExportThrows m =>
         {| w_scene := w_scene w;
            w_trace := w_trace w ++ [call PDF pdf; call (PNG scale) png_second];
            exportResults := exportResults w ++
              [match png_second with
               | Exported data =>
                   png_result info data ("PDF export failed: " +:+ m) st
               | ExportThrows _ =>
                   failed_result info ("Both PDF and PNG failed: " +:+ m)
               end] |}
     end) /\
  exportRaster host scale info frame st w =
    (Normal tt,
     {| w_scene := w_scene w;
        w_trace := w_trace w ++ [call (PNG scale) png_first];
        exportResults := exportResults w ++
          [match png_first with
           | Exported data => png_result info data "All layers rasterized" st
           | ExportThrows m => failed_result info m
           end] |}).
Proof.
  cbv zeta. split.
  - unfold exportVector, try_catch, bind, exportAsync, push_result.
    destruct (host (length (w_trace w)) (w_scene w) frame PDF) as [d | m] eqn:E1;
      cbn [w_scene w_trace exportResults]; [reflexivity |].
    rewrite length_app. cbn [length]. rewrite Nat.add_1_r.
    destruct (host (S (length (w_trace w))) (w_scene w) frame (PNG scale))
      as [d | m2] eqn:E2; cbn [w_scene w_trace exportResults];
      rewrite <- app_assoc; reflexivity.
  - unfold exportRaster, try_catch, bind, exportAsync, push_result.
    destruct (host (length (w_trace w)) (w_scene w) frame (PNG scale))
      as [d | m] eqn:E1; cbn [w_scene w_trace exportResults]; reflexivity.
Qed.

(** X8. The whole-frame ladders stop at the first success and never
    repeat a call.  [exportVector] asks for the PDF and, only if that
    throws, for the PNG at the fallback scale; [exportRaster] asks for
    the PNG once.  Each completes normally, leaves the scene alone and
    pushes exactly one entry for its frame: a successful entry when the
    last call made succeeded, and the failure marker when it threw,
    which for [exportVector] happens only after both formats were
    tried. *)
Theorem whole_frame_ladders_stop_at_first_success (scale : num)
    (info : frame_info) (frame : node) (st : option layer_stats) (w : world) :
  let vec := exportVector host scale info frame st w in
  let ras := exportRaster host scale info frame st w in
  let threw c := exists m, call_outcome c = ExportThrows m in
  (fst vec = Normal tt /\ w_scene (snd vec) = w_scene w /\
   exists pre last entry,
     w_trace (snd vec) = w_trace w ++ pre ++ [last] /\
     exportResults (snd vec) = exportResults w ++ [entry] /\
     entry_of info entry /\
     Forall (fun c => call_frame c = node_id frame) (pre ++ [last]) /\
     (List.map call_format (pre ++ [last]) = [PDF] \/
      List.map call_format (pre ++ [last]) = [PDF; PNG scale]) /\
     Forall threw pre /\
     (call_succeeded last -> is_success_entry entry) /\
     (threw last -> is_failure_marker entry /\ length pre = 1)) /\
  (fst ras = Normal tt /\ w_scene (snd ras) = w_scene w /\
   exists call entry,
     w_trace (snd ras) = w_trace w ++ [call] /\
     exportResults (snd ras) = exportResults w ++ [entry] /\
     entry_of info entry /\
     call_frame call = node_id frame /\ call_format call = PNG scale /\
     (call_succeeded call -> is_success_entry entry) /\
     (forall m, call_outcome call = ExportThrows m ->
                is_failure_marker entry /\ res_error entry = Some m)).
Proof.
  cbv zeta.
  destruct (whole_frame_ladder_runs scale info frame st w) as [-> ->].
  cbn [fst snd]. split.
  - split; [reflexivity |].
    destruct (host (length (w_trace w)) (w_scene w) frame PDF) as [d | m] eqn:E1.
    + split; [reflexivity |]. eexists [], _, _.
      cbn [w_scene w_trace exportResults app List.map call_format].
      split; [reflexivity | split; [reflexivity |]].
      split; [repeat split |].
      split; [constructor; [reflexivity | constructor] |].
      split; [left; reflexivity |]. split; [constructor |].
      split.
      * intros _. repeat split. left. discriminate.
      * intros (m & Hm). discriminate.
    + split; [reflexivity |].
      destruct (host (S (length (w_trace w))) (w_scene w) frame (PNG scale))
        as [d | m2] eqn:E2; eexists [_], _, _;
        cbn [w_scene w_trace exportResults app List.map call_format];
        (split; [reflexivity | split; [reflexivity |]]);
        (split; [repeat split |]);
        (split; [repeat constructor |]);
        (split; [right; reflexivity |]);
        (split; [constructor; [exists m; reflexivity | constructor] |]).
      * split.
        -- intros _. repeat split. right. left. discriminate.
        -- intros (m' & Hm). discriminate.
      * split.
        -- intros (d & Hd). discriminate.
        -- intros _. split; [repeat split; discriminate | reflexivity].
  - split; [reflexivity | split; [reflexivity |]].
    eexists _, _. cbn [w_scene w_trace exportResults].
    split; [reflexivity | split; [reflexivity |]].
    cbn [call_frame call_format call_outcome].
    destruct (host (length (w_trace w)) (w_scene w) frame (PNG scale))
      as [d | m] eqn:E1.
    + split; [repeat split |]. split; [reflexivity | split; [reflexivity |]].
      split.
      * intros _. repeat split. right. left. discriminate.
      * intros m Hm. discriminate.
    + split; [repeat split |]. split; [reflexivity | split; [reflexivity |]].
      split.
      * intros (d & Hd). discriminate.
      * intros m' [= <-]. split; [repeat split; discriminate | reflexivity].
Qed.

(** The outcome of one frame, whatever path it takes. *)
Lemma exportFrame_outcome scale a w :
  let run := exportFrame host scale a w in
  fst run = Normal tt /\
  (forall i, w_scene (snd run) i = w_scene w i) /\
  exists entry calls,
    exportResults (snd run) = exportResults w ++ [entry] /\
    entry_of (analysis_info a) entry /\
    (is_failure_marker entry \/ is_success_entry entry) /\
    w_trace (snd run) = w_trace w ++ calls.
Proof.
  cbv zeta.
  assert (Hvec : forall info frame st,
    let run := exportVector host scale info frame st w in
    fst run = Normal tt /\
    (forall i, w_scene (snd run) i = w_scene w i) /\
    exists entry calls,
      exportResults (snd run) = exportResults w ++ [entry] /\
      entry_of info entry /\
      (is_failure_marker entry \/ is_success_entry entry) /\
      w_trace (snd run) = w_trace w ++ calls).
  { intros info frame st. cbv zeta.
    rewrite (proj1 (whole_frame_ladder_runs scale info frame st w)).
    cbn [fst snd]. split; [reflexivity |].
    destruct (host (length (w_trace w)) (w_scene w) frame PDF) as [d | m] eqn:E1.
    - split; [reflexivity |]. eexists _, _.
      cbn [w_scene w_trace exportResults].
      split; [reflexivity |]. split; [repeat split |].
      split; [right; repeat split; left; discriminate | reflexivity].
    - split; [reflexivity |].
      destruct (host (S (length (w_trace w))) (w_scene w) frame (PNG scale))
        as [d | m2] eqn:E2; eexists _, _;
        cbn [w_scene w_trace exportResults];
        (split; [reflexivity |]).
      + split; [repeat split |].
        split; [right; repeat split; right; left; discriminate | reflexivity].
      + split; [repeat split |].
        split; [left; repeat split; discriminate | reflexivity]. }
  destruct a as [info why | info frame la dec]; cbn [exportFrame analysis_info].
  - unfold push_result. cbn [fst snd w_scene w_trace exportResults].
    split; [reflexivity | split; [reflexivity |]].
    exists (failed_result info why), [].
    split; [reflexivity |]. split; [repeat split |].
    split; [left; repeat split; discriminate |].
    rewrite app_nil_r. reflexivity.
  - destruct (Nat.ltb 0 (rasterLayers la)); [| apply Hvec].
    destruct (Nat.eqb (vectorLayers la) 0).
    + rewrite (proj2 (whole_frame_ladder_runs scale info frame (stats dec) w)).
      cbn [fst snd w_scene w_trace exportResults].
      split; [reflexivity | split; [reflexivity |]].
      destruct (host (length (w_trace w)) (w_scene w) frame (PNG scale))
        as [d | m] eqn:E1; eexists _, _; (split; [reflexivity |]).
      * split; [repeat split |].
        split; [right; repeat split; right; left; discriminate | reflexivity].
      * split; [repeat split |].
        split; [left; repeat split; discriminate | reflexivity].
    + unfold bind, get_scene.
      destruct (negb (existsb is_raster_segment
                        (buildFrameSegments (w_scene w) frame))); [apply Hvec |].
      destruct (exportLayered_outcome host scale info frame (stats dec)
                  (buildFrameSegments (w_scene w) frame) w)
        as (Hn & Hsc & calls & Htr & Hcases).
      cbv zeta in Hn, Hsc, Htr, Hcases.
      split; [exact Hn | split; [exact Hsc |]].
      destruct Hcases as [(Hall & buffers & Hres)
                         | (pre & last & m & -> & Hlast & Hpre & Hres)].
      * exists (segments_result info buffers (stats dec)), calls.
        split; [exact Hres |]. split; [repeat split |].
        split; [right; repeat split; right; right; discriminate | exact Htr].
      * exists (failed_result info ("Layered export failed: " +:+ m)),
               (pre ++ [last]).
        split; [exact Hres |]. split; [repeat split |].
        split; [left; repeat split; discriminate | exact Htr].
Qed.

Lemma exportFrames_outcome scale analyses : forall w,
  let run := exportFrames host scale analyses w in
  fst run = Normal tt /\
  (forall i, w_scene (snd run) i = w_scene w i) /\
  exists entries,
    exportResults (snd run) = exportResults w ++ entries /\
    Forall2 (fun a entry => entry_of (analysis_info a) entry /\
                            (is_failure_marker entry \/ is_success_entry entry))
            analyses entries.
Proof.
  induction analyses as [|a rest IH]; intros w; cbv zeta; cbn [exportFrames].
  - unfold ret. cbn [fst snd]. split; [reflexivity | split; [reflexivity |]].
    exists []. rewrite app_nil_r. split; [reflexivity | constructor].
  - unfold bind.
    destruct (exportFrame_outcome scale a w)
      as (Hn & Hsc & entry & calls & Hres & Hid & Hkind & _).
    cbv zeta in Hn, Hsc, Hres.
    destruct (exportFrame host scale a w) as [[[] | m] w1]; cbn [fst snd] in *;
      [| discriminate].
    specialize (IH w1). cbv zeta in IH.
    destruct IH as (Hn2 & Hsc2 & entries & Hres2 & Hall).
    split; [exact Hn2 |]. split.
    + intros i. rewrite Hsc2. apply Hsc.
    + exists (entry :: entries). split.
      * rewrite Hres2, Hres, <- app_assoc. reflexivity.
      * constructor; [split; assumption | exact Hall].
Qed.

Lemma analyzeFrame_info f : analysis_info (analyzeFrame getNodeById f) = f.
Proof.
  unfold analyzeFrame. destruct (getNodeById (frame_id f)) as [frame|];
    [destruct (String.eqb (node_type frame) "FRAME") |]; reflexivity.
Qed.

Lemma entries_of_analyses fs : forall entries,
  Forall2 (fun a entry => entry_of (analysis_info a) entry /\
                          (is_failure_marker entry \/ is_success_entry entry))
          (List.map (analyzeFrame getNodeById) fs) entries ->
  Forall2 (fun f entry => entry_of f entry /\
                          (is_failure_marker entry \/ is_success_entry entry))
          fs entries.
Proof.
  induction fs as [|f fs IH]; intros entries Hall;
    inversion Hall as [|a e l l' Hhead Htail]; subst; constructor.
  - rewrite analyzeFrame_info in Hhead. exact Hhead.
  - apply IH. exact Htail.
Qed.

(** X9. A whole vector export.  The scene is left as it was found.  The
    export results hold exactly one entry per ordered frame, in the order
    given, each with the id, name, width and height of its frame and each
    either a failure marker or a successful entry.  If no entry is
    successful the outcome is the error message; otherwise the successful
    entries are handed over in order, in one message or in two or more
    chunks that concatenate to them, and the failure markers are handed
    over beside them. *)
Theorem performVectorExport_outcome (orderedFrames : list frame_info)
    (scale : num) (sc : scene) :
  let run := performVectorExport host getNodeById orderedFrames scale sc in
  let results := exportResults (snd run) in
  let successful := List.filter (fun r => negb (res_skipped r)) results in
  let failed := List.filter res_skipped results in
  (forall i, w_scene (snd run) i = sc i) /\
  Forall2 (fun f entry => entry_of f entry /\
                          (is_failure_marker entry \/ is_success_entry entry))
          orderedFrames results /\
  match fst run with
  | ErrorMessage m =>
      successful = [] /\
      m = "No frames could be exported. Try using Rasterized mode."
  | MergeVectorPdfs pdfBuffers failedFrames =>
      pdfBuffers = successful /\ failedFrames = failed /\ successful <> [] /\
      length (planChunks successful) <= 1
  | MergeVectorPdfsChunked chunks failedFrames =>
      concat chunks = successful /\ failedFrames = failed /\
      2 <= length chunks /\ Forall (fun c => c <> []) chunks
  end.
Proof.
  cbv zeta. unfold performVectorExport.
  set (w0 := {| w_scene := sc; w_trace := []; exportResults := [] |}).
  destruct (exportFrames_outcome scale
              (List.map (analyzeFrame getNodeById) orderedFrames) w0)
    as (_ & Hsc & entries & Hres & Hall).
  cbv zeta in Hsc, Hres. cbn [exportResults w0 app] in Hres.
  set (w1 := snd (exportFrames host scale
                    (List.map (analyzeFrame getNodeById) orderedFrames) w0)) in *.
  assert (Hentries : Forall2 (fun f entry => entry_of f entry /\
                       (is_failure_marker entry \/ is_success_entry entry))
                     orderedFrames (exportResults w1)).
  { rewrite Hres. apply entries_of_analyses. exact Hall. }
  destruct (List.filter (fun r => negb (res_skipped r)) (exportResults w1))
    as [|r rs] eqn:Esucc; cbn [fst snd].
  - split; [exact Hsc | split; [exact Hentries |]]. rewrite Esucc.
    split; reflexivity.
  - destruct (Nat.leb (length (planChunks (r :: rs))) 1) eqn:Elen;
      cbn [fst snd]; (split; [exact Hsc | split; [exact Hentries |]]);
      rewrite Esucc.
    + apply Nat.leb_le in Elen. repeat split; [discriminate | exact Elen].
    + apply Nat.leb_gt in Elen.
      destruct (pack_partition _ estimateExportBytes MAX_CHUNK_BYTES (r :: rs))
        as [Hcat Hgroups].
      cbv zeta in Hcat, Hgroups. rewrite <- planChunks_pack in Hcat, Hgroups.
      split; [exact Hcat |]. split; [reflexivity |]. split; [lia |].
      eapply Forall_impl; [exact Hgroups |]. intros c [Hne _]. exact Hne.
Qed.

Lemma export_segment_detail scale frame nodes state seg w :
  let run := export_segment host scale frame nodes state seg w in
  exists call,
    w_trace (snd run) = w_trace w ++ [call] /\
    call_frame call = node_id frame /\
    call_format call = segment_format scale seg /\
    exportResults (snd run) = exportResults w /\
    match fst run with
    | Normal e => call_succeeded call /\ sx_type e = segment_buffer_type seg
    | Thrown m => call_outcome call = ExportThrows m
    end.
Proof.
  cbv zeta.
  unfold export_segment, bind, modify_scene, ret, exportAsync, segment_format,
    segment_buffer_type.
  destruct (seg_type seg); cbv beta iota; cbn [w_scene w_trace exportResults].
  - exists {| call_frame := node_id frame; call_format := PDF;
              call_outcome :=
                host (length (w_trace w))
                  (applySegmentState frame nodes (seg_nodes seg) state (w_scene w))
                  frame PDF |}.
    destruct (host (length (w_trace w))
                (applySegmentState frame nodes (seg_nodes seg) state (w_scene w))
                frame PDF) as [d | m] eqn:E;
      cbn [fst snd w_trace exportResults sx_type];
      repeat split; unfold call_succeeded; cbn [call_outcome]; eauto.
  - exists {| call_frame := node_id frame; call_format := PNG scale;
              call_outcome :=
                host (length (w_trace w))
                  (applySegmentState frame nodes (seg_nodes seg) state (w_scene w))
                  frame (PNG scale) |}.
    destruct (host (length (w_trace w))
                (applySegmentState frame nodes (seg_nodes seg) state (w_scene w))
                frame (PNG scale)) as [d | m] eqn:E;
      cbn [fst snd w_trace exportResults sx_type];
      repeat split; unfold call_succeeded; cbn [call_outcome]; eauto.
Qed.

Lemma export_segments_detail scale frame nodes state segs : forall acc w,
  let run := export_segments host scale frame nodes state segs acc w in
  exists calls,
    w_trace (snd run) = w_trace w ++ calls /\
    Forall (fun c => call_frame c = node_id frame) calls /\
    exportResults (snd run) = exportResults w /\
    match fst run with
    | Normal out =>
        List.map call_format calls = List.map (segment_format scale) segs /\
        exists new, out = acc ++ new /\
          List.map sx_type new = List.map segment_buffer_type segs
    | Thrown m =>
        (exists k, List.map call_format calls =
                   List.map (segment_format scale) (firstn k segs)) /\
        ~ Forall call_succeeded calls
    end.
Proof.
  induction segs as [|seg segs IH]; intros acc w; cbv zeta;
    cbn [export_segments].
  - unfold ret. cbn [fst snd]. exists []. rewrite app_nil_r.
    split; [reflexivity |]. split; [constructor |]. split; [reflexivity |].
    split; [reflexivity |]. exists []. rewrite app_nil_r.
    split; reflexivity.
  - unfold bind.
    destruct (export_segment_detail scale frame nodes state seg w)
      as (call & Htr & Hfr & Hfmt & Hres & Hc).
    cbv zeta in Htr, Hres, Hc.
    destruct (export_segment host scale frame nodes state seg w)
      as [[e | m] w1]; cbn [fst snd] in *.
    + specialize (IH (acc ++ [e]) w1). cbv zeta in IH.
      destruct IH as (calls & Htr2 & Hfr2 & Hres2 & Hshape).
      exists (call :: calls).
      split; [rewrite Htr2, Htr, <- app_assoc; reflexivity |].
      split; [constructor; assumption |].
      split; [congruence |].
      destruct (fst (export_segments host scale frame nodes state segs
                       (acc ++ [e]) w1)) as [out | m].
      * destruct Hshape as (Hf & new & -> & Hty). destruct Hc as [Hok Hte].
        split; [cbn [List.map]; rewrite Hfmt, Hf; reflexivity |].
        exists (e :: new). split; [rewrite <- app_assoc; reflexivity |].
        cbn [List.map]. rewrite Hte, Hty. reflexivity.
      * destruct Hshape as ((k & Hk) & Hnot). split.
        -- exists (S k). cbn [firstn List.map]. rewrite Hfmt, Hk. reflexivity.
        -- intros Hall. apply Hnot. inversion Hall; assumption.
    + exists [call]. split; [exact Htr |].
      split; [constructor; [exact Hfr | constructor] |].
      split; [exact Hres |]. split.
      * exists 1. cbn [firstn List.map]. rewrite Hfmt. reflexivity.
      * intros Hall. inversion Hall as [|x l [d Hd] _]; subst. congruence.
Qed.

(** X10. The segmented export asks the host in planned order: first the
    PDF of the background when the frame has visible fills or strokes,
    then one export per planned segment, a PNG at the fallback scale for
    a raster segment and a PDF for a vector one, all on the frame itself.
    The calls made are always a beginning of that plan; when all of them
    succeed the whole plan was carried out and the pushed entry holds one
    buffer per call, typed 'vector' or 'png' accordingly. *)
Theorem layered_export_in_planned_order (scale : num) (info : frame_info)
    (frame : node) (st : option layer_stats) (segs : list segment) (w : world) :
  let run := exportLayered host scale info frame st segs w in
  let calls := calls_between w (snd run) in
  let background :=
    hasVisiblePaints (fills (w_scene w (node_id frame))) ||
    hasVisiblePaints (strokes (w_scene w (node_id frame))) in
  let planned := (if background then [PDF] else []) ++
                 List.map (segment_format scale) segs in
  let types := (if background then ["vector"] else []) ++
               List.map segment_buffer_type segs in
  w_trace (snd run) = w_trace w ++ calls /\
  Forall (fun c => call_frame c = node_id frame) calls /\
  (exists k, List.map call_format calls = firstn k planned) /\
  (Forall call_succeeded calls ->
   List.map call_format calls = planned /\
   exists buffers,
     exportResults (snd run) =
       exportResults w ++ [segments_result info buffers st] /\
     List.map sx_type buffers = types).
Proof.
  cbv zeta. unfold exportLayered.
  set (nodes := collectAllNodes (Some frame)).
  unfold bind, get_scene, finally, try_catch. cbv beta iota.
  set (state := captureNodeState (w_scene w) nodes).
  set (bg := hasVisiblePaints (fills (w_scene w (node_id frame))) ||
             hasVisiblePaints (strokes (w_scene w (node_id frame)))).
  assert (Hbg : exists calls1,
            w_trace (snd (export_background host frame nodes state bg w))
              = w_trace w ++ calls1 /\
            Forall (fun c => call_frame c = node_id frame) calls1 /\
            exportResults (snd (export_background host frame nodes state bg w))
              = exportResults w /\
            match fst (export_background host frame nodes state bg w) with
            | Normal out =>
                List.map call_format calls1 = (if bg then [PDF] else []) /\
                List.map sx_type out = (if bg then ["vector"] else [])
            | Thrown m =>
                List.map call_format calls1 = (if bg then [PDF] else []) /\
                ~ Forall call_succeeded calls1
            end).
  { unfold export_background. destruct bg.
    - unfold bind, modify_scene, ret, exportAsync.
      cbv beta iota. cbn [w_scene w_trace exportResults].
      exists [{| call_frame := node_id frame; call_format := PDF;
                 call_outcome :=
                   host (length (w_trace w))
                     (applySegmentState frame nodes [frame] state (w_scene w))
                     frame PDF |}].
      destruct (host (length (w_trace w))
                  (applySegmentState frame nodes [frame] state (w_scene w))
                  frame PDF) as [d | m] eqn:E;
        cbn [fst snd w_trace exportResults];
        (split; [reflexivity |]);
        (split; [repeat constructor |]); (split; [reflexivity |]);
        (split; [reflexivity |]); [reflexivity |].
      intros Hall. inversion Hall as [|x l [d Hd] _]; subst. discriminate.
    - unfold ret. cbn [fst snd]. exists []. rewrite app_nil_r.
      repeat split. constructor. }
  destruct Hbg as (calls1 & Htr1 & Hfr1 & Hres1 & Hsh1).
  destruct (export_background host frame nodes state bg w) as [[b | m] w1];
    cbn [fst snd] in *.
  - destruct (export_segments_detail scale frame nodes state segs b w1)
      as (calls2 & Htr2 & Hfr2 & Hres2 & Hsh2).
    cbv zeta in Htr2, Hres2, Hsh2.
    destruct (export_segments host scale frame nodes state segs b w1)
      as [[e | m] w2]; cbn [fst snd] in *;
      unfold push_result, modify_scene;
      cbn [fst snd w_scene w_trace exportResults].
    + assert (Htr : w_trace w2 = w_trace w ++ (calls1 ++ calls2)).
      { rewrite Htr2, Htr1, <- app_assoc. reflexivity. }
      rewrite (calls_between_app w
                 {| w_scene := restoreNodeState nodes state (w_scene w2);
                    w_trace := w_trace w2;
                    exportResults := exportResults w2 ++
                      [segments_result info e st] |} (calls1 ++ calls2) Htr).
      destruct Hsh1 as [Hf1 Ht1]. destruct Hsh2 as (Hf2 & new & -> & Hty).
      split; [exact Htr |]. split; [apply Forall_app; split; assumption |].
      assert (Hfmt : List.map call_format (calls1 ++ calls2) =
                     (if bg then [PDF] else []) ++
                     List.map (segment_format scale) segs).
      { rewrite map_app, Hf1, Hf2. reflexivity. }
      split.
      * exists (length ((if bg then [PDF] else []) ++
                        List.map (segment_format scale) segs)).
        rewrite firstn_all. exact Hfmt.
      * intros _. split; [exact Hfmt |].
        exists (b ++ new). rewrite Hres2, Hres1. split; [reflexivity |].
        rewrite map_app, Ht1, Hty. reflexivity.
    + assert (Htr : w_trace w2 = w_trace w ++ (calls1 ++ calls2)).
      { rewrite Htr2, Htr1, <- app_assoc. reflexivity. }
      rewrite (calls_between_app w
                 {| w_scene := restoreNodeState nodes state (w_scene w2);
                    w_trace := w_trace w2;
                    exportResults := exportResults w2 ++
                      [failed_result info ("Layered export failed: " +:+ m)] |}
                 (calls1 ++ calls2) Htr).
      destruct Hsh1 as [Hf1 Ht1]. destruct Hsh2 as ((k & Hk) & Hnot).
      split; [exact Htr |]. split; [apply Forall_app; split; assumption |].
      split.
      * exists (length (if bg then [PDF] else []) + k).
        rewrite map_app, Hf1, Hk, firstn_app_2, firstn_map. reflexivity.
      * intros Hall. exfalso. apply Hnot.
        apply Forall_app in Hall. tauto.
  - unfold push_result, modify_scene.
    cbn [fst snd w_scene w_trace exportResults].
    rewrite (calls_between_app w
               {| w_scene := restoreNodeState nodes state (w_scene w1);
                  w_trace := w_trace w1;
                  exportResults := exportResults w1 ++
                    [failed_result info ("Layered export failed: " +:+ m)] |}
               calls1 Htr1).
    destruct Hsh1 as [Hf1 Hnot].
    split; [exact Htr1 |]. split; [exact Hfr1 |]. split.
    + exists (length (if bg then [PDF] else [])).
      rewrite Hf1, firstn_app, Nat.sub_diag, firstn_all. cbn [firstn].
      rewrite app_nil_r. reflexivity.
    + intros Hall. contradiction.
Qed.

End LadderCoverage.


(** ** The shape of the planned segments *)

Lemma adjacent_vectors_snoc l s :
  adjacent_vectors (l ++ [s]) =
  adjacent_vectors l || (ends_with_vector l && negb (is_raster_segment s)).
Proof.
  unfold ends_with_vector.
  induction l as [|a rest IH]; cbn [app adjacent_vectors rev]; [reflexivity |].
  rewrite IH. destruct rest as [|b rest']; cbn [app rev adjacent_vectors].
  - destruct (is_raster_segment a), (is_raster_segment s); reflexivity.
  - destruct (rev rest' ++ [b]) as [|z zs] eqn:Erev.
    { destruct (rev rest'); discriminate Erev. }
    cbn [app].
    destruct (negb (is_raster_segment a) && negb (is_raster_segment b)),
             (adjacent_vectors (b :: rest')); reflexivity.
Qed.

Lemma ends_with_vector_snoc l s :
  ends_with_vector (l ++ [s]) = negb (is_raster_segment s).
Proof. unfold ends_with_vector. rewrite rev_app_distr. reflexivity. Qed.

Lemma unique_nodes_from_Forall (P : node -> Prop) l : forall seen,
  Forall P l -> Forall P (unique_nodes_from seen l).
Proof.
  induction l as [|n l IH]; intros seen Hall; cbn [unique_nodes_from].
  - constructor.
  - apply Forall_cons in Hall as [Hn Hl].
    destruct (includes seen (node_id n)); [apply IH, Hl |].
    constructor; [exact Hn | apply IH, Hl].
Qed.

Lemma unique_nodes_nonempty n l : unique_nodes (n :: l) <> [].
Proof. unfold unique_nodes. cbn [unique_nodes_from includes existsb]. discriminate. Qed.

Lemma flushVector_invariant sc inside st :
  planner_invariant sc inside st ->
  Forall (fun s => seg_nodes s <> [] /\ well_planned sc inside s)
         (segments (flushVector st)) /\
  adjacent_vectors (segments (flushVector st)) = false /\
  currentVectorNodes (flushVector st) = [].
Proof.
  intros (Hsegs & Hadj & Hend & Hcur). unfold flushVector.
  destruct (currentVectorNodes st) as [|n l] eqn:E.
  - rewrite E. split; [exact Hsegs | split; [exact Hadj | reflexivity]].
  - cbn [segments currentVectorNodes]. split; [| split; [| reflexivity]].
    + apply Forall_app. split; [exact Hsegs |].
      constructor; [| constructor]. cbn [seg_nodes]. split.
      * apply unique_nodes_nonempty.
      * unfold well_planned. cbn [seg_type seg_nodes].
        apply unique_nodes_from_Forall, Hcur.
    + rewrite adjacent_vectors_snoc, Hadj, Hend. reflexivity.
Qed.

Lemma visit_invariant sc inside n : forall st,
  (forall m, m ∈ preorder n -> m ∈ inside) ->
  planner_invariant sc inside st ->
  planner_invariant sc inside (visit sc n st).
Proof.
  induction n as [n IH] using node_children_ind. intros st Hin Hinv.
  rewrite visit_unfold.
  destruct (visible (sc (node_id n))) eqn:Evis; cbn [negb]; [| exact Hinv].
  assert (Hn : n ∈ inside).
  { apply Hin. rewrite preorder_unfold. apply elem_of_cons. left. reflexivity. }
  destruct (nodeNeedsRaster n) eqn:Eraster.
  - (* the subtree becomes a raster segment, after the pending vector run *)
    destruct (flushVector_invariant sc inside st Hinv) as (Hsegs & Hadj & Hcur).
    unfold planner_invariant. cbn [segments currentVectorNodes].
    split; [| split; [| split]].
    + apply Forall_app. split; [exact Hsegs |].
      constructor; [| constructor]. cbn [seg_nodes].
      rewrite collectSubtreeNodes_preorder, preorder_unfold.
      split; [discriminate |].
      unfold well_planned. cbn [seg_type seg_nodes]. exists n. auto.
    + rewrite adjacent_vectors_snoc, Hadj.
      unfold is_raster_segment. cbn [seg_type negb]. rewrite andb_false_r.
      reflexivity.
    + rewrite ends_with_vector_snoc. reflexivity.
    + rewrite Hcur. constructor.
  - (* the node joins the vector run, then its children are visited *)
    set (st1 := if nodeHasRenderableSelf sc n
                then {| segments := segments st;
                        currentVectorNodes := currentVectorNodes st ++ [n] |}
                else st).
    assert (Hinv1 : planner_invariant sc inside st1).
    { unfold st1. destruct (nodeHasRenderableSelf sc n) eqn:Eself; [| exact Hinv].
      destruct Hinv as (Hsegs & Hadj & Hend & Hcur).
      unfold planner_invariant. cbn [segments currentVectorNodes].
      split; [exact Hsegs | split; [exact Hadj | split; [exact Hend |]]].
      apply Forall_app. split; [exact Hcur |].
      constructor; [| constructor]. unfold vector_node. auto. }
    assert (Hinside : forall c m, c ∈ node_children n -> m ∈ preorder c ->
                                  m ∈ inside).
    { intros c m Hc Hm. apply Hin. rewrite preorder_unfold.
      apply elem_of_cons. right.
      apply list_elem_of_In, in_flat_map. exists c.
      split; apply list_elem_of_In; assumption. }
    clearbody st1. clear Hinv Hin. revert st1 Hinv1 Hinside.
    induction IH as [|c cs Hc _ IHcs]; intros st1 Hinv1 Hinside;
      cbn [fold_left]; [exact Hinv1 |].
    apply IHcs.
    + apply Hc; [| exact Hinv1].
      intros m Hm. apply (Hinside c m); [| exact Hm].
      apply elem_of_cons. left. reflexivity.
    + intros c' m Hc' Hm. apply (Hinside c' m); [| exact Hm].
      apply elem_of_cons. right. exact Hc'.
Qed.

Lemma visit_children_invariant sc inside cs : forall st,
  (forall c m, c ∈ cs -> m ∈ preorder c -> m ∈ inside) ->
  planner_invariant sc inside st ->
  planner_invariant sc inside (fold_left (fun s c => visit sc c s) cs st).
Proof.
  induction cs as [|c cs IHcs]; intros st Hinside Hinv; cbn [fold_left];
    [exact Hinv |].
  apply IHcs.
  - intros c' m Hc' Hm. apply (Hinside c' m); [| exact Hm].
    apply elem_of_cons. right. exact Hc'.
  - apply visit_invariant; [| exact Hinv].
    intros m Hm. apply (Hinside c m); [| exact Hm].
    apply elem_of_cons. left. reflexivity.
Qed.

(** X19. The segments planned for a frame.  No two consecutive segments
    are both vector: the vector nodes between two raster subtrees always
    go out together, in one PDF.  No segment is empty.  A raster segment
    is the whole subtree of one visible descendant of the frame that
    needs raster; a vector segment holds only visible descendants that
    have content of their own and do not need raster. *)
Theorem buildFrameSegments_merges_vector_runs (sc : scene) (frame : node) :
  let segs := buildFrameSegments sc frame in
  let inside := flat_map preorder (node_children frame) in
  adjacent_vectors segs = false /\
  Forall (fun s => seg_nodes s <> []) segs /\
  Forall (well_planned sc inside) segs.
Proof.
  cbv zeta. unfold buildFrameSegments. cbv zeta.
  set (inside := flat_map preorder (node_children frame)).
  assert (Hinv : planner_invariant sc inside
                   (fold_left (fun s c => visit sc c s) (node_children frame)
                      {| segments := []; currentVectorNodes := [] |})).
  { apply visit_children_invariant.
    - intros c m Hc Hm. apply list_elem_of_In, in_flat_map. exists c.
      split; apply list_elem_of_In; assumption.
    - split; [constructor | split; [reflexivity | split; [reflexivity |
        constructor]]]. }
  destruct (flushVector_invariant sc inside _ Hinv) as (Hsegs & Hadj & _).
  split; [exact Hadj |].
  split; (eapply Forall_impl; [exact Hsegs |]); intros s [Hne Hwp]; assumption.
Qed.

(** ** Selection, ordering and the tracked lists *)

Lemma find_frame_Some frames i f :
  find_frame frames i = Some f -> frame_id f = i /\ f ∈ frames.
Proof.
  unfold find_frame. intros Hf. apply find_some in Hf. destruct Hf as [Hin He].
  apply String.eqb_eq in He. split; [exact He | apply list_elem_of_In, Hin].
Qed.

Lemma find_frame_None frames i :
  find_frame frames i = None <-> i ∉ List.map frame_id frames.
Proof.
  unfold find_frame. induction frames as [|f l IH]; cbn [find List.map].
  - split; [intros _; apply not_elem_of_nil | reflexivity].
  - destruct (String.eqb (frame_id f) i) eqn:E.
    + apply String.eqb_eq in E. split; [discriminate |].
      intros Hn. exfalso. apply Hn. rewrite E. apply elem_of_cons. left. reflexivity.
    + apply String.eqb_neq in E. rewrite IH, not_elem_of_cons.
      split; [intros Hn; split; [congruence | exact Hn] | intros [_ Hn]; exact Hn].
Qed.

Lemma find_frame_filter sel frames i :
  find_frame (List.filter (fun f => includes sel (frame_id f)) frames) i =
  if includes sel i then find_frame frames i else None.
Proof.
  unfold find_frame. induction frames as [|f l IH]; cbn [List.filter find].
  - destruct (includes sel i); reflexivity.
  - destruct (String.eqb (frame_id f) i) eqn:E.
    + apply String.eqb_eq in E. rewrite E.
      destruct (includes sel i) eqn:Ei.
      * cbn [find]. rewrite <- E at 1. rewrite String.eqb_refl. reflexivity.
      * rewrite IH. reflexivity.
    + destruct (includes sel (frame_id f)); [cbn [find]; rewrite E |]; exact IH.
Qed.

Lemma orderedFramesOf_walk frames frameOrder selectedFrameIds :
  orderedFramesOf frames frameOrder selectedFrameIds =
  compact (List.map (fun i => if includes selectedFrameIds i
                              then find_frame frames i else None) frameOrder).
Proof.
  unfold orderedFramesOf. cbv zeta. f_equal. apply map_ext. intros i.
  apply find_frame_filter.
Qed.

Lemma orderedFramesOf_ids frames frameOrder selectedFrameIds :
  List.map frame_id (orderedFramesOf frames frameOrder selectedFrameIds) =
  List.filter (fun i => includes selectedFrameIds i &&
                        includes (List.map frame_id frames) i) frameOrder.
Proof.
  rewrite orderedFramesOf_walk.
  induction frameOrder as [|i rest IH]; cbn [List.map compact List.filter];
    [reflexivity |].
  destruct (includes selectedFrameIds i); cbn [andb]; [| exact IH].
  destruct (find_frame frames i) as [f|] eqn:Ef; cbn [compact List.map].
  - destruct (find_frame_Some _ _ _ Ef) as [Hid Hin].
    assert (Hinc : includes (List.map frame_id frames) i = true).
    { apply includes_elem_of. rewrite <- Hid.
      apply list_elem_of_In, in_map, list_elem_of_In, Hin. }
    rewrite Hinc, Hid, IH. reflexivity.
  - assert (Hinc : includes (List.map frame_id frames) i = false).
    { apply includes_false, find_frame_None, Ef. }
    rewrite Hinc. exact IH.
Qed.

(** X11. The frames of an export are picked by walking [frameOrder]:
    an id gives a frame when it is selected and tracked, and is passed
    over otherwise; the frame it gives is the first tracked one with that
    id.  So the export follows [frameOrder], also where it repeats an id,
    and a selected frame that [frameOrder] does not name is left out. *)
Theorem orderedFramesOf_follows_frameOrder
    (frames : list frame_info) (frameOrder selectedFrameIds : list string) :
  let result := orderedFramesOf frames frameOrder selectedFrameIds in
  List.map frame_id result =
    List.filter (fun i => includes selectedFrameIds i &&
                          includes (List.map frame_id frames) i) frameOrder /\
  Forall (fun f => find_frame frames (frame_id f) = Some f) result.
Proof.
  cbv zeta. split; [apply orderedFramesOf_ids |].
  rewrite orderedFramesOf_walk.
  induction frameOrder as [|i rest IH]; cbn [List.map compact];
    [constructor |].
  destruct (includes selectedFrameIds i); [| exact IH].
  destruct (find_frame frames i) as [f|] eqn:Ef; cbn [compact]; [| exact IH].
  constructor; [| exact IH].
  destruct (find_frame_Some _ _ _ Ef) as [Hid _]. rewrite Hid. exact Ef.
Qed.

Section PluginCoverage.

Variable host : nat -> scene -> node -> export_format -> export_outcome.
Variable getNodeById : string -> option node.
Variable links : node -> node_links.
Variable parent_name : parent_ref -> string.
Variable missing_number : num.
Variable estimateBytes : frame_info -> num -> num.

Lemma appends_keep frameId : appends getNodeById frameId (fun conns => conns).
Proof.
  exists []. split; [intros conns; rewrite app_nil_r; reflexivity | constructor].
Qed.

Lemma appends_push frameId new :
  Forall (well_formed_connection getNodeById frameId) new ->
  appends getNodeById frameId (fun conns => conns ++ new).
Proof. intros Hwf. exists new. split; [reflexivity | exact Hwf]. Qed.

Lemma appends_then frameId F G :
  appends getNodeById frameId F -> appends getNodeById frameId G ->
  appends getNodeById frameId (fun conns => G (F conns)).
Proof.
  intros (a & Ha & Hwa) (b & Hb & Hwb). exists (a ++ b). split.
  - intros conns. rewrite Ha, Hb, app_assoc. reflexivity.
  - apply Forall_app. split; assumption.
Qed.

Lemma appends_fold {X} frameId (step : list connection -> X -> list connection)
    (xs : list X) :
  (forall x, appends getNodeById frameId (fun conns => step conns x)) ->
  appends getNodeById frameId (fun conns => fold_left step xs conns).
Proof.
  intros Hstep. induction xs as [|x rest IH]; cbn [fold_left].
  - apply appends_keep.
  - exact (appends_then frameId (fun conns => step conns x)
             (fun conns => fold_left step rest conns) (Hstep x) IH).
Qed.

Lemma truthy_string_Some s v : truthy_string s = Some v -> s = Some v /\ v <> "".
Proof.
  unfold truthy_string. destruct s as [u|]; [| discriminate].
  destruct (String.eqb u "") eqn:E; [discriminate |].
  intros [= ->]. apply String.eqb_neq in E. split; [reflexivity | exact E].
Qed.

Lemma internal_well_formed frameId d bounds name :
  d <> "" -> resolves_to_frame getNodeById d = true ->
  well_formed_connection getNodeById frameId
    (internal_connection frameId d bounds name).
Proof.
  intros Hd Hr. split; [reflexivity | left].
  split; [reflexivity | split; [reflexivity |]]. exists d. auto.
Qed.

Lemma external_well_formed frameId u bounds name :
  u <> "" ->
  well_formed_connection getNodeById frameId
    (external_connection frameId u bounds name).
Proof.
  intros Hu. split; [reflexivity | right].
  split; [reflexivity | split; [reflexivity |]]. exists u. auto.
Qed.

Lemma scan_reaction_appends n frameId r :
  appends getNodeById frameId (fun conns => scan_reaction getNodeById n frameId conns r).
Proof.
  unfold scan_reaction. destruct (reaction_action r) as [a|]; [| apply appends_keep].
  destruct (if String.eqb (action_type a) "NODE"
            then truthy_string (action_destinationId a) else None) as [d|] eqn:Ed.
  - destruct (String.eqb (action_type a) "NODE"); [| discriminate].
    apply truthy_string_Some in Ed. destruct Ed as [_ Hd].
    destruct (resolves_to_frame getNodeById d) eqn:Er; [| apply appends_keep].
    apply appends_push. constructor; [| constructor].
    apply internal_well_formed; assumption.
  - destruct (if String.eqb (action_type a) "URL"
              then truthy_string (action_url a) else None) as [u|] eqn:Eu;
      [| apply appends_keep].
    destruct (String.eqb (action_type a) "URL"); [| discriminate].
    apply truthy_string_Some in Eu. destruct Eu as [_ Hu].
    apply appends_push. constructor; [| constructor].
    apply external_well_formed; assumption.
Qed.

Lemma scan_segment_appends n frameId seg :
  exists new,
    (forall b conns,
       scan_segment getNodeById n frameId (b, conns) seg =
       (b || match segment_link seg with Some _ => true | None => false end,
        conns ++ new)) /\
    Forall (well_formed_connection getNodeById frameId) new.
Proof.
  unfold scan_segment. destruct (segment_link seg) as [[h v]|] eqn:El.
  - assert (Hv : v <> "").
    { unfold segment_link in El. destruct (segment_hyperlink seg) as [h'|]; [| discriminate].
      destruct (truthy_string (hyperlink_value h')) as [v'|] eqn:Et; [| discriminate].
      injection El as _ <-. apply truthy_string_Some in Et. tauto. }
    destruct (String.eqb (hyperlink_type h) "URL").
    + eexists. split.
      * intros b conns. cbn [snd]. rewrite orb_true_r. reflexivity.
      * apply Forall_forall. intros c Hc.
        apply list_elem_of_In, in_map_iff in Hc. destruct Hc as (bd & <- & _).
        apply external_well_formed, Hv.
    + destruct (String.eqb (hyperlink_type h) "NODE");
        [destruct (resolves_to_frame getNodeById v) eqn:Er |].
      * eexists. split.
        -- intros b conns. cbn [snd]. rewrite orb_true_r. reflexivity.
        -- apply Forall_forall. intros c Hc.
           apply list_elem_of_In, in_map_iff in Hc. destruct Hc as (bd & <- & _).
           apply internal_well_formed; assumption.
      * exists []. split; [| constructor].
        intros b conns. cbn [snd]. rewrite orb_true_r, app_nil_r. reflexivity.
      * exists []. split; [| constructor].
        intros b conns. cbn [snd]. rewrite orb_true_r, app_nil_r. reflexivity.
  - exists []. split; [| constructor].
    intros b conns. rewrite orb_false_r, app_nil_r. reflexivity.
Qed.

Lemma scan_segments_appends n frameId segments :
  exists new,
    (forall b conns,
       fold_left (scan_segment getNodeById n frameId) segments (b, conns) =
       (b || existsb (fun seg => match segment_link seg with
                                 | Some _ => true | None => false end) segments,
        conns ++ new)) /\
    Forall (well_formed_connection getNodeById frameId) new.
Proof.
  induction segments as [|seg rest (k & Hk & Hwk)]; cbn [fold_left existsb].
  - exists []. split; [| constructor].
    intros b conns. rewrite orb_false_r, app_nil_r. reflexivity.
  - destruct (scan_segment_appends n frameId seg) as (a & Ha & Hwa).
    exists (a ++ k). split.
    + intros b conns. rewrite Ha, Hk, orb_assoc, app_assoc. reflexivity.
    + apply Forall_app. split; assumption.
Qed.

Lemma scan_simple_hyperlink_appends n frameId :
  appends getNodeById frameId
    (fun conns => scan_simple_hyperlink getNodeById links n frameId conns).
Proof.
  unfold scan_simple_hyperlink.
  destruct (link_hyperlink (links n)) as [h|]; [| apply appends_keep].
  cbv zeta.
  destruct (truthy_string (hyperlink_value h)) as [v|] eqn:Et; [| apply appends_keep].
  apply truthy_string_Some in Et. destruct Et as [_ Hv].
  destruct (String.eqb (hyperlink_type h) "URL").
  - apply appends_push. constructor; [| constructor].
    apply external_well_formed, Hv.
  - destruct (String.eqb (hyperlink_type h) "NODE"); [| apply appends_keep].
    destruct (resolves_to_frame getNodeById v) eqn:Er; [| apply appends_keep].
    apply appends_push. constructor; [| constructor].
    apply internal_well_formed; assumption.
Qed.

Lemma scan_self_appends n frameId :
  appends getNodeById frameId (fun conns => scan_self getNodeById links n frameId conns).
Proof.
  unfold scan_self. cbv zeta.
  set (reactions := fun conns : list connection =>
         match link_reactions (links n) with
         | Some rs => fold_left (scan_reaction getNodeById n frameId) rs conns
         | None => conns
         end).
  assert (Hreact : appends getNodeById frameId reactions).
  { unfold reactions. destruct (link_reactions (links n)) as [rs|];
      [| apply appends_keep].
    apply appends_fold. intros r. apply scan_reaction_appends. }
  destruct (String.eqb (node_type n) "TEXT"); [| exact Hreact].
  refine (appends_then frameId reactions
            (fun conns1 =>
               if fst (scan_styled getNodeById links n frameId conns1)
               then snd (scan_styled getNodeById links n frameId conns1)
               else scan_simple_hyperlink getNodeById links n frameId
                      (snd (scan_styled getNodeById links n frameId conns1)))
            Hreact _).
  unfold scan_styled.
  destruct (link_styled (links n)) as [[segments|m]|];
    cbn [fst snd]; try apply scan_simple_hyperlink_appends.
  destruct (scan_segments_appends n frameId segments) as (k & Hk & Hwk).
  destruct (existsb (fun seg => match segment_link seg with
                                | Some _ => true | None => false end) segments) eqn:E.
  - exists k. split; [| exact Hwk].
    intros conns. rewrite Hk. cbn [fst snd orb]. reflexivity.
  - destruct (scan_simple_hyperlink_appends n frameId) as (s & Hs & Hws).
    exists (k ++ s). split; [| apply Forall_app; split; assumption].
    intros conns. rewrite Hk. cbn [fst snd orb]. rewrite Hs, app_assoc.
    reflexivity.
Qed.

Lemma scanNodeForConnections_unfold n frameId conns :
  scanNodeForConnections getNodeById links n frameId conns =
  fold_left (fun acc c => scanNodeForConnections getNodeById links c frameId acc)
    (node_children n) (scan_self getNodeById links n frameId conns).
Proof. destruct n; reflexivity. Qed.

Lemma scan_children_appends frameId cs :
  Forall (fun c => appends getNodeById frameId
            (fun conns => scanNodeForConnections getNodeById links c frameId conns))
         cs ->
  exists new,
    (forall conns,
       fold_left (fun acc c => scanNodeForConnections getNodeById links c frameId acc)
                 cs conns = conns ++ new) /\
    new = flat_map (fun c => scanNodeForConnections getNodeById links c frameId [])
                   cs /\
    Forall (well_formed_connection getNodeById frameId) new.
Proof.
  induction 1 as [|c rest (a & Ha & Hwa) _ (k & Hk & Ek & Hwk)];
    cbn [fold_left flat_map].
  - exists []. split; [intros; rewrite app_nil_r; reflexivity |].
    split; [reflexivity | constructor].
  - exists (a ++ k). split; [| split].
    + intros conns. rewrite Ha, Hk, app_assoc. reflexivity.
    + rewrite Ha, Ek. reflexivity.
    + apply Forall_app. split; assumption.
Qed.

Lemma scanNodeForConnections_appends_each frameId n :
  appends getNodeById frameId
    (fun conns => scanNodeForConnections getNodeById links n frameId conns).
Proof.
  induction n as [n IH] using node_children_ind.
  destruct (scan_self_appends n frameId) as (a & Ha & Hwa).
  destruct (scan_children_appends frameId _ IH) as (k & Hk & _ & Hwk).
  exists (a ++ k). split; [| apply Forall_app; split; assumption].
  intros conns. rewrite scanNodeForConnections_unfold, Ha, Hk, app_assoc.
  reflexivity.
Qed.

(** X12. The scan of a node only ever appends to the list of connections,
    and what it appends does not depend on what the list holds: first the
    connections of the node itself, then those of its children in order.
    Every connection it records starts at the scanned frame and is either
    internal, naming a non-empty destination id that resolves to a frame
    (and no URL), or external, naming a non-empty URL (and no
    destination): a link to a node that is not a frame, or to a node that
    is gone, is never recorded. *)
Theorem scanNodeForConnections_appends_well_formed
    (n : node) (frameId : string) (conns : list connection) :
  let found := scanNodeForConnections getNodeById links n frameId [] in
  scanNodeForConnections getNodeById links n frameId conns = conns ++ found /\
  found = scan_self getNodeById links n frameId [] ++
          flat_map (fun c => scanNodeForConnections getNodeById links c frameId [])
                   (node_children n) /\
  Forall (well_formed_connection getNodeById frameId) found.
Proof.
  cbv zeta.
  destruct (scanNodeForConnections_appends_each frameId n) as (a & Ha & Hwa).
  assert (Ea : scanNodeForConnections getNodeById links n frameId [] = a).
  { rewrite Ha. reflexivity. }
  rewrite Ea. split; [apply Ha | split; [| exact Hwa]].
  rewrite <- Ea, scanNodeForConnections_unfold.
  destruct (scan_children_appends frameId (node_children n)) as (k & Hk & Ek & _).
  { apply Forall_forall. intros c _. apply scanNodeForConnections_appends_each. }
  rewrite Hk, Ek. reflexivity.
Qed.

(** ** The tracked lists *)

Lemma add_frame_tracked acc frame :
  node_id frame ∈ List.map frame_id (frameData (fst acc)) ->
  add_frame getNodeById links parent_name missing_number acc frame = acc.
Proof.
  intros Hin. unfold add_frame. cbv zeta.
  destruct (find_frame (frameData (fst acc)) (node_id frame)) eqn:E;
    [reflexivity |].
  apply find_frame_None in E. contradiction.
Qed.

Lemma autoAdd_fold selectedFrames : forall tr added,
  let run := fold_left (add_frame getNodeById links parent_name missing_number)
               selectedFrames (tr, added) in
  exists newFrames newConns,
    frameData (fst run) = frameData tr ++ newFrames /\
    connections (fst run) = connections tr ++ newConns /\
    snd run = added ++ List.map frame_id newFrames /\
    NoDup (List.map frame_id newFrames) /\
    (forall i, i ∈ List.map frame_id newFrames <->
               i ∈ ids selectedFrames /\ i ∉ List.map frame_id (frameData tr)) /\
    Forall (fun c => fromFrameId c ∈ List.map frame_id newFrames /\
                     well_formed_connection getNodeById (fromFrameId c) c)
           newConns.
Proof.
  induction selectedFrames as [|frame rest IH]; intros tr added; cbv zeta;
    cbn [fold_left].
  - exists [], []. cbn [fst snd List.map]. rewrite !app_nil_r.
    split; [reflexivity | split; [reflexivity | split; [reflexivity |]]].
    split; [constructor | split; [| constructor]].
    intros i. rewrite fmap_nil, elem_of_nil. tauto.
  - destruct (find_frame (frameData tr) (node_id frame)) as [f|] eqn:E.
    + (* already tracked *)
      rewrite add_frame_tracked.
      2:{ cbn [fst]. destruct (find_frame_Some _ _ _ E) as [Hid Hin].
          rewrite <- Hid. apply list_elem_of_In, in_map, list_elem_of_In, Hin. }
      destruct (IH tr added) as (nf & nc & Hf & Hc & Ha & Hnd & Hmem & Hwf).
      exists nf, nc.
      split; [exact Hf | split; [exact Hc | split; [exact Ha |]]].
      split; [exact Hnd | split; [| exact Hwf]].
      intros i. split.
      * intros Hi. apply Hmem in Hi. destruct Hi as [Hi Hn].
        split; [| exact Hn].
        rewrite fmap_cons. apply elem_of_cons. right. exact Hi.
      * intros [Hi Hn]. apply Hmem. split; [| exact Hn].
        rewrite fmap_cons in Hi. apply elem_of_cons in Hi as [-> | Hi];
          [| exact Hi].
        exfalso. destruct (find_frame_Some _ _ _ E) as [Hid Hin].
        apply Hn. rewrite <- Hid.
        apply list_elem_of_In, in_map, list_elem_of_In, Hin.
    + (* a new frame: recorded, then scanned *)
      set (newFrame := {| frame_id := node_id frame;
                          frame_name := node_name frame;
                          frame_width := number_of missing_number (node_width frame);
                          frame_height := number_of missing_number (node_height frame);
                          frame_parent := match node_parent frame with
                                          | Some p => parent_name p
                                          | None => "Page"
                                          end |}).
      destruct (scanNodeForConnections_appends_each (node_id frame) frame)
        as (found & Hfound & Hwfound).
      assert (Hstep : add_frame getNodeById links parent_name missing_number
                        (tr, added) frame =
                      ({| frameData := frameData tr ++ [newFrame];
                          connections := connections tr ++ found |},
                       added ++ [node_id frame])).
      { unfold add_frame. cbv zeta. cbn [fst snd]. rewrite E, Hfound.
        reflexivity. }
      rewrite Hstep. apply find_frame_None in E.
      match goal with
      | |- context [fold_left _ rest (?t, ?a)] =>
          destruct (IH t a) as (nf & nc & Hf & Hc & Ha & Hnd & Hmem & Hwf)
      end.
      cbn [frameData connections] in Hf, Hc, Hmem.
      exists (newFrame :: nf), (found ++ nc).
      assert (Hfresh : node_id frame ∉ List.map frame_id nf).
      { intros Hi. apply Hmem in Hi. destruct Hi as [_ Hn]. apply Hn.
        rewrite map_app. apply elem_of_app. right. cbn [List.map frame_id newFrame].
        apply elem_of_cons. left. reflexivity. }
      split; [| split; [| split; [| split; [| split]]]].
      * rewrite Hf, <- app_assoc. reflexivity.
      * rewrite Hc, <- app_assoc. reflexivity.
      * rewrite Ha, <- app_assoc. reflexivity.
      * cbn [List.map]. apply NoDup_cons. split; assumption.
      * intros i. cbn [List.map frame_id newFrame]. rewrite fmap_cons, !elem_of_cons.
        rewrite Hmem, map_app, elem_of_app. cbn [List.map frame_id newFrame].
        rewrite elem_of_cons, elem_of_nil. split.
        -- intros [-> | [Hi Hn]]; [split; [left; reflexivity | exact E] |].
           split; [right; exact Hi | tauto].
        -- intros [[-> | Hi] Hn]; [left; reflexivity |].
           destruct (String.eqb_spec i (node_id frame)) as [-> | Hne];
             [left; reflexivity | right].
           split; [exact Hi | tauto].
      * apply Forall_app. split.
        -- eapply Forall_impl; [exact Hwfound |]. intros c Hc'.
           cbv beta in Hc'. destruct Hc' as [Hfrom Hshape].
           split; [| split; [reflexivity | exact Hshape]].
           rewrite Hfrom. cbn [List.map]. apply elem_of_cons. left. reflexivity.
        -- eapply Forall_impl; [exact Hwf |]. intros c [Hin Hw].
           split; [| exact Hw]. cbn [List.map]. apply elem_of_cons. right. exact Hin.
Qed.

Lemma autoAdd_keeps_tracked selectedFrames : forall acc,
  (forall n, n ∈ selectedFrames ->
             node_id n ∈ List.map frame_id (frameData (fst acc))) ->
  fold_left (add_frame getNodeById links parent_name missing_number)
            selectedFrames acc = acc.
Proof.
  induction selectedFrames as [|frame rest IH]; intros acc Hall; cbn [fold_left].
  - reflexivity.
  - rewrite add_frame_tracked.
    + apply IH. intros n Hn. apply Hall, elem_of_cons. right. exact Hn.
    + apply Hall, elem_of_cons. left. reflexivity.
Qed.



(** X14. Adding a selection appends to both lists and never rewrites
    them.  The frames added are exactly the selected ones that were not
    tracked, each once (the id list sent as [justAdded]), every new
    connection starts at one of them, and adding the same selection again
    changes nothing and reports nothing added: a frame that is already
    tracked is not scanned again. *)
Theorem autoAddSelectedFrames_adds_untracked_once
    (selectedFrames : list node) (tr : tracker) :
  let run := autoAddSelectedFrames getNodeById links parent_name missing_number
               selectedFrames tr in
  (exists newFrames newConns,
     frameData (fst run) = frameData tr ++ newFrames /\
     connections (fst run) = connections tr ++ newConns /\
     List.map frame_id newFrames = snd run /\
     Forall (fun c => fromFrameId c ∈ snd run) newConns) /\
  NoDup (snd run) /\
  (forall i, i ∈ snd run <->
             i ∈ ids selectedFrames /\ i ∉ List.map frame_id (frameData tr)) /\
  autoAddSelectedFrames getNodeById links parent_name missing_number
    selectedFrames (fst run) = (fst run, []).
Proof.
  cbv zeta. unfold autoAddSelectedFrames.
  destruct (autoAdd_fold selectedFrames tr [])
    as (nf & nc & Hf & Hc & Ha & Hnd & Hmem & Hwf).
  cbn [app] in Ha. rewrite Ha.
  split; [| split; [exact Hnd | split; [exact Hmem |]]].
  - exists nf, nc. split; [exact Hf | split; [exact Hc | split; [reflexivity |]]].
    eapply Forall_impl; [exact Hwf |]. intros c [Hin _]. exact Hin.
  - apply autoAdd_keeps_tracked. cbn [fst]. intros n Hn. rewrite Hf, map_app.
    destruct (includes (List.map frame_id (frameData tr)) (node_id n)) eqn:E.
    + apply includes_elem_of in E. apply elem_of_app. left. exact E.
    + apply includes_false in E. apply elem_of_app. right. apply Hmem.
      split; [apply list_elem_of_fmap_2; exact Hn | exact E].
Qed.

(** ** The raster export and the fallback request *)

Lemma exportAsync_call frame fmt w :
  exportAsync host frame fmt w =
  (match host (length (w_trace w)) (w_scene w) frame fmt with
   | Exported data => Normal data
   | ExportThrows m => Thrown m
   end,
   {| w_scene := w_scene w;
      w_trace := w_trace w ++
        [{| call_frame := node_id frame; call_format := fmt;
            call_outcome := host (length (w_trace w)) (w_scene w) frame fmt |}];
      exportResults := exportResults w |}).
Proof.
  unfold exportAsync.
  destruct (host (length (w_trace w)) (w_scene w) frame fmt); reflexivity.
Qed.

Lemma export_images_outcome scale frames : forall imgs w,
  let run := export_images host getNodeById scale frames imgs w in
  let resolved :=
    List.filter (fun f => resolves_to_frame getNodeById (frame_id f)) frames in
  w_scene (snd run) = w_scene w /\
  exportResults (snd run) = exportResults w /\
  exists calls,
    w_trace (snd run) = w_trace w ++ calls /\
    calls_shape (fst run) calls /\
    Forall (fun c => call_format c = PNG scale) calls /\
    length calls <= length resolved /\
    match fst run with
    | Normal out =>
        exists new, out = imgs ++ new /\
          Forall2 image_of resolved new /\
          Forall2 (fun c img => call_outcome c = Exported (imageData img))
                  calls new
    | Thrown _ => True
    end.
Proof.
  induction frames as [|f rest IH]; intros imgs w; cbv zeta;
    cbn [export_images List.filter].
  - unfold ret. cbn [fst snd]. split; [reflexivity | split; [reflexivity |]].
    exists []. rewrite app_nil_r. split; [reflexivity |].
    split; [constructor | split; [constructor | split; [reflexivity |]]].
    exists []. rewrite app_nil_r. split; [reflexivity | split; constructor].
  - assert (Hr : resolves_to_frame getNodeById (frame_id f) =
                 match getNodeById (frame_id f) with
                 | Some frame => String.eqb (node_type frame) "FRAME"
                 | None => false
                 end) by reflexivity.
    rewrite Hr. clear Hr.
    destruct (getNodeById (frame_id f)) as [frame|] eqn:Eg; [| apply IH].
    destruct (String.eqb (node_type frame) "FRAME") eqn:Et; [| apply IH].
    unfold bind. rewrite exportAsync_call.
    set (call := {| call_frame := node_id frame; call_format := PNG scale;
                    call_outcome := host (length (w_trace w)) (w_scene w)
                                         frame (PNG scale) |}).
    destruct (host (length (w_trace w)) (w_scene w) frame (PNG scale))
      as [data | m] eqn:Eh.
    + match goal with
      | |- context [export_images _ _ _ rest ?i ?v] =>
          destruct (IH i v) as (Hsc & Hres & calls & Htr & Hshape & Hfmt & Hlen & Hout)
      end.
      cbn [w_scene w_trace exportResults] in Hsc, Hres, Htr.
      split; [exact Hsc | split; [exact Hres |]].
      exists (call :: calls). split; [rewrite Htr, <- app_assoc; reflexivity |].
      assert (Hcall : call_succeeded call).
      { exists data. reflexivity. }
      split; [| split; [constructor; [reflexivity | exact Hfmt] |
                        split; [cbn [length]; lia |]]].
      * destruct (fst (export_images host getNodeById scale rest
                         (imgs ++ [{| img_id := frame_id f;
                                      img_name := frame_name f;
                                      img_width := frame_width f;
                                      img_height := frame_height f;
                                      imageData := data |}])
                         {| w_scene := w_scene w;
                            w_trace := w_trace w ++ [call];
                            exportResults := exportResults w |}))
          as [out | m]; cbn [calls_shape] in Hshape |- *.
        -- constructor; assumption.
        -- destruct Hshape as (pre & last & -> & Hlast & Hpre).
           exists (call :: pre), last.
           split; [reflexivity | split; [exact Hlast | constructor; assumption]].
      * destruct (fst (export_images host getNodeById scale rest
                         (imgs ++ [{| img_id := frame_id f;
                                      img_name := frame_name f;
                                      img_width := frame_width f;
                                      img_height := frame_height f;
                                      imageData := data |}])
                         {| w_scene := w_scene w;
                            w_trace := w_trace w ++ [call];
                            exportResults := exportResults w |}))
          as [out | m]; [| exact I].
        destruct Hout as (new & -> & Himg & Hdata).
        eexists (_ :: new). split; [rewrite <- app_assoc; reflexivity |].
        split; constructor; try assumption.
        -- repeat split.
        -- reflexivity.
    + cbn [fst snd w_scene w_trace exportResults].
      split; [reflexivity | split; [reflexivity |]].
      exists [call]. split; [reflexivity |].
      split; [exists [], call; split; [reflexivity | split; [reflexivity | constructor]] |].
      split; [constructor; [reflexivity | constructor] |].
      split; [cbn [length]; lia | exact I].
Qed.

Lemma relevantConnections_elem frameIds conns c :
  c ∈ relevantConnections frameIds conns <->
  c ∈ conns /\ fromFrameId c ∈ frameIds /\
  (conn_type c = "external" \/ exists t, toFrameId c = Some t /\ t ∈ frameIds).
Proof.
  unfold relevantConnections.
  rewrite list_elem_of_In, filter_In, <- list_elem_of_In, andb_true_iff,
    orb_true_iff, includes_elem_of, String.eqb_eq.
  split; intros (Hc & Hfrom & Hto); (split; [exact Hc | split; [exact Hfrom |]]).
  - destruct Hto as [He | Ht]; [left; exact He | right].
    destruct (toFrameId c) as [t|]; [| discriminate].
    exists t. split; [reflexivity | apply includes_elem_of, Ht].
  - destruct Hto as [He | (t & -> & Ht)]; [left; exact He | right].
    apply includes_elem_of, Ht.
Qed.

Lemma performExport_core (conns : list connection)
    (orderedFrames : list frame_info) (frameOrder selectedFrameIds : list string)
    (scale : num) (quality : string) (batchInfo : option (nat * nat))
    (w : world) :
  let run := performExport host getNodeById conns orderedFrames frameOrder
               selectedFrameIds scale quality batchInfo w in
  let resolved :=
    List.filter (fun f => resolves_to_frame getNodeById (frame_id f))
                orderedFrames in
  w_scene (snd run) = w_scene w /\
  exists calls,
    w_trace (snd run) = w_trace w ++ calls /\
    calls_shape (fst run) calls /\
    Forall (fun c => call_format c = PNG scale) calls /\
    length calls <= length resolved /\
    match fst run with
    | Normal message =>
        Forall2 image_of resolved (gp_frames message) /\
        Forall2 (fun c img => call_outcome c = Exported (imageData img))
                calls (gp_frames message) /\
        gp_connections message = relevantConnections selectedFrameIds conns /\
        gp_frameOrder message = frameOrder /\
        gp_quality message = quality /\
        gp_batchInfo message = batchInfo
    | Thrown _ => True
    end.
Proof.
  cbv zeta. unfold performExport, bind.
  destruct (export_images_outcome scale orderedFrames [] w)
    as (Hsc & _ & calls & Htr & Hshape & Hfmt & Hlen & Hout).
  destruct (export_images host getNodeById scale orderedFrames [] w)
    as [[out | m] w'] eqn:E; cbn [fst snd] in *; unfold ret; cbn [fst snd];
    (split; [exact Hsc |]); exists calls;
    (split; [exact Htr | split; [exact Hshape |
       split; [exact Hfmt | split; [exact Hlen |]]]]); [| exact I].
  destruct Hout as (new & -> & Himg & Hdata). cbn [app gp_frames gp_connections
    gp_frameOrder gp_quality gp_batchInfo].
  repeat split; assumption.
Qed.

(** X15. The raster export asks the host for one PNG per frame whose id
    still resolves to a frame, in the order given, and stops at the first
    call that throws: nothing catches it and no message is posted.  When
    every call succeeds the message carries one image per resolvable
    frame, with the tracked id, name and size and the bytes of its call;
    a frame whose node is gone is left out without a word.  The
    connections are filtered by the selected ids, not by the frames that
    were exported.  The scene is never touched. *)
Theorem performExport_outcome (conns : list connection)
    (orderedFrames : list frame_info) (frameOrder selectedFrameIds : list string)
    (scale : num) (quality : string) (batchInfo : option (nat * nat))
    (w : world) :
  let run := performExport host getNodeById conns orderedFrames frameOrder
               selectedFrameIds scale quality batchInfo w in
  let calls := calls_between w (snd run) in
  let resolved :=
    List.filter (fun f => resolves_to_frame getNodeById (frame_id f))
                orderedFrames in
  w_scene (snd run) = w_scene w /\
  w_trace (snd run) = w_trace w ++ calls /\
  calls_shape (fst run) calls /\
  Forall (fun c => call_format c = PNG scale) calls /\
  length calls <= length resolved /\
  match fst run with
  | Normal message =>
      Forall2 image_of resolved (gp_frames message) /\
      Forall2 (fun c img => call_outcome c = Exported (imageData img))
              calls (gp_frames message) /\
      gp_connections message = relevantConnections selectedFrameIds conns /\
      gp_frameOrder message = frameOrder /\
      gp_quality message = quality /\
      gp_batchInfo message = batchInfo
  | Thrown _ => True
  end.
Proof.
  cbv zeta.
  destruct (performExport_core conns orderedFrames frameOrder selectedFrameIds
              scale quality batchInfo w)
    as (Hsc & calls & Htr & Hshape & Hfmt & Hlen & Hout).
  rewrite (calls_between_app _ _ _ Htr).
  split; [exact Hsc | split; [exact Htr | split; [exact Hshape |
    split; [exact Hfmt | split; [exact Hlen | exact Hout]]]]].
Qed.

(** X16. A fallback request is always answered with exactly one message
    that repeats the frame id and index of the request, and it never
    throws.  The message reports success exactly when the id resolves to
    a frame and the one PNG export made for it returns, and then carries
    those bytes; a failure always carries a reason: 'Frame not found',
    without any export call, when the id does not resolve to a frame, and
    the message of the export otherwise. *)
Theorem handlePngFallbackRequest_always_answers
    (frameId : string) (frameIndex : nat) (scale : num) (w : world) :
  let run := handlePngFallbackRequest host getNodeById frameId frameIndex
               scale w in
  let calls := calls_between w (snd run) in
  exists message,
    fst run = Normal message /\
    fb_frameId message = frameId /\ fb_frameIndex message = frameIndex /\
    w_scene (snd run) = w_scene w /\
    w_trace (snd run) = w_trace w ++ calls /\
    (fb_success message = true <->
     exists frame data,
       getNodeById frameId = Some frame /\ node_type frame = "FRAME" /\
       calls = [{| call_frame := node_id frame; call_format := PNG scale;
                   call_outcome := Exported data |}] /\
       fb_pngData message = Some data /\ fb_name message = Some (node_name frame) /\
       fb_width message = node_width frame /\
       fb_height message = node_height frame /\ fb_error message = None) /\
    (fb_success message = false ->
     fb_pngData message = None /\
     if resolves_to_frame getNodeById frameId then
       exists call m, calls = [call] /\ call_outcome call = ExportThrows m /\
                      fb_error message = Some m
     else calls = [] /\ fb_error message = Some "Frame not found").
Proof.
  cbv zeta. unfold handlePngFallbackRequest, resolves_to_frame.
  destruct (getNodeById frameId) as [frame|] eqn:Eg.
  2:{ unfold ret. cbn [fst snd]. eexists. split; [reflexivity |].
      cbn [fb_frameId fb_frameIndex fb_success fb_pngData fb_error].
      unfold calls_between. rewrite drop_all, app_nil_r.
      repeat split; try discriminate.
      intros (frame & data & Hf & _). discriminate. }
  destruct (String.eqb (node_type frame) "FRAME") eqn:Et.
  2:{ unfold ret. cbn [fst snd]. eexists. split; [reflexivity |].
      cbn [fb_frameId fb_frameIndex fb_success fb_pngData fb_error].
      unfold calls_between. rewrite drop_all, app_nil_r.
      repeat split; try discriminate.
      intros (frame' & data & [= <-] & Hty & _).
      apply String.eqb_neq in Et. contradiction. }
  apply String.eqb_eq in Et.
  unfold try_catch, bind. rewrite exportAsync_call.
  destruct (host (length (w_trace w)) (w_scene w) frame (PNG scale))
    as [data | m] eqn:Eh; unfold ret; cbn [fst snd w_scene w_trace];
    (eexists; split; [reflexivity |]);
    cbn [fb_frameId fb_frameIndex fb_success fb_pngData fb_error fb_name
         fb_width fb_height];
    unfold calls_between; cbn [w_trace]; rewrite drop_app_length.
  - repeat split; try discriminate.
    intros _. exists frame, data. repeat split; assumption.
  - repeat split; try discriminate.
    + intros (frame' & data & _ & _ & _ & Hd & _). discriminate.
    + eexists _, m. repeat split.
Qed.

Lemma concat_est_frames (groups : list (list frame_estimate)) :
  concat (List.map (List.map est_frame) groups) =
  List.map est_frame (concat groups).
Proof.
  induction groups as [|g rest IH]; cbn [List.map concat].
  - reflexivity.
  - rewrite IH, map_app. reflexivity.
Qed.

(** X17. An export that is not a vector export never throws and never
    touches the scene, and ends in exactly one of three ways.  A batch
    warning is sent before any export call is made, and its batches, in
    order, are the ordered frames.  Otherwise the frames are exported: if
    every call succeeds the [generate-pdf] message goes out, with one
    image per frame that still resolves; if a call throws, it was the
    last one and the error message is 'Failed to export frames: '
    followed by what the call threw. *)
Theorem exportToPDF_raster_outcome (tr : tracker)
    (frameOrder selectedFrameIds : list string) (scale : num)
    (quality exportType : string) (sc : scene) :
  exportType <> "vector" ->
  let run := exportToPDF host getNodeById estimateBytes tr frameOrder
               selectedFrameIds scale quality exportType sc in
  let orderedFrames :=
    orderedFramesOf (frameData tr) frameOrder selectedFrameIds in
  w_scene (snd run) = sc /\
  match fst run with
  | VectorHandoff _ => False
  | BatchWarning batches =>
      w_trace (snd run) = [] /\ concat batches = orderedFrames
  | GeneratePdf message =>
      Forall call_succeeded (w_trace (snd run)) /\
      Forall2 image_of
        (List.filter (fun f => resolves_to_frame getNodeById (frame_id f))
                     orderedFrames)
        (gp_frames message) /\
      gp_connections message =
        relevantConnections selectedFrameIds (connections tr) /\
      gp_frameOrder message = frameOrder
  | ErrorPosted error =>
      exists m pre last,
        error = "Failed to export frames: " +:+ m /\
        w_trace (snd run) = pre ++ [last] /\
        call_outcome last = ExportThrows m /\
        Forall call_succeeded pre
  end.
Proof.
  intros Hraster. cbv zeta. unfold exportToPDF. cbv zeta.
  apply String.eqb_neq in Hraster. rewrite Hraster.
  unfold batchPlan.
  destruct (num_gt _ SAFE_MEMORY_LIMIT).
  - cbn [fst snd w_scene w_trace].
    split; [reflexivity | split; [reflexivity |]].
    rewrite planBatches_pack, concat_est_frames.
    match goal with
    | |- context [pack_finish ?A (fold_left (pack_step ?A ?size ?limit) ?items _)] =>
        destruct (pack_partition A size limit items) as [Hcat _]
    end.
    cbv zeta in Hcat. rewrite Hcat, map_map. cbn [est_frame]. apply map_id.
  - match goal with
    | |- context [performExport _ _ ?c ?o ?fo ?s ?q ?qs ?b ?v] =>
        pose proof (performExport_core c o fo s q qs b v) as Hrun;
        destruct (performExport host getNodeById c o fo s q qs b v)
          as [[message | m] w'] eqn:E
    end; cbv zeta in Hrun; cbn [fst snd w_scene w_trace] in Hrun |- *;
      destruct Hrun as (Hsc & calls & Htr & Hshape & _ & _ & Hout).
    + split; [exact Hsc |]. rewrite Htr. cbn [app].
      destruct Hout as (Himg & _ & Hconn & Hfo & _).
      split; [exact Hshape | split; [exact Himg | split; assumption]].
    + split; [exact Hsc |]. rewrite Htr. cbn [app].
      destruct Hshape as (pre & last & -> & Hlast & Hpre).
      exists m, pre, last. repeat split; assumption.
Qed.

Lemma filter_map_comm {A B} (g : A -> B) (r : B -> bool) (l : list A) :
  List.map g (List.filter (fun x => r (g x)) l) = List.filter r (List.map g l).
Proof.
  induction l as [|a l IH]; cbn [List.filter List.map]; [reflexivity |].
  destruct (r (g a)); cbn [List.map]; rewrite IH; reflexivity.
Qed.

Lemma filter_filter_andb {A} (p r : A -> bool) (l : list A) :
  List.filter r (List.filter p l) = List.filter (fun a => p a && r a) l.
Proof.
  induction l as [|a l IH]; cbn [List.filter]; [reflexivity |].
  destruct (p a); cbn [List.filter andb]; [destruct (r a) |]; rewrite IH;
    reflexivity.
Qed.

Lemma image_ids frames imgs :
  Forall2 image_of frames imgs ->
  List.map img_id imgs = List.map frame_id frames.
Proof.
  induction 1 as [|f img frames imgs (Hid & _) _ IH]; cbn [List.map].
  - reflexivity.
  - rewrite Hid, IH. reflexivity.
Qed.

(** X18. A batch export that goes through sends the images of the ids
    of the batch that are tracked and still resolve to a frame, in the
    order of the batch.  Its connections are those that start at a frame
    of the batch and are external or end at a frame of the same batch: a
    link from a frame of one batch to a frame of another batch is in no
    batch's message. *)
Theorem exportBatch_keeps_links_inside_batch (tr : tracker)
    (frameIds : list string) (scale : num) (quality : string)
    (batchNumber totalBatches : nat) (sc : scene) (message : generate_pdf) :
  fst (exportBatch host getNodeById tr frameIds scale quality batchNumber
         totalBatches sc) = Normal message ->
  List.map img_id (gp_frames message) =
    List.filter (fun i => includes (List.map frame_id (frameData tr)) i &&
                          resolves_to_frame getNodeById i) frameIds /\
  gp_frameOrder message = frameIds /\
  gp_batchInfo message = Some (batchNumber, totalBatches) /\
  forall c, c ∈ gp_connections message <->
            c ∈ connections tr /\ fromFrameId c ∈ frameIds /\
            (conn_type c = "external" \/
             exists t, toFrameId c = Some t /\ t ∈ frameIds).
Proof.
  unfold exportBatch. intros E.
  match type of E with
  | fst (performExport _ _ ?c ?o ?fo ?s ?q ?qs ?b ?v) = _ =>
      destruct (performExport_core c o fo s q qs b v)
        as (_ & calls & _ & _ & _ & _ & Hout)
  end.
  rewrite E in Hout. destruct Hout as (Himg & _ & Hconn & Hfo & _ & Hb).
  split; [| split; [exact Hfo | split; [exact Hb |]]].
  - rewrite (image_ids _ _ Himg),
      (filter_map_comm frame_id (resolves_to_frame getNodeById)).
    rewrite orderedFramesOf_ids.
    rewrite filter_filter_andb. apply filter_ext_in. intros i Hi.
    assert (Hinc : includes frameIds i = true).
    { apply includes_elem_of, list_elem_of_In, Hi. }
    rewrite Hinc. reflexivity.
  - intros c. rewrite Hconn. apply relevantConnections_elem.
Qed.

End PluginCoverage.
End MoreProperties.

(** * The further properties on the concrete scenes *)

(** Witness of X5: isolating the text of the hybrid frame empties the
    fills of the blurred rectangle and keeps it hidden. *)
Lemma applySegmentState_isolates_witness :
  let nodes := collectAllNodes (Some hybrid_frame) in
  let state := captureNodeState demo_scene nodes in
  let sc' := applySegmentState hybrid_frame nodes [text_child] state demo_scene in
  fills (sc' "2:2") = Some (PaintArray []) /\
  fills (sc' "2:3") = Some (PaintArray [Some solid_paint]).
Proof.
  cbv zeta.
  pose proof (@applySegmentState_isolates ZNumber hybrid_frame
                (collectAllNodes (Some hybrid_frame)) [text_child]
                (captureNodeState demo_scene (collectAllNodes (Some hybrid_frame)))
                demo_scene) as Hiso.
  split.
  - destruct (Hiso "2:2") as (_ & Hin & _).
    destruct Hin as (_ & Hfills & _).
    { apply list_elem_of_In. vm_compute. tauto. }
    exact (Hfills [Some solid_paint] eq_refl).
  - destruct (Hiso "2:3") as (_ & Hin & _).
    destruct Hin as (_ & Hfills & _).
    { apply list_elem_of_In. vm_compute. tauto. }
    exact (Hfills [Some solid_paint] eq_refl).
Defined.

(** Witness of X6: the small buffer is valid and carries no error. *)
Lemma validatePDFData_verdict_iff_witness :
  isValid (validatePDFData (Some demo_pdf) "Cover") = true /\
  errors (validatePDFData (Some demo_pdf) "Cover") = [].
Proof.
  destruct (@validatePDFData_verdict_iff (Some demo_pdf) "Cover")
    as (Herr & Hvalid & _).
  cbv zeta in Herr, Hvalid.
  assert (Hv : isValid (validatePDFData (Some demo_pdf) "Cover") = true).
  { apply Hvalid. exists demo_pdf.
    split; [reflexivity | split; [vm_compute; lia |]].
    split; [reflexivity | split; reflexivity]. }
  split; [exact Hv | apply Herr, Hv].
Defined.

(** Witness of X7: the three frames of 167MB need two batches at
    least. *)
Lemma packers_split_when_over_budget_witness :
  2 <= length (planBatches three_frames).
Proof.
  destruct (@packers_split_when_over_budget ZNumber three_frames [])
    as (Hplan & _).
  destruct (Hplan (planBatches three_frames)) as (_ & _ & Hlen).
  - reflexivity.
  - apply Hlen. vm_compute. lia.
Defined.

(** Witness of X10: on a host that always exports, the hybrid frame goes
    out as its background, the blurred rectangle as a PNG and the text as
    a PDF. *)
Lemma layered_export_in_planned_order_witness :
  let run := exportLayered always_exports demo_scale (demo_info "2:1")
               hybrid_frame None
               (buildFrameSegments demo_scene hybrid_frame) demo_world in
  List.map call_format (calls_between demo_world (snd run)) =
    [PDF; PNG demo_scale; PDF].
Proof.
  cbv zeta.
  destruct (@layered_export_in_planned_order ZNumber always_exports demo_lookup
              demo_scale (demo_info "2:1") hybrid_frame None
              (buildFrameSegments demo_scene hybrid_frame) demo_world)
    as (_ & _ & _ & Hall).
  cbv zeta in Hall. destruct Hall as (Hformats & _).
  - vm_compute. repeat constructor; eexists; reflexivity.
  - exact Hformats.
Defined.

(** Witness of X16: a fallback request for the frame that is gone is
    answered with 'Frame not found', without an export call. *)
Lemma handlePngFallbackRequest_always_answers_witness :
  exists message,
    fst (handlePngFallbackRequest always_exports demo_lookup "9:9" 4
           demo_scale demo_world) = Normal message /\
    fb_frameIndex message = 4 /\
    fb_error message = Some "Frame not found" /\
    w_trace (snd (handlePngFallbackRequest always_exports demo_lookup "9:9" 4
                    demo_scale demo_world)) = [].
Proof.
  destruct (@handlePngFallbackRequest_always_answers ZNumber always_exports
              demo_lookup "9:9" 4 demo_scale demo_world)
    as (message & Hrun & _ & Hindex & _ & Htrace & Hok & Hfail).
  cbv zeta in Hrun, Htrace, Hok, Hfail.
  exists message. split; [exact Hrun | split; [exact Hindex |]].
  assert (Hs : fb_success message = false).
  { injection Hrun as <-. reflexivity. }
  destruct (Hfail Hs) as (_ & Hnone).
  change (resolves_to_frame demo_lookup "9:9") with false in Hnone.
  destruct Hnone as (Hcalls & Herror).
  split; [exact Herror |]. rewrite Htrace, Hcalls. reflexivity.
Defined.

(** Witness of X17: a raster export of the two frames, in the order
    chosen, on a host that always exports. *)
Lemma exportToPDF_raster_outcome_witness :
  "raster" <> "vector" /\
  exists message,
    fst (exportToPDF always_exports demo_lookup demo_estimate demo_tracker
           ["2:1"; "1:1"] ["1:1"; "2:1"] demo_scale "high" "raster"
           demo_scene) = GeneratePdf message /\
    Forall2 image_of [demo_info "2:1"; demo_info "1:1"] (gp_frames message) /\
    gp_frameOrder message = ["2:1"; "1:1"].
Proof.
  assert (Hraster : "raster" <> "vector") by discriminate.
  split; [exact Hraster |].
  destruct (@exportToPDF_raster_outcome ZNumber always_exports demo_lookup
              demo_estimate demo_tracker ["2:1"; "1:1"] ["1:1"; "2:1"]
              demo_scale "high" "raster" demo_scene Hraster) as (_ & Hrun).
  destruct (fst (exportToPDF always_exports demo_lookup demo_estimate
                   demo_tracker ["2:1"; "1:1"] ["1:1"; "2:1"] demo_scale
                   "high" "raster" demo_scene))
    as [h | batches | message | error] eqn:E; try discriminate E.
  destruct Hrun as (_ & Himg & _ & Hfo).
  exists message. split; [reflexivity | split; [exact Himg | exact Hfo]].
Defined.

(** Witness of X18: the batch of the hybrid frame and the frame that is
    gone sends the image of the hybrid frame alone, and keeps the link
    between the two but not the link that starts in another batch. *)
Lemma exportBatch_keeps_links_inside_batch_witness :
  exists message,
    fst (exportBatch always_exports demo_lookup demo_tracker ["2:1"; "9:9"]
           demo_scale "high" 1 2 demo_scene) = Normal message /\
    List.map img_id (gp_frames message) = ["2:1"] /\
    internal_connection "2:1" "9:9" demo_link_bounds "Gone"
      ∈ gp_connections message /\
    internal_connection "1:1" "2:1" demo_link_bounds "Next"
      ∉ gp_connections message.
Proof.
  eexists. split; [reflexivity |].
  destruct (@exportBatch_keeps_links_inside_batch ZNumber always_exports
              demo_lookup demo_tracker ["2:1"; "9:9"] demo_scale "high" 1 2
              demo_scene _ eq_refl) as (Hids & _ & _ & Hconns).
  split; [exact Hids | split].
  - apply Hconns. split; [| split].
    + apply list_elem_of_In. vm_compute. tauto.
    + apply list_elem_of_In. vm_compute. tauto.
    + right. exists "9:9". split; [reflexivity |].
      apply list_elem_of_In. vm_compute. tauto.
  - intros Hin. apply Hconns in Hin. destruct Hin as (_ & Hfrom & _).
    apply list_elem_of_In in Hfrom. vm_compute in Hfrom. 
    destruct Hfrom as [Hf | [Hf | []]]; discriminate Hf.
Defined.

(** Selecting the hybrid frame, the drop-shadow frame and the hybrid
    frame again tracks two frames.  The text of the hybrid frame gives an
    internal link for its reaction to the frame 1:1 and an external one
    for its styled segment; its reaction to a rectangle and its
    node-level hyperlink are passed over. *)
Example selection_of_two_frames :
  let run := autoAddSelectedFrames demo_lookup demo_links demo_parent_name
               0%Z [hybrid_frame; demo_frame; hybrid_frame] initial_tracker in
  snd run = ["2:1"; "1:1"] /\
  List.map (fun c => (fromFrameId c, conn_type c, toFrameId c, toUrl c))
           (connections (fst run)) =
    [("2:1", "internal", Some "1:1", None);
     ("2:1", "external", None, Some "https://example.org")].
Proof. vm_compute. split; reflexivity. Qed.

(** A raster export on a host whose second call runs out of memory ends
    in the error message. *)
Example raster_export_error :
  fst (exportToPDF second_call_fails demo_lookup demo_estimate demo_tracker
         ["2:1"; "1:1"] ["1:1"; "2:1"] demo_scale "high" "raster" demo_scene)
  = ErrorPosted "Failed to export frames: out of memory".
Proof. vm_compute. reflexivity. Qed.
